(** * remindme: the reminder store, its timers and its snapshot format

    A shallow embedding of the reminder core of [main.go] (the last of the
    three revisions kept in the file: [reminder], [remindmeState], [Add],
    [Remove], [ReadFrom], [WriteTo], the choice of the snapshot file and the
    reset of [constructRMState], the timer sweep and the file name of
    [deconstructRMState], and the [list] and [cancel] branches of
    [remindmeHandler]), with the library calls it relies on ([sort.Search],
    [sort.Strings], [time.Until], [time.AfterFunc], [Timer.Stop],
    [time.Format]/[time.Parse] with the RFC3339 and RFC3339Nano layouts, the
    [%q] verb and [encoding/csv]) modelled next to it. *)

From Stdlib Require Import ZArith String Ascii.
From stdpp Require Import base list strings sorting.

Local Open Scope Z_scope.
Local Open Scope nat_scope.

(** ** Instants and durations ([package time]) *)

Module GoTime.

(** A [time.Time] is the instant it denotes, in nanoseconds since the Unix
    epoch; none of the times of the program carries a monotonic reading
    ([In(time.UTC)] and [time.Parse] both produce wall-clock times). *)
Definition Time := Z.

(** A [time.Duration] is an int64 count of nanoseconds. *)
Definition Duration := Z.

Definition minDuration : Duration := (- 2 ^ 63)%Z.
Definition maxDuration : Duration := (2 ^ 63 - 1)%Z.

(** [t.Sub(u)]: the difference, saturated to the int64 range. *)
Definition Sub (t u : Time) : Duration :=
  let d := (t - u)%Z in
  if (d <? minDuration)%Z then minDuration
  else if (maxDuration <? d)%Z then maxDuration
  else d.

(** [time.Until(t)] is [t.Sub(time.Now())]; the clock reading is explicit. *)
Definition Until (now t : Time) : Duration := Sub t now.

Definition Before (t u : Time) : bool := (t <? u)%Z.
Definition Equal (t u : Time) : bool := (t =? u)%Z.

Definition Second : Duration := 1000000000%Z.
Definition Hour : Duration := (3600 * Second)%Z.

End GoTime.
Import GoTime.

(** ** Slices

    A slice is the list of its elements.  The three-statement idioms of the
    source (grow, shift with [copy], assign; and assign nil, shift, reslice)
    are spelled out statement by statement. *)

Section Slices.
Context {A : Type}.

(** [s[i:j]] *)
Definition slice (s : list A) (i j : nat) : list A := take (j - i) (drop i s).

(** [copy(s[off:], src)]: overwrites [min(len(s)-off, len(src))] elements of
    [s] from index [off] on.  [src] is read before anything is written,
    as Go's [copy] does for overlapping slices. *)
Definition copy_at (s : list A) (off : nat) (src : list A) : list A :=
  take off s ++ take (length s - off) src ++ drop (off + length src) s.

(** [s = append(s, null); copy(s[i+1:], s[i:]); s[i] = x] *)
Definition slice_insert (null : A) (s : list A) (i : nat) (x : A) : list A :=
  let s1 := s ++ [null] in
  let s2 := copy_at s1 (i + 1) (drop i s1) in
  <[i := x]> s2.

(** [s[k] = null; copy(s[k:], s[k+1:]); s = s[:len(s)-1]] *)
Definition slice_remove (null : A) (s : list A) (k : nat) : list A :=
  let s1 := <[k := null]> s in
  let s2 := copy_at s1 k (drop (k + 1) s1) in
  take (length s2 - 1) s2.

End Slices.

(** ** [sort.Search]

    [[
    i, j := 0, n
    for i < j {
        h := int(uint(i+j) >> 1)
        if !f(h) { i = h + 1 } else { j = h }
    }
    return i
    ]]
    The loop is run with a budget of iterations; [j - i] shrinks at every
    turn, so a budget of [j - i] is never used up (lemma
    [search_loop_budget]). *)

Fixpoint search_loop (budget : nat) (f : nat -> bool) (i j : nat) : nat :=
  match budget with
  | O => i
  | S budget' =>
      if i <? j then
        let h := (i + j) / 2 in
        if negb (f h) then search_loop budget' f (h + 1) j
        else search_loop budget' f i h
      else i
  end.

Definition sort_Search (n : nat) (f : nat -> bool) : nat := search_loop n f 0 n.

(** ** The data model *)

Record reminder := mkReminder {
  userID : string;
  creation : Time;
  expiration : Time;
  message : string
}.

(** The state of a [*time.Timer] made by [time.AfterFunc]. *)
Inductive timerStatus := Armed | Fired | Stopped.

(** A timer object of the runtime: when it is due, the reminder [r] its
    callback closes over (the callback also closes over
    [userID, expiration := r.userID, r.expiration]), and its state. *)
Record Timer := mkTimer {
  tm_when : Time;
  tm_reminder : reminder;
  tm_status : timerStatus
}.

(** [remindmeState]: the two parallel slices.  A [*time.Timer] is the index
    of its object in the runtime's timer table.  The session and the mutex
    are left out: every operation below is one critical section. *)
Record remindmeState := mkState {
  reminders : list reminder;
  timers : list nat
}.

(** The global [rmState] together with the timer objects of the runtime. *)
Record World := mkWorld {
  rmState : remindmeState;
  heap : list Timer
}.

(** What the outside sees. [Send r] is one call of the [sendReminder] closure
    of [Add] for [r] (the notification sink); [Log] is a [logger.Print]. *)
Inductive event :=
| Send (r : reminder)
| Log (msg : string).

(** How a call ends: it returns, or the goroutine panics. *)
Inductive outcome (A : Type) :=
| Returns (a : A) (w : World) (tr : list event)
| Panics (msg : string) (w : World) (tr : list event).
Arguments Returns {A} a w tr.
Arguments Panics {A} msg w tr.

(** Placeholders for the transient [nil] entries of the slice idioms. *)
Definition nilReminder : reminder := mkReminder EmptyString 0%Z 0%Z EmptyString.
Definition nilTimer : nat := 0.

Definition emptyState : remindmeState := mkState [] [].
Definition emptyWorld : World := mkWorld emptyState [].

(** ** Timers ([time.AfterFunc], [Timer.Stop]) *)

(** [time.AfterFunc(d, f)] at clock reading [now]: a new armed timer.
    [tm_when] is nominal: [Add] hands the reading of its [time.Until] on,
    while the runtime reads its own clock when the timer is made, after
    [rs.Lock()]; the timer is due [d] after that later reading.  When a timer
    expires is not decided by [tm_when] here (see [expire]), and no property
    below is about it. *)
Definition AfterFunc (now : Time) (d : Duration) (r : reminder)
    (h : list Timer) : nat * list Timer :=
  (length h, h ++ [mkTimer (now + d)%Z r Armed]).

(** [t.Stop()]: true iff the call stops the timer; false if the timer has
    already expired or been stopped (nothing changes then). *)
Definition Stop (t : Timer) : bool * Timer :=
  match tm_status t with
  | Armed => (true, mkTimer (tm_when t) (tm_reminder t) Stopped)
  | _ => (false, t)
  end.

(** ** String comparison: Go compares strings bytewise. *)
Definition str_gt (a b : string) : bool := String.ltb b a.
Definition str_ge (a b : string) : bool := String.leb b a.

(** [rs.reminders[i]]; every index the program reads is in range. *)
Definition reminderAt (l : list reminder) (i : nat) : reminder :=
  nth i l nilReminder.

(** ** [Add] *)

Definition Add (now : Time) (r : reminder) (w : World) : World * list event :=
  let rs := rmState w in
  let fromNow := Until now (expiration r) in
  if (fromNow <=? 1)%Z then (w, [Send r])
  else
    let '(t, heap') := AfterFunc now fromNow r (heap w) in
    let i := sort_Search (length (reminders rs))
               (fun i => str_gt (userID (reminderAt (reminders rs) i)) (userID r)) in
    (mkWorld (mkState (slice_insert nilReminder (reminders rs) i r)
                      (slice_insert nilTimer (timers rs) i t))
             heap', []).

(** ** [Remove] *)

(** The two searches on [userID], shared by [Remove] and the [list] branch of
    [remindmeHandler], delimit the range [[i, j)] of a user. *)
Definition userRange (uid : string) (l : list reminder) : nat * nat :=
  (sort_Search (length l) (fun i => str_ge (userID (reminderAt l i)) uid),
   sort_Search (length l) (fun i => str_gt (userID (reminderAt l i)) uid)).

Definition msgNotFound : string := "Reminder for removal not found.".
Definition msgTriggering : string := "Reminder for removal already triggering.".
Definition msgRemoved : string := "Removed reminder".

(** The lookup of [Remove], up to [k += i]: the author's range by two
    searches on [userID], then a search on [expiration] inside it. *)
Inductive lookup :=
| NotFound
| BadSlice
| FoundAt (k : nat).

Definition findExact (uid : string) (exp : Time) (l : list reminder) : lookup :=
  let '(i, j) := userRange uid l in
  if j =? i then NotFound
  else if j <? i then BadSlice
  else
    let authorReminders := slice l i j in
    let k := sort_Search (length authorReminders)
               (fun i => Before (expiration (reminderAt authorReminders i)) exp) in
    (* k--; if k == -1 || !authorReminders[k].expiration.Equal(expiration) *)
    match k with
    | O => NotFound
    | S k =>
        if negb (Equal (expiration (reminderAt authorReminders k)) exp)
        then NotFound
        else FoundAt (k + i)
    end.

(** [Remove] reads the slices through the global [rmState] and writes them
    through its receiver [rs]; the receiver is always [&rmState].  The lock
    is released by a deferred call, also when the method panics. *)
Definition Remove (uid : string) (exp : Time) (w : World) : outcome bool :=
  let rs := rmState w in
  match findExact uid exp (reminders rs) with
  | NotFound => Returns false w [Log msgNotFound]
  | BadSlice => Panics "slice bounds out of range" w []
  | FoundAt k =>
      match timers rs !! k with
      | None => Panics "index out of range" w []
      | Some tp =>
          match heap w !! tp with
          | None => Panics "invalid memory address or nil pointer dereference" w []
          | Some t =>
              let '(stopped, t') := Stop t in
              if negb stopped then Returns false w [Log msgTriggering]
              else
                Returns true
                  (mkWorld (mkState (slice_remove nilReminder (reminders rs) k)
                                    (slice_remove nilTimer (timers rs) k))
                           (<[tp := t']> (heap w)))
                  [Log msgRemoved]
          end
      end
  end.

(** ** The timer callback

    [func() { sendReminder(); rs.Remove(userID, expiration) }], run by the
    runtime when the timer armed for [r] expires. *)
Definition timerCallback (r : reminder) (w : World) : outcome bool :=
  match Remove (userID r) (expiration r) w with
  | Returns b w' tr => Returns b w' (Send r :: tr)
  | Panics m w' tr => Panics m w' (Send r :: tr)
  end.

(** The runtime finds timer [tp] due: only an armed timer can expire; it
    becomes [Fired] and its callback is started, for the reminder returned. *)
Definition expire (tp : nat) (w : World) : option (reminder * World) :=
  match heap w !! tp with
  | Some t =>
      match tm_status t with
      | Armed =>
          Some (tm_reminder t,
                mkWorld (rmState w)
                  (<[tp := mkTimer (tm_when t) (tm_reminder t) Fired]> (heap w)))
      | _ => None
      end
  | None => None
  end.

(** Timer [tp] expires and its callback runs to its end with nothing in
    between. *)
Definition fire (tp : nat) (w : World) : option (outcome bool) :=
  match expire tp w with
  | Some (r, w') => Some (timerCallback r w')
  | None => None
  end.

(** ** The [list] branch of [remindmeHandler]

    The reminders in [rmState.reminders[i:j]] are listed in slice order.
    [None] stands for the panic of a slice expression with [j < i]. *)
Definition ListFor (uid : string) (rs : remindmeState) : option (list reminder) :=
  let '(i, j) := userRange uid (reminders rs) in
  if j =? i then Some []
  else if j <? i then None
  else Some (slice (reminders rs) i j).

(** ** Stopping every timer of the store

    [for i := range rmState.timers { rmState.timers[i].Stop() }] *)
Definition stopTimer (h : list Timer) (tp : nat) : list Timer :=
  match h !! tp with
  | Some t => <[tp := snd (Stop t)]> h
  | None => h
  end.

Definition stopAll (h : list Timer) (tps : list nat) : list Timer :=
  foldl stopTimer h tps.

(** The reset of [constructRMState] after a failed import: every entry is
    set to nil (the timers after their [Stop]) and both slices are resliced
    to [[:0]]. *)
Definition resetState (w : World) : World :=
  let rs := rmState w in
  mkWorld (mkState (take 0 (map (fun _ => nilReminder) (reminders rs)))
                   (take 0 (map (fun _ => nilTimer) (timers rs))))
          (stopAll (heap w) (timers rs)).

(** ** Bytes *)

Definition bytes := list ascii.
Definition NL : ascii := "010"%char.
Definition CR : ascii := "013"%char.
Definition dquote : ascii := "034"%char.
Definition comma : ascii := ","%char.
Definition backslash : ascii := "092"%char.

Definition indexByte (c : ascii) (s : bytes) : option nat :=
  fst <$> list_find (fun x => x = c) s.

(** ** The [%q] verb: [strconv.Quote]

    A double-quoted Go string literal: the quote and the backslash are
    escaped with a backslash, printable characters are copied, control
    characters become [\a \b \f \n \r \t \v] or [\xhh].  The model is
    exact on ASCII.  The bytes from 128 on are copied as they are, which is
    what strconv does for the bytes of valid, printable runes only: it
    writes invalid UTF-8 as [\xhh] and the runes that are not printable as
    [\u] escapes. *)
Module Strconv.

Definition hexDigit (n : nat) : ascii :=
  nth n (list_ascii_of_string "0123456789abcdef") "0"%char.

Definition appendEscapedRune (c : ascii) : bytes :=
  let n := nat_of_ascii c in
  if Ascii.eqb c dquote || Ascii.eqb c backslash then [backslash; c]
  else if 128 <=? n then [c]
  else if (32 <=? n) && (n <? 127) then [c]
  else match n with
       | 7 => [backslash; "a"%char]
       | 8 => [backslash; "b"%char]
       | 12 => [backslash; "f"%char]
       | 10 => [backslash; "n"%char]
       | 13 => [backslash; "r"%char]
       | 9 => [backslash; "t"%char]
       | 11 => [backslash; "v"%char]
       | _ => [backslash; "x"%char; hexDigit (n / 16); hexDigit (n mod 16)]
       end.

Definition Quote (s : string) : bytes :=
  [dquote] ++ concat (map appendEscapedRune (list_ascii_of_string s)) ++ [dquote].

End Strconv.

(** ** [time.RFC3339Nano]: ["2006-01-02T15:04:05.999999999Z07:00"]

    [Format] is given for UTC times (every time the program formats is in
    UTC) of the years 0000 to 9999.  [Parse] accepts the RFC 3339 shape:
    fixed-width date and clock fields, an optional fraction of any length
    (digits after the ninth are dropped), and a zone that is [Z] or a signed
    [hh:mm] offset.  It is stricter than [time.Parse], which also takes a
    one-digit hour, a comma before the fraction and the offsets [24:xx] and
    [xx:60]; every string [Format] writes is of the strict shape. *)
Module RFC3339Nano.
Local Open Scope Z_scope.

Definition digit (d : Z) : ascii := ascii_of_nat (48 + Z.to_nat d).

Fixpoint digits (width : nat) (n : Z) : bytes :=
  match width with
  | O => []
  | S w => digits w (n / 10) ++ [digit (n mod 10)]
  end.

(** The proleptic Gregorian calendar: day number (days since 1970-01-01)
    to year, month, day and back. *)
Definition civil_from_days (z0 : Z) : Z * Z * Z :=
  let z := z0 + 719468 in
  let era := z / 146097 in
  let doe := z - era * 146097 in
  let yoe := (doe - doe / 1460 + doe / 36524 - doe / 146096) / 365 in
  let y := yoe + era * 400 in
  let doy := doe - (365 * yoe + yoe / 4 - yoe / 100) in
  let mp := (5 * doy + 2) / 153 in
  let d := doy - (153 * mp + 2) / 5 + 1 in
  let m := if mp <? 10 then mp + 3 else mp - 9 in
  (if m <=? 2 then y + 1 else y, m, d).

Definition days_from_civil (y0 m d : Z) : Z :=
  let y := if m <=? 2 then y0 - 1 else y0 in
  let era := y / 400 in
  let yoe := y - era * 400 in
  let doy := (153 * (if 2 <? m then m - 3 else m + 9) + 2) / 5 + d - 1 in
  let doe := yoe * 365 + yoe / 4 - yoe / 100 + doy in
  era * 146097 + doe - 719468.

Definition isLeap (y : Z) : bool :=
  (y mod 4 =? 0) && (negb (y mod 100 =? 0) || (y mod 400 =? 0)).

Definition daysIn (m y : Z) : Z :=
  if m =? 2 then (if isLeap y then 29 else 28)
  else if (m =? 4) || (m =? 6) || (m =? 9) || (m =? 11) then 30
  else 31.

Fixpoint dropZeros (s : bytes) : bytes :=
  match s with
  | c :: s' => if Ascii.eqb c "0"%char then dropZeros s' else s
  | [] => []
  end.

Definition fraction (nsec : Z) : bytes :=
  if nsec =? 0 then []
  else "."%char :: rev (dropZeros (rev (digits 9 nsec))).

Definition Format (t : Time) : bytes :=
  let sec := t / 1000000000 in
  let nsec := t mod 1000000000 in
  let '(y, m, d) := civil_from_days (sec / 86400) in
  let s := sec mod 86400 in
  digits 4 y ++ ["-"%char] ++ digits 2 m ++ ["-"%char] ++ digits 2 d
    ++ ["T"%char] ++ digits 2 (s / 3600) ++ [":"%char]
    ++ digits 2 (s mod 3600 / 60) ++ [":"%char] ++ digits 2 (s mod 60)
    ++ fraction nsec ++ ["Z"%char].

Definition digitVal (c : ascii) : option Z :=
  let n := nat_of_ascii c in
  if ((48 <=? n) && (n <=? 57))%nat then Some (Z.of_nat (n - 48)) else None.

Fixpoint number (width : nat) (acc : Z) (s : bytes) : option (Z * bytes) :=
  match width with
  | O => Some (acc, s)
  | S w =>
      match s with
      | c :: s' =>
          match digitVal c with
          | Some d => number w (10 * acc + d) s'
          | None => None
          end
      | [] => None
      end
  end.

Definition expect (c : ascii) (s : bytes) : option bytes :=
  match s with
  | x :: s' => if Ascii.eqb x c then Some s' else None
  | [] => None
  end.

(** The digits at the head of [s], and what follows them. *)
Fixpoint spanDigits (s : bytes) : list Z * bytes :=
  match s with
  | c :: s' =>
      match digitVal c with
      | Some d => let '(ds, r) := spanDigits s' in (d :: ds, r)
      | None => ([], s)
      end
  | [] => ([], [])
  end.

(** Nine fractional digits, the missing ones read as zero. *)
Definition nanos (ds : list Z) : Z :=
  foldl (fun acc d => 10 * acc + d) 0 (take 9 (ds ++ replicate 9 0)).

Definition parseFraction (s : bytes) : Z * bytes :=
  match s with
  | c :: s' =>
      if Ascii.eqb c "."%char then
        match spanDigits s' with
        | ([], _) => (0, s)
        | (ds, r) => (nanos ds, r)
        end
      else (0, s)
  | [] => (0, s)
  end.

(** Seconds east of UTC. *)
Definition parseZone (s : bytes) : option (Z * bytes) :=
  match s with
  | c :: s' =>
      if Ascii.eqb c "Z"%char then Some (0, s')
      else
        '(hh, s1) ← number 2 0 s';
        s2 ← expect ":"%char s1;
        '(mm, s3) ← number 2 0 s2;
        if (hh <? 24) && (mm <? 60) then
          if Ascii.eqb c "+"%char then Some ((hh * 60 + mm) * 60, s3)
          else if Ascii.eqb c "-"%char then Some (- ((hh * 60 + mm) * 60), s3)
          else None
        else None
  | [] => None
  end.

Definition Parse (s : bytes) : option Time :=
  '(y, s) ← number 4 0 s;
  s ← expect "-"%char s;
  '(m, s) ← number 2 0 s;
  s ← expect "-"%char s;
  '(d, s) ← number 2 0 s;
  s ← expect "T"%char s;
  '(hh, s) ← number 2 0 s;
  s ← expect ":"%char s;
  '(mi, s) ← number 2 0 s;
  s ← expect ":"%char s;
  '(ss, s) ← number 2 0 s;
  let '(nsec, s) := parseFraction s in
  '(off, s) ← parseZone s;
  match s with
  | [] =>
      if (1 <=? m) && (m <=? 12) && (1 <=? d) && (d <=? daysIn m y)
         && (hh <? 24) && (mi <? 60) && (ss <? 60)
      then Some ((days_from_civil y m d * 86400 + hh * 3600 + mi * 60 + ss - off)
                 * 1000000000 + nsec)
      else None
  | _ => None
  end.

End RFC3339Nano.

(** ** [encoding/csv]: a [Reader] with the settings of [csv.NewReader]

    [Comma] is [','], no comment character, [LazyQuotes] and
    [TrimLeadingSpace] are off, and [FieldsPerRecord] starts at 0: the first
    record fixes the number of fields of the later ones. *)
Module Csv.

Inductive error := ErrBareQuote | ErrQuote | ErrFieldCount | OutOfBudget.

Record Reader := mkReader {
  input : bytes;
  FieldsPerRecord : nat
}.

Definition NewReader (b : bytes) : Reader := mkReader b 0.

Definition lengthNL (b : bytes) : nat :=
  match last b with
  | Some c => if Ascii.eqb c NL then 1 else 0
  | None => 0
  end.

(** [bufio.Reader.ReadSlice('\n')]: the bytes up to and including the
    first newline, or all of them when there is none. *)
Fixpoint readSlice (s : bytes) : bytes * bytes :=
  match s with
  | [] => ([], [])
  | c :: s' =>
      if Ascii.eqb c NL then ([c], s')
      else let '(l, r) := readSlice s' in (c :: l, r)
  end.

(** A carriage return right before the end of the input is dropped. *)
Definition dropTrailingCR (line : bytes) : bytes :=
  if (lengthNL line =? 0) && bool_decide (last line = Some CR)
  then take (length line - 1) line else line.

(** [\r\n] at the end of a line is normalised to [\n]. *)
Definition normalizeCRLF (line : bytes) : bytes :=
  let n := length line in
  if (2 <=? n) && bool_decide (line !! (n - 2) = Some CR)
     && bool_decide (line !! (n - 1) = Some NL)
  then take (n - 2) line ++ [NL] else line.

(** [readLine]: the next line, the rest of the input, and whether the end
    of the input was hit with nothing read. *)
Definition readLine (s : bytes) : bytes * bytes * bool :=
  let '(line, rest) := readSlice s in
  match line with
  | [] => ([], rest, true)
  | _ => (normalizeCRLF (dropTrailingCR line), rest, false)
  end.

Inductive parsed :=
| Fields (fs : list bytes) (rest : bytes)
| Failed (e : error).

(** The [parseField] loop of [readRecord].  [field = None]: at the start
    of a field.  [field = Some buf]: inside a quoted field whose text so
    far is [buf].  Every turn of the loop consumes input, so a budget above
    the length of what is left is never used up (lemma
    [parseRecord_budget]). *)
Fixpoint parseRecord (budget : nat) (field : option bytes)
    (line rest : bytes) (fs : list bytes) : parsed :=
  match budget with
  | O => Failed OutOfBudget
  | S budget =>
      match field with
      | None =>
          match line with
          | c :: line' =>
              if Ascii.eqb c dquote then
                (* quoted string field *)
                parseRecord budget (Some []) line' rest fs
              else
                (* non-quoted string field *)
                match indexByte comma line with
                | Some i =>
                    let f := take i line in
                    if bool_decide (indexByte dquote f = None)
                    then parseRecord budget None (drop (i + 1) line) rest (fs ++ [f])
                    else Failed ErrBareQuote
                | None =>
                    let f := take (length line - lengthNL line) line in
                    if bool_decide (indexByte dquote f = None)
                    then Fields (fs ++ [f]) rest
                    else Failed ErrBareQuote
                end
          | [] => Fields (fs ++ [[]]) rest
          end
      | Some buf =>
          match indexByte dquote line with
          | Some i =>
              (* hit next quote *)
              let buf := buf ++ take i line in
              let line := drop (i + 1) line in
              match line with
              | c :: line' =>
                  if Ascii.eqb c dquote then
                    parseRecord budget (Some (buf ++ [dquote])) line' rest fs
                  else if Ascii.eqb c comma then
                    parseRecord budget None line' rest (fs ++ [buf])
                  else if lengthNL line =? length line then
                    Fields (fs ++ [buf]) rest
                  else Failed ErrQuote
              | [] => Fields (fs ++ [buf]) rest
              end
          | None =>
              match line with
              | _ :: _ =>
                  (* hit end of line: the field goes on on the next one *)
                  let '(line', rest', _) := readLine rest in
                  parseRecord budget (Some (buf ++ line)) line' rest' fs
              | [] => Failed ErrQuote
              end
          end
      end
  end.

(** Skipping empty lines: the first line that is not just a newline (lemma
    [nextLine_budget]). *)
Fixpoint nextLine (budget : nat) (s : bytes) : bytes * bytes * bool :=
  let '(line, rest, eof) := readLine s in
  match budget with
  | O => (line, rest, eof)
  | S budget =>
      if negb eof && (length line =? lengthNL line)
      then nextLine budget rest
      else (line, rest, eof)
  end.

Inductive result :=
| Record_ (record : list string) (r : Reader)
| EOF
| Error (e : error).

(** [Reader.Read] *)
Definition Read (r : Reader) : result :=
  let '(line, rest, eof) := nextLine (length (input r)) (input r) in
  if eof then EOF
  else
    match parseRecord (2 + length line + length rest) None line rest [] with
    | Failed e => Error e
    | Fields fs rest' =>
        if (0 <? FieldsPerRecord r) && negb (length fs =? FieldsPerRecord r)
        then Error ErrFieldCount
        else Record_ (map string_of_list_ascii fs) (mkReader rest' (length fs))
    end.

End Csv.

(** ** [reminder.String] and [WriteTo]

    [fmt.Sprintf("%s,%s,%s,%q", userID, creation, expiration, message)] with
    both times in the RFC3339Nano layout; [WriteTo] writes one such line per
    reminder, in slice order. *)
Definition reminder_String (r : reminder) : bytes :=
  list_ascii_of_string (userID r) ++ [comma]
    ++ RFC3339Nano.Format (creation r) ++ [comma]
    ++ RFC3339Nano.Format (expiration r) ++ [comma]
    ++ Strconv.Quote (message r).

Definition WriteTo (rs : remindmeState) : bytes :=
  concat (map (fun r => reminder_String r ++ [NL]) (reminders rs)).

(** ** [ReadFrom]

    [clock k] is the clock reading of the [Add] of the [k]-th record.  The
    result is the error returned ([None] for nil); indexing a record that is
    too short panics.  The loop reads one record per turn; its budget, the
    length of the file plus one, is never used up (lemma
    [ReadFrom_budget]). *)
Inductive readError :=
| CsvError (e : Csv.error)
| InvalidRecord (record : list string).

Definition parseTime (s : string) : option Time :=
  RFC3339Nano.Parse (list_ascii_of_string s).

Fixpoint ReadFrom_loop (budget : nat) (clock : nat -> Time) (k : nat)
    (rr : Csv.Reader) (w : World) (tr : list event) : outcome (option readError) :=
  match budget with
  | O => Returns (Some (CsvError Csv.OutOfBudget)) w tr
  | S budget =>
      match Csv.Read rr with
      | Csv.EOF => Returns None w tr
      | Csv.Error e => Returns (Some (CsvError e)) w tr
      | Csv.Record_ record rr' =>
          match record with
          | f0 :: f1 :: rest1 =>
              match parseTime f1 with
              | None => Returns (Some (InvalidRecord record)) w tr
              | Some cr =>
                  match rest1 with
                  | f2 :: rest2 =>
                      match parseTime f2 with
                      | None => Returns (Some (InvalidRecord record)) w tr
                      | Some ex =>
                          match rest2 with
                          | f3 :: _ =>
                              let '(w', tr') := Add (clock k) (mkReminder f0 cr ex f3) w in
                              ReadFrom_loop budget clock (S k) rr' w' (tr ++ tr')
                          | [] => Panics "index out of range [3]" w tr
                          end
                      end
                  | [] => Panics "index out of range [2]" w tr
                  end
              end
          | [_] => Panics "index out of range [1]" w tr
          | [] => Panics "index out of range [0]" w tr
          end
      end
  end.

Definition ReadFrom (clock : nat -> Time) (file : bytes) (w : World)
    : outcome (option readError) :=
  ReadFrom_loop (S (length file)) clock 0 (Csv.NewReader file) w [].

(** ** [constructRMState], from the call of [ReadFrom] on the opened file on:
    when the import fails the store is reset and the failure is logged; the
    function returns nil either way. *)
Definition msgImport : string := "unable to import reminders file: ".

Definition constructRMState (clock : nat -> Time) (file : bytes) (w : World)
    : outcome unit :=
  match ReadFrom clock file w with
  | Returns None w' tr => Returns tt w' tr
  | Returns (Some _) w' tr => Returns tt (resetState w') (tr ++ [Log msgImport])
  | Panics m w' tr => Panics m w' tr
  end.

(** ** [deconstructRMState]: every timer of the store is stopped, then the
    snapshot is written. *)
Definition deconstructRMState (w : World) : World * bytes :=
  let w' := mkWorld (rmState w) (stopAll (heap w) (timers (rmState w))) in
  (w', WriteTo (rmState w')).

(** ** Runs *)

(** A sequence of [Add] calls, each with the clock reading of its call. *)
Definition run_adds (adds : list (Time * reminder)) (w : World) : World :=
  foldl (fun w a => fst (Add (fst a) (snd a) w)) w adds.

(** The reminders an [Add] keeps: those not yet due when it is called. *)
Definition due (now : Time) (r : reminder) : bool :=
  (Until now (expiration r) <=? 1)%Z.

Definition accepted (adds : list (Time * reminder)) : list reminder :=
  map snd (filter (fun a => due (fst a) (snd a) = false) adds).

(** The operations on the store. *)
Inductive op :=
| OpAdd (now : Time) (r : reminder)
| OpRemove (uid : string) (exp : Time)
| OpFire (tp : nat)
| OpExpire (tp : nat)
| OpCallback (r : reminder)
| OpRestore (clock : nat -> Time) (file : bytes)
| OpReset
| OpShutdown.

Definition world_of {A} (o : outcome A) : World :=
  match o with
  | Returns _ w _ => w
  | Panics _ w _ => w
  end.

(** The world an operation leaves behind, however it ends. *)
Definition step (w : World) (o : op) : World :=
  match o with
  | OpAdd now r => fst (Add now r w)
  | OpRemove uid exp => world_of (Remove uid exp w)
  | OpFire tp => from_option world_of w (fire tp w)
  | OpExpire tp => from_option snd w (expire tp w)
  | OpCallback r => world_of (timerCallback r w)
  | OpRestore clock file => world_of (constructRMState clock file w)
  | OpReset => resetState w
  | OpShutdown => fst (deconstructRMState w)
  end.

Definition run (ops : list op) (w : World) : World := foldl step w ops.

(** ** Properties of stores *)

(** The two slices pair up: same length, and the timer at an index is the
    one whose callback was made for the reminder at that index. *)
Definition paired (w : World) : Prop :=
  Forall2 (fun r tp => exists t, heap w !! tp = Some t /\ tm_reminder t = r)
          (reminders (rmState w)) (timers (rmState w)).

Definition user_le (a b : reminder) : Prop :=
  String.leb (userID a) (userID b) = true.

Definition sortedByUser (l : list reminder) : Prop := StronglySorted user_le l.

(** Ascending, and descending, by expiration. *)
Definition ascendingByExpiration (l : list reminder) : Prop :=
  StronglySorted (fun a b => (expiration a <= expiration b)%Z) l.

Definition descendingByExpiration (l : list reminder) : Prop :=
  StronglySorted (fun a b => (expiration b <= expiration a)%Z) l.

(** The sink was invoked for [r]. *)
Definition delivered (r : reminder) (tr : list event) : Prop := In (Send r) tr.

(** [h'] has every timer of [h], made for the same reminder. *)
Definition heap_keeps (h h' : list Timer) : Prop :=
  forall tp t, h !! tp = Some t ->
    exists t', h' !! tp = Some t' /\ tm_reminder t' = tm_reminder t.

(** ** Sample data *)

Definition alice : string := "1001".
Definition bob : string := "1002".

(** 2030-01-01T00:00:00Z *)
Definition t0 : Time := 1893456000000000000%Z.

Definition buyMilk : reminder := mkReminder alice t0 (t0 + 1 * Hour)%Z "buy milk".
Definition callMom : reminder := mkReminder alice t0 (t0 + 2 * Hour)%Z "call mom".
Definition waterPlants : reminder :=
  mkReminder alice t0 (t0 + 3 * Hour)%Z "water the plants".

(** [alice] has two live reminders, added in the order of their expirations. *)
Definition wMilkMom : World := run_adds [(t0, buyMilk); (t0, callMom)] emptyWorld.

(** The timer of the only record has expired; its callback has not called
    [Remove] yet. *)
Definition wFiring : World :=
  from_option snd emptyWorld (expire 0 (run_adds [(t0, buyMilk)] emptyWorld)).

(** [alice] has three live reminders, added in an order that is not the
    order of their expirations. *)
Definition wMomMilkPlants : World :=
  run_adds [(t0, callMom); (t0, buyMilk); (t0, waterPlants)] emptyWorld.

(** [alice] has two live reminders, due in three hours and in one hour, and
    then schedules a third one, due in two hours. *)
Definition wPlantsMilkMom : World :=
  fst (Add t0 callMom (run_adds [(t0, waterPlants); (t0, buyMilk)] emptyWorld)).



(** Messages with a quote, with a backslash, with a comma. *)
Definition sayHi : reminder :=
  mkReminder alice t0 (t0 + 1 * Hour)%Z
    (string_of_list_ascii
       (list_ascii_of_string "say " ++ [dquote] ++ list_ascii_of_string "hi" ++ [dquote])).

Definition backupPath : reminder :=
  mkReminder alice t0 (t0 + 1 * Hour)%Z "copy C:\tmp".

Definition shopping : reminder :=
  mkReminder alice t0 (t0 + 1 * Hour)%Z "buy milk, eggs".

(** A snapshot whose only line was cut short after its second field. *)
Definition truncatedSnapshot : bytes :=
  list_ascii_of_string "1001,2030-01-01T00:00:00Z".

(** A snapshot whose second line has a timestamp that does not parse. *)
Definition badSecondLine : bytes :=
  WriteTo (mkState [buyMilk] [0])
    ++ list_ascii_of_string "1001,2030-01-01T00:00:00Z,tomorrow,x".

(** The store is sorted by userID and, among the reminders of one user, by
    expiration. *)
Definition sortedByUserThenExpiration (l : list reminder) : Prop :=
  StronglySorted
    (fun a b => String.ltb (userID a) (userID b) = true \/
                (userID a = userID b /\ (expiration a <= expiration b)%Z)) l.

(** A message with the context line that [remindmeHandler] appends for
    [--withcontext] (joined to the words of the message with a space): it
    starts with a newline. *)
Definition withContext : reminder :=
  mkReminder alice t0 (t0 + 1 * Hour)%Z
    (string_of_list_ascii
       (list_ascii_of_string "call mom " ++ [NL]
          ++ list_ascii_of_string "Context: https://discordapp.com/channels/1/2/3")).

(** ** Timers over time *)

(** No timer that is not armed in [h] is armed in [h']: timers are never
    armed again. *)
Definition stays_unarmed (h h' : list Timer) : Prop :=
  forall tp t, h !! tp = Some t -> tm_status t <> Armed ->
    exists t', h' !! tp = Some t' /\ tm_status t' <> Armed.

(** Every timer of the runtime that is still armed is held by the store. *)
Definition armed_are_stored (w : World) : Prop :=
  forall tp t, heap w !! tp = Some t -> tm_status t = Armed ->
    tp ∈ timers (rmState w).

(** ** Snapshots read back *)

(** The times [Format] is given for: the years 0000 to 9999. *)
Definition formattable (t : Time) : Prop :=
  (-62167219200 * 1000000000 <= t < 253402300800 * 1000000000)%Z.

(** A decimal digit. *)
Definition decimal (d : Z) : Prop := (0 <= d <= 9)%Z.

(** Dates in calendar order. *)
Definition date_lt (a b : Z * Z * Z) : bool :=
  let '(y, m, d) := a in
  let '(y', m', d') := b in
  ((y <? y') || ((y =? y') && ((m <? m') || ((m =? m') && (d <? d')))))%Z.

(** One day of the 400-year cycle that starts on 0000-03-01: the date of
    the day leads back to the day, is a date of the calendar, lies in the
    years 0000 to 0399 up to the last day of 0399 and in the year 0400 from
    there on, and comes before the date of the next day. *)
Definition civil_ok (doe : Z) : bool :=
  let '(y, m, d) := RFC3339Nano.civil_from_days (doe - 719468) in
  (RFC3339Nano.days_from_civil y m d =? doe - 719468)%Z
  && (1 <=? m)%Z && (m <=? 12)%Z && (1 <=? d)%Z
  && (d <=? RFC3339Nano.daysIn m y)%Z
  && (0 <=? y)%Z
  && (if (doe <? 146037)%Z then (y <=? 399)%Z else (y =? 400)%Z)
  && date_lt (y, m, d) (RFC3339Nano.civil_from_days (doe + 1 - 719468)).

(** [f] holds of the [p] integers from [base] on. *)
Fixpoint all_from (p : positive) (base : Z) (f : Z -> bool) : bool :=
  match p with
  | xH => f base
  | xO p => all_from p base f && all_from p (base + Z.pos p) f
  | xI p => f base && all_from p (base + 1) f && all_from p (base + 1 + Z.pos p) f
  end.

(** A byte that an unquoted csv field of a snapshot line can hold. *)
Definition fieldByte (c : ascii) : Prop := c <> comma /\ c <> dquote /\ c <> NL.

(** The text [strconv.Quote] puts between its two quotes. *)
Definition escaped (s : string) : bytes :=
  concat (map Strconv.appendEscapedRune (list_ascii_of_string s)).

(** A byte that [strconv.Quote] copies as it is, whatever stands around
    it: a printable ASCII character other than the quote and the backslash.
    (Of the bytes from 128 on [strconv.Quote] copies only those of valid,
    printable runes; they are left out here.) *)
Definition literal (c : ascii) : bool :=
  let n := nat_of_ascii c in
  negb (Ascii.eqb c dquote) && negb (Ascii.eqb c backslash)
  && (32 <=? n) && (n <? 127).

(** A reminder whose snapshot line the csv reader takes for one record of
    four fields: no comma, quote or newline in the user id, both times in
    the range of the layout, no quote in the message. *)
Definition writable (r : reminder) : Prop :=
  Forall fieldByte (list_ascii_of_string (userID r)) /\
  formattable (creation r) /\ formattable (expiration r) /\
  dquote ∉ list_ascii_of_string (message r).

(** What the snapshot line of [r] reads back as: the message comes back in
    its escaped form. *)
Definition restored (r : reminder) : reminder :=
  mkReminder (userID r) (creation r) (expiration r)
    (string_of_list_ascii (escaped (message r))).

(** The [Add] calls of a restore, one per record, the [k]-th with the clock
    reading [clock k]. *)
Fixpoint add_all (clock : nat -> Time) (k : nat) (l : list reminder)
    (w : World) (tr : list event) : World * list event :=
  match l with
  | [] => (w, tr)
  | r :: l =>
      let '(w', tr') := Add (clock k) r w in
      add_all clock (S k) l w' (tr ++ tr')
  end.

(** ** The [cancel] branch of [remindmeHandler]

    The expiration given is parsed in the RFC3339Nano layout; when it does
    not parse the usage text is sent and nothing else happens, otherwise
    [Remove] is called for the author and the reaction tells its result. *)
Inductive reply :=
| Usage
| Reaction (ok : bool).

Definition cancelBranch (authorID : string) (arg : bytes) (w : World)
    : outcome reply :=
  match RFC3339Nano.Parse arg with
  | None => Returns Usage w []
  | Some expiration =>
      match Remove authorID expiration w with
      | Returns b w' tr => Returns (Reaction b) w' tr
      | Panics m w' tr => Panics m w' tr
      end
  end.

(** ** Snapshot files *)

(** [time.RFC3339]: ["2006-01-02T15:04:05Z07:00"], for UTC times of the
    years 0000 to 9999: whole seconds, the fraction is dropped. *)
Module RFC3339.
Local Open Scope Z_scope.

Definition Format (t : Time) : bytes :=
  let sec := t / 1000000000 in
  let '(y, m, d) := RFC3339Nano.civil_from_days (sec / 86400) in
  let s := sec mod 86400 in
  RFC3339Nano.digits 4 y ++ ["-"%char] ++ RFC3339Nano.digits 2 m ++ ["-"%char]
    ++ RFC3339Nano.digits 2 d ++ ["T"%char] ++ RFC3339Nano.digits 2 (s / 3600)
    ++ [":"%char] ++ RFC3339Nano.digits 2 (s mod 3600 / 60) ++ [":"%char]
    ++ RFC3339Nano.digits 2 (s mod 60) ++ ["Z"%char].

End RFC3339.

Definition remindersFilePrefix : string := "reminders-".
Definition remindersFileSuffix : string := ".csv".

(** The name of the file [deconstructRMState] creates in the reminders
    directory when the clock reads [now]. *)
Definition snapshotName (now : Time) : string :=
  string_of_list_ascii
    (list_ascii_of_string remindersFilePrefix ++ RFC3339.Format now
       ++ list_ascii_of_string remindersFileSuffix).

(** [sort.Strings]: ascending in the bytewise order of Go strings. *)
Definition sort_Strings (names : list string) : list string :=
  merge_sort String.le names.

(** The file [constructRMState] opens, given the names [Readdirnames]
    returned: the last one after sorting; [None] stands for the error
    returned when there is no file. *)
Definition chooseSnapshot (names : list string) : option string :=
  last (sort_Strings names).

(** Bytewise comparison of byte strings. *)
Definition cmpB (a b : bytes) : comparison :=
  String.compare (string_of_list_ascii a) (string_of_list_ascii b).

(** ** Records whose timer is spent *)

(** The operations that leave the slices of the store in place: all but
    the reset, alone or after a failed import. *)
Definition keeps_store (o : op) : bool :=
  match o with
  | OpRestore _ _ | OpReset => false
  | _ => true
  end.

(** The store holds [r] with timer [tp], and [tp] is no longer armed. *)
Definition holds_spent (w : World) (tp : nat) (r : reminder) : Prop :=
  exists k t,
    reminders (rmState w) !! k = Some r /\ timers (rmState w) !! k = Some tp /\
    heap w !! tp = Some t /\ tm_status t <> Armed.

(** * Proofs *)

(** ** Slices *)

Section SliceFacts.
Context {A : Type} (null : A).

Lemma slice_insert_head (s : list A) x : slice_insert null s 0 x = x :: s.
Proof.
  unfold slice_insert, copy_at.
  cbn [Nat.add]. rewrite !drop_0.
  rewrite length_app. cbn [length].
  replace (length s + 1 - 1) with (length s) by lia.
  rewrite take_app_length.
  rewrite drop_ge by (rewrite length_app; cbn; lia).
  rewrite app_nil_r.
  destruct s; reflexivity.
Qed.

Lemma slice_insert_cons (a : A) (s : list A) i x :
  slice_insert null (a :: s) (S i) x = a :: slice_insert null s i x.
Proof. reflexivity. Qed.

(** The insertion idiom puts [x] at index [i] and shifts the tail; the
    placeholder never shows. *)
Lemma slice_insert_spec (s : list A) i x :
  i <= length s -> slice_insert null s i x = take i s ++ x :: drop i s.
Proof.
  revert i. induction s as [|a s IH]; intros [|i] Hi; cbn in Hi.
  - reflexivity.
  - lia.
  - apply slice_insert_head.
  - rewrite slice_insert_cons, IH by lia. reflexivity.
Qed.

Lemma slice_insert_app (l1 l2 : list A) x :
  slice_insert null (l1 ++ l2) (length l1) x = l1 ++ x :: l2.
Proof.
  rewrite slice_insert_spec by (rewrite length_app; lia).
  by rewrite take_app_length, drop_app_length.
Qed.

Lemma slice_remove_head (a : A) (s : list A) :
  slice_remove null (a :: s) 0 = s.
Proof.
  unfold slice_remove, copy_at.
  change (<[0:=null]> (a :: s)) with (null :: s).
  cbn [Nat.add]. rewrite take_0. cbn [app length].
  rewrite Nat.sub_0_r.
  change (drop 1 (null :: s)) with s.
  rewrite (take_ge s) by lia.
  rewrite length_app, length_drop. cbn [length].
  replace (length s + (S (length s) - length s) - 1) with (length s) by lia.
  by rewrite take_app_length.
Qed.

Lemma copy_at_length (s src : list A) off :
  off <= length s -> length (copy_at s off src) = length s.
Proof.
  intros H. unfold copy_at.
  rewrite !length_app, !length_take, length_drop. lia.
Qed.

Lemma slice_remove_cons (a : A) (s : list A) k :
  k < length s ->
  slice_remove null (a :: s) (S k) = a :: slice_remove null s k.
Proof.
  intros Hk. unfold slice_remove.
  change (<[S k:=null]> (a :: s)) with (a :: <[k:=null]> s).
  set (s1 := <[k:=null]> s).
  assert (length s1 = length s) as Hs1 by apply length_insert.
  change (copy_at (a :: s1) (S k) (drop (S k + 1) (a :: s1)))
    with (a :: copy_at s1 k (drop (k + 1) s1)).
  set (X := copy_at s1 k (drop (k + 1) s1)).
  assert (length X = length s) as HX.
  { subst X. rewrite copy_at_length; lia. }
  destruct X as [|y X]; cbn in HX; [lia|].
  cbn [length Nat.sub take firstn]. by rewrite Nat.sub_0_r.
Qed.

(** The removal idiom deletes the element at index [k]. *)
Lemma slice_remove_spec (s : list A) k :
  k < length s -> slice_remove null s k = delete k s.
Proof.
  revert k. induction s as [|a s IH]; intros k Hk; cbn in Hk; [lia|].
  destruct k as [|k].
  - apply slice_remove_head.
  - rewrite slice_remove_cons by lia. rewrite IH by lia. reflexivity.
Qed.

End SliceFacts.

(** ** [sort.Search] *)

Lemma search_mid i j : i < j -> i <= (i + j) / 2 < j.
Proof.
  intros H. split.
  - apply Nat.div_le_lower_bound; lia.
  - apply Nat.Div0.div_lt_upper_bound; lia.
Qed.

(** The answer lies between the bounds, whatever the predicate. *)
Lemma search_loop_bounds b f i j :
  i <= j -> i <= search_loop b f i j <= j.
Proof.
  revert i j. induction b as [|b IH]; intros i j Hij; cbn [search_loop]; [lia|].
  destruct (Nat.ltb_spec i j) as [Hlt|]; [|lia].
  pose proof (search_mid i j Hlt) as Hh.
  destruct (f _); cbn [negb].
  - specialize (IH i ((i + j) / 2)). lia.
  - specialize (IH ((i + j) / 2 + 1) j). lia.
Qed.

Lemma sort_Search_le n f : sort_Search n f <= n.
Proof. unfold sort_Search. pose proof (search_loop_bounds n f 0 n). lia. Qed.

(** On a predicate that is false below [p] and true from [p] on, the loop
    ends at [p] within its budget. *)
Lemma search_loop_partition b f i j p :
  j - i <= b -> i <= p <= j ->
  (forall x, i <= x < p -> f x = false) ->
  (forall x, p <= x < j -> f x = true) ->
  search_loop b f i j = p.
Proof.
  revert i j. induction b as [|b IH]; intros i j Hb Hp Hlo Hhi; cbn [search_loop]; [lia|].
  destruct (Nat.ltb_spec i j) as [Hlt|]; [|lia].
  pose proof (search_mid i j Hlt) as Hh.
  destruct (f _) eqn:Hf; cbn [negb].
  - apply IH; [lia| |intros; apply Hlo; lia|intros; apply Hhi; lia].
    split; [lia|].
    destruct (Nat.le_gt_cases p ((i + j) / 2)); [done|].
    rewrite Hlo in Hf by lia. done.
  - apply IH; [lia| |intros; apply Hlo; lia|intros; apply Hhi; lia].
    split; [|lia].
    destruct (Nat.le_gt_cases ((i + j) / 2 + 1) p); [done|].
    rewrite Hhi in Hf by lia. done.
Qed.

Lemma sort_Search_partition n f p :
  p <= n ->
  (forall x, x < p -> f x = false) ->
  (forall x, p <= x < n -> f x = true) ->
  sort_Search n f = p.
Proof.
  intros. apply search_loop_partition; [lia|lia| |done].
  intros; apply H0; lia.
Qed.

(** More budget than [j - i] changes nothing: the loop never stops for lack
    of budget. *)
Lemma search_loop_budget b b' f i j :
  j - i <= b -> j - i <= b' -> search_loop b f i j = search_loop b' f i j.
Proof.
  revert b' i j. induction b as [|b IH]; intros [|b'] i j Hb Hb'; cbn [search_loop];
    destruct (Nat.ltb_spec i j) as [Hlt|]; try done; try lia.
  pose proof (search_mid i j Hlt) as Hh.
  destruct (f _); cbn [negb]; apply IH; lia.
Qed.

(** A predicate that holds more often ends no further right. *)
Lemma search_loop_mono b f g i j :
  (forall x, g x = true -> f x = true) -> i <= j ->
  search_loop b f i j <= search_loop b g i j.
Proof.
  intros Hfg. revert i j. induction b as [|b IH]; intros i j Hij; cbn [search_loop]; [lia|].
  destruct (Nat.ltb_spec i j) as [Hlt|]; [|lia].
  pose proof (search_mid i j Hlt) as Hh.
  destruct (g _) eqn:Hg; cbn [negb].
  - rewrite (Hfg _ Hg). cbn [negb]. apply IH. lia.
  - destruct (f _); cbn [negb].
    + pose proof (search_loop_bounds b f i ((i + j) / 2)).
      pose proof (search_loop_bounds b g ((i + j) / 2 + 1) j). lia.
    + apply IH. lia.
Qed.

(** ** [Add] on a reminder that is already due *)

(** Saturation does not change on which side of one nanosecond a delay
    falls. *)
Lemma due_iff now r : due now r = true <-> (expiration r <= now + 1)%Z.
Proof.
  unfold due, Until, Sub, minDuration, maxDuration.
  repeat case_match; rewrite ?Z.leb_le, ?Z.ltb_lt, ?Z.ltb_ge in *; lia.
Qed.

Lemma Add_due now r w : due now r = true -> Add now r w = (w, [Send r]).
Proof. unfold Add, due. intros ->. reflexivity. Qed.

Lemma Add_not_due now r w :
  due now r = false ->
  Add now r w =
    (mkWorld
       (mkState
          (slice_insert nilReminder (reminders (rmState w))
             (snd (userRange (userID r) (reminders (rmState w)))) r)
          (slice_insert nilTimer (timers (rmState w))
             (snd (userRange (userID r) (reminders (rmState w)))) (length (heap w))))
       (heap w ++ [mkTimer (now + Until now (expiration r))%Z r Armed]), []).
Proof. unfold Add, due. intros ->. reflexivity. Qed.

(** C8. A reminder whose expiration is in the past, or at most one
    nanosecond ahead, when [Add] is called is handed to the sink inside the
    call: the trace of the call is that one delivery, and no timer is
    armed (the timer table of the runtime is as before). *)
Theorem C8_due_reminder_is_sent_inline now r w :
  (expiration r <= now + 1)%Z ->
  snd (Add now r w) = [Send r] /\ heap (fst (Add now r w)) = heap w.
Proof.
  intros H. apply due_iff in H. rewrite (Add_due _ _ _ H). done.
Qed.

(** C9. An [Add] of a reminder that is due within one nanosecond leaves both
    slices as they were: the reminder is delivered and never stored, so a
    later listing, cancellation or snapshot does not see it. *)
Theorem C9_due_add_leaves_the_store now r w :
  (Until now (expiration r) <= 1)%Z ->
  let w' := fst (Add now r w) in
  reminders (rmState w') = reminders (rmState w) /\
  timers (rmState w') = timers (rmState w) /\
  delivered r (snd (Add now r w)) /\
  (forall uid, ListFor uid (rmState w') = ListFor uid (rmState w)) /\
  (forall uid exp, Remove uid exp w' = Remove uid exp w) /\
  WriteTo (rmState w') = WriteTo (rmState w).
Proof.
  intros H. apply Z.leb_le in H. fold (due now r) in H.
  rewrite (Add_due _ _ _ H). cbn. unfold delivered. cbn. tauto.
Qed.

(** ** [Remove] when nothing is removed *)

Lemma Stop_false t : fst (Stop t) = false -> snd (Stop t) = t.
Proof. unfold Stop. by destruct (tm_status t). Qed.

Lemma Stop_true t : fst (Stop t) = true <-> tm_status t = Armed.
Proof. unfold Stop. by destruct (tm_status t). Qed.

(** C10. A [Remove] that returns false (no range for the user, no match on
    the expiration, or a timer that is already firing) changes nothing: both
    slices, and the timers themselves, are as before the call. *)
Theorem C10_failed_remove_changes_nothing uid exp w w' tr :
  Remove uid exp w = Returns false w' tr ->
  w' = w /\
  reminders (rmState w') = reminders (rmState w) /\
  timers (rmState w') = timers (rmState w) /\
  (tr = [Log msgNotFound] \/ tr = [Log msgTriggering]).
Proof.
  unfold Remove. intros H.
  destruct (findExact _ _ _); [| done |].
  - inversion H; subst. auto.
  - destruct (timers _ !! _); [|done].
    destruct (heap _ !! _) as [t|]; [|done].
    destruct (Stop t) as [[] t']; cbn in H; [done|].
    inversion H; subst. auto.
Qed.

(** The half of C6 that is about [Remove] itself. When the lookup of
    [Remove] finds the record but [Stop] on its timer reports false (the
    timer has fired, or is no longer armed), [Remove] returns false and
    removes nothing: the world is the one before the call. What the firing
    callback then does is C6, on the code, below. *)
Theorem C6_remove_of_firing_timer_keeps_record uid exp w k tp t :
  findExact uid exp (reminders (rmState w)) = FoundAt k ->
  timers (rmState w) !! k = Some tp ->
  heap w !! tp = Some t ->
  fst (Stop t) = false ->
  Remove uid exp w = Returns false w [Log msgTriggering].
Proof.
  intros Hk Htp Ht Hs. unfold Remove. rewrite Hk, Htp, Ht.
  destruct (Stop t) as [s t']. cbn in Hs. subst s. reflexivity.
Qed.

(** Two hours after [t0] the reminder due at [t0] plus one hour is past. *)
Lemma C8_due_reminder_is_sent_inline_witness :
  (expiration buyMilk <= (t0 + 2 * Hour) + 1)%Z /\
  snd (Add (t0 + 2 * Hour)%Z buyMilk emptyWorld) = [Send buyMilk] /\
  heap (fst (Add (t0 + 2 * Hour)%Z buyMilk emptyWorld)) = heap emptyWorld.
Proof.
  split.
  - vm_compute. discriminate.
  - apply (C8_due_reminder_is_sent_inline (t0 + 2 * Hour)%Z buyMilk emptyWorld).
    vm_compute. discriminate.
Defined.

(** Adding, at its expiration, a reminder to a store of two. *)
Lemma C9_due_add_leaves_the_store_witness :
  (Until (t0 + 1 * Hour)%Z (expiration buyMilk) <= 1)%Z /\
  (let w' := fst (Add (t0 + 1 * Hour)%Z buyMilk wMilkMom) in
   reminders (rmState w') = reminders (rmState wMilkMom) /\
   timers (rmState w') = timers (rmState wMilkMom) /\
   delivered buyMilk (snd (Add (t0 + 1 * Hour)%Z buyMilk wMilkMom)) /\
   (forall uid, ListFor uid (rmState w') = ListFor uid (rmState wMilkMom)) /\
   (forall uid exp, Remove uid exp w' = Remove uid exp wMilkMom) /\
   WriteTo (rmState w') = WriteTo (rmState wMilkMom)).
Proof.
  assert (Until (t0 + 1 * Hour)%Z (expiration buyMilk) <= 1)%Z as H
    by (vm_compute; discriminate).
  split; [exact H|].
  exact (C9_due_add_leaves_the_store (t0 + 1 * Hour)%Z buyMilk wMilkMom H).
Defined.

(** [bob] has no reminder in the store of [alice]. *)
Lemma C10_failed_remove_changes_nothing_witness :
  Remove bob (t0 + 1 * Hour)%Z wMilkMom = Returns false wMilkMom [Log msgNotFound] /\
  (wMilkMom = wMilkMom /\
   reminders (rmState wMilkMom) = reminders (rmState wMilkMom) /\
   timers (rmState wMilkMom) = timers (rmState wMilkMom) /\
   ([Log msgNotFound] = [Log msgNotFound] \/ [Log msgNotFound] = [Log msgTriggering])).
Proof.
  assert (Remove bob (t0 + 1 * Hour)%Z wMilkMom
          = Returns false wMilkMom [Log msgNotFound]) as H
    by (vm_compute; reflexivity).
  split; [exact H|].
  exact (C10_failed_remove_changes_nothing bob (t0 + 1 * Hour)%Z
           wMilkMom wMilkMom [Log msgNotFound] H).
Defined.

(** Cancelling between the expiry of the timer and the [Remove] of its
    callback. *)
Lemma C6_remove_of_firing_timer_keeps_record_witness :
  findExact alice (t0 + 1 * Hour)%Z (reminders (rmState wFiring)) = FoundAt 0 /\
  timers (rmState wFiring) !! 0 = Some 0 /\
  heap wFiring !! 0 = Some (mkTimer (t0 + 1 * Hour)%Z buyMilk Fired) /\
  fst (Stop (mkTimer (t0 + 1 * Hour)%Z buyMilk Fired)) = false /\
  Remove alice (t0 + 1 * Hour)%Z wFiring = Returns false wFiring [Log msgTriggering].
Proof.
  assert (findExact alice (t0 + 1 * Hour)%Z (reminders (rmState wFiring)) = FoundAt 0)
    as H1 by (vm_compute; reflexivity).
  assert (timers (rmState wFiring) !! 0 = Some 0) as H2 by reflexivity.
  assert (heap wFiring !! 0 = Some (mkTimer (t0 + 1 * Hour)%Z buyMilk Fired))
    as H3 by reflexivity.
  assert (fst (Stop (mkTimer (t0 + 1 * Hour)%Z buyMilk Fired)) = false)
    as H4 by reflexivity.
  repeat (split; [assumption|]).
  exact (C6_remove_of_firing_timer_keeps_record alice (t0 + 1 * Hour)%Z wFiring 0 0
           (mkTimer (t0 + 1 * Hour)%Z buyMilk Fired) H1 H2 H3 H4).
Defined.

(** ** The lookup of [Remove] *)

Lemma userRange_le uid l :
  fst (userRange uid l) <= snd (userRange uid l) <= length l.
Proof.
  unfold userRange, sort_Search. cbn [fst snd]. split.
  - apply search_loop_mono; [|lia].
    intros x. unfold str_gt, str_ge, String.ltb, String.leb.
    rewrite String.compare_antisym.
    destruct (String.compare (userID (reminderAt l x)) uid); cbn; congruence.
  - apply search_loop_bounds. lia.
Qed.

Lemma slice_length {A} (l : list A) i j :
  i <= j <= length l -> length (slice l i j) = j - i.
Proof. intros H. unfold slice. rewrite length_take, length_drop. lia. Qed.

Lemma reminderAt_slice l i j k :
  k < j - i -> j <= length l ->
  reminderAt (slice l i j) k = reminderAt l (k + i).
Proof.
  intros Hk Hj. unfold reminderAt, slice.
  rewrite !nth_lookup, lookup_take_lt, lookup_drop by lia.
  by rewrite Nat.add_comm.
Qed.

(** The two searches on [userID] never cross: the slice expression of
    [Remove] and of the [list] branch cannot panic. *)
Lemma findExact_not_BadSlice uid exp l : findExact uid exp l <> BadSlice.
Proof.
  unfold findExact. pose proof (userRange_le uid l) as H.
  destruct (userRange uid l) as [i j]. cbn [fst snd] in H.
  destruct (Nat.eqb_spec j i); [done|].
  destruct (Nat.ltb_spec j i); [lia|].
  repeat case_match; done.
Qed.

(** What is found lies in the user's range and has the expiration asked
    for. *)
Lemma findExact_FoundAt uid exp l k :
  findExact uid exp l = FoundAt k ->
  fst (userRange uid l) <= k < snd (userRange uid l) /\
  k < length l /\
  expiration (reminderAt l k) = exp.
Proof.
  unfold findExact. pose proof (userRange_le uid l) as H.
  destruct (userRange uid l) as [i j]. cbn [fst snd] in *.
  destruct (Nat.eqb_spec j i); [done|].
  destruct (Nat.ltb_spec j i); [lia|].
  pose proof (sort_Search_le (length (slice l i j))
    (fun x => Before (expiration (reminderAt (slice l i j) x)) exp)) as Hk.
  rewrite slice_length in Hk |- * by lia.
  destruct (sort_Search _ _) as [|k']; [done|].
  destruct (Equal _ _) eqn:He; cbn [negb]; [|done].
  intros [= <-].
  rewrite reminderAt_slice in He by lia.
  unfold Equal in He. apply Z.eqb_eq in He. lia.
Qed.

(** ** The pairing of the two slices *)

Lemma heap_keeps_refl h : heap_keeps h h.
Proof. intros tp t H. eauto. Qed.

Lemma heap_keeps_trans h1 h2 h3 :
  heap_keeps h1 h2 -> heap_keeps h2 h3 -> heap_keeps h1 h3.
Proof.
  intros H12 H23 tp t H.
  destruct (H12 _ _ H) as (t2 & H2 & E2).
  destruct (H23 _ _ H2) as (t3 & H3 & E3).
  exists t3. split; [done|congruence].
Qed.

Lemma heap_keeps_app h l : heap_keeps h (h ++ l).
Proof.
  intros tp t H. exists t. split; [|done].
  by apply lookup_app_l_Some.
Qed.

Lemma heap_keeps_insert h tp t t' :
  h !! tp = Some t -> tm_reminder t' = tm_reminder t ->
  heap_keeps h (<[tp := t']> h).
Proof.
  intros Ht Hr tp0 t0 H0.
  destruct (decide (tp0 = tp)) as [->|Hne].
  - exists t'. rewrite list_lookup_insert_eq by (by eapply lookup_lt_Some).
    split; [done|congruence].
  - exists t0. by rewrite list_lookup_insert_ne.
Qed.

Lemma Stop_reminder t : tm_reminder (snd (Stop t)) = tm_reminder t.
Proof. unfold Stop. by destruct (tm_status t). Qed.

Lemma stopTimer_keeps h tp : heap_keeps h (stopTimer h tp).
Proof.
  unfold stopTimer. destruct (h !! tp) as [t|] eqn:Ht.
  - eapply heap_keeps_insert; [done|apply Stop_reminder].
  - apply heap_keeps_refl.
Qed.

Lemma stopAll_keeps h tps : heap_keeps h (stopAll h tps).
Proof.
  unfold stopAll. revert h. induction tps as [|tp tps IH]; intros h; cbn.
  - apply heap_keeps_refl.
  - eapply heap_keeps_trans; [apply stopTimer_keeps|apply IH].
Qed.

Lemma paired_keeps rs h h' :
  paired (mkWorld rs h) -> heap_keeps h h' -> paired (mkWorld rs h').
Proof.
  unfold paired. cbn. intros H Hk.
  eapply Forall2_impl; [exact H|].
  intros r tp (t & Ht & <-). destruct (Hk _ _ Ht) as (t' & Ht' & E). eauto.
Qed.

Lemma paired_length w :
  paired w -> length (reminders (rmState w)) = length (timers (rmState w)).
Proof. apply Forall2_length. Qed.

Lemma paired_empty : paired emptyWorld.
Proof. constructor. Qed.

Lemma paired_Add now r w : paired w -> paired (fst (Add now r w)).
Proof.
  intros Hp. destruct (due now r) eqn:Hd.
  - by rewrite Add_due.
  - rewrite Add_not_due by done. cbn [fst].
    pose proof (userRange_le (userID r) (reminders (rmState w))) as Hi.
    pose proof (paired_length _ Hp) as Hl.
    set (i := snd (userRange _ _)) in *.
    unfold paired. cbn [rmState reminders timers heap].
    rewrite !slice_insert_spec by lia.
    destruct w as [[rems tms] h]. cbn [rmState reminders timers heap] in *.
    apply (paired_keeps _ _ (h ++ [mkTimer (now + Until now (expiration r))%Z r Armed]))
      in Hp; [|apply heap_keeps_app].
    unfold paired in Hp. cbn [rmState reminders timers heap] in Hp.
    apply Forall2_app; [by apply Forall2_take|].
    constructor; [|by apply Forall2_drop].
    eexists. split; [apply list_lookup_middle; reflexivity|reflexivity].
Qed.

(** On a paired store [Remove] never panics. *)
Lemma Remove_returns uid exp w :
  paired w -> exists b w' tr, Remove uid exp w = Returns b w' tr.
Proof.
  intros Hp. unfold Remove.
  destruct (findExact _ _ _) as [| |k] eqn:Hf.
  - eauto.
  - by apply findExact_not_BadSlice in Hf.
  - apply findExact_FoundAt in Hf as (_ & Hk & _).
    rewrite (paired_length _ Hp) in Hk.
    destruct (lookup_lt_is_Some_2 _ _ Hk) as [tp Htp]. rewrite Htp.
    destruct (Forall2_lookup_r _ _ _ _ _ Hp Htp) as (r & _ & t & Ht & _).
    rewrite Ht. destruct (Stop t) as [[] t']; cbn [negb]; eauto.
Qed.

Lemma paired_Remove uid exp w :
  paired w -> paired (world_of (Remove uid exp w)).
Proof.
  intros Hp. unfold Remove.
  destruct (findExact _ _ _) as [| |k] eqn:Hf; [done|done|].
  apply findExact_FoundAt in Hf as (_ & Hk & _).
  destruct (timers _ !! k) as [tp|] eqn:Htp; [|done].
  destruct (heap w !! tp) as [t|] eqn:Ht; [|done].
  pose proof (Stop_reminder t) as Hr.
  destruct (Stop t) as [[] t']; cbn [negb snd] in *; [|done].
  cbn [world_of].
  apply paired_keeps with (h := heap w); [|by eapply heap_keeps_insert].
  unfold paired in *. cbn [rmState reminders timers heap].
  rewrite !slice_remove_spec by (rewrite <- ?(paired_length _ Hp); done).
  by apply Forall2_delete.
Qed.

Lemma paired_timerCallback r w :
  paired w -> paired (world_of (timerCallback r w)).
Proof.
  intros Hp. unfold timerCallback.
  pose proof (paired_Remove (userID r) (expiration r) w Hp) as H.
  by destruct (Remove _ _ _).
Qed.

Lemma paired_expire tp w :
  paired w -> paired (from_option snd w (expire tp w)).
Proof.
  intros Hp. unfold expire.
  destruct (heap w !! tp) as [t|] eqn:Ht; [|done].
  destruct (tm_status t); [|done|done].
  cbn [from_option snd].
  destruct w as [rs h]. cbn [rmState heap] in *.
  eapply paired_keeps; [exact Hp|].
  by eapply heap_keeps_insert.
Qed.

Lemma paired_fire tp w :
  paired w -> paired (from_option world_of w (fire tp w)).
Proof.
  intros Hp. unfold fire.
  pose proof (paired_expire tp w Hp) as He.
  destruct (expire tp w) as [[r w']|]; [|done].
  cbn [from_option snd] in *. by apply paired_timerCallback.
Qed.

Lemma paired_resetState w : paired (resetState w).
Proof. unfold resetState, paired. cbn. rewrite !take_0. constructor. Qed.

Lemma paired_deconstructRMState w :
  paired w -> paired (fst (deconstructRMState w)).
Proof.
  intros Hp. unfold deconstructRMState. cbn [fst].
  destruct w as [rs h]. cbn [rmState heap] in *.
  eapply paired_keeps; [exact Hp|apply stopAll_keeps].
Qed.

Lemma paired_ReadFrom_loop b clock k rr w tr :
  paired w -> paired (world_of (ReadFrom_loop b clock k rr w tr)).
Proof.
  revert k rr w tr. induction b as [|b IH]; intros k rr w tr Hp; cbn [ReadFrom_loop].
  - done.
  - destruct (Csv.Read rr) as [record rr'| |e]; [|done|done].
    destruct record as [|f0 [|f1 rest1]]; [done|done|].
    destruct (parseTime f1); [|done].
    destruct rest1 as [|f2 rest2]; [done|].
    destruct (parseTime f2) as [ex|]; [|done].
    destruct rest2 as [|f3 rest3]; [done|].
    pose proof (paired_Add (clock k) (mkReminder f0 t ex f3) w Hp) as Hp'.
    destruct (Add _ _ _) as [w' tr']. by apply IH.
Qed.

Lemma paired_constructRMState clock file w :
  paired w -> paired (world_of (constructRMState clock file w)).
Proof.
  intros Hp. unfold constructRMState, ReadFrom.
  pose proof (paired_ReadFrom_loop (S (length file)) clock 0
                (Csv.NewReader file) w [] Hp) as H.
  destruct (ReadFrom_loop _ _ _ _ _ _) as [[e|] w' tr|]; cbn in *; try done.
  apply paired_resetState.
Qed.

Lemma paired_step w o : paired w -> paired (step w o).
Proof.
  intros Hp. destruct o; cbn [step].
  - by apply paired_Add.
  - by apply paired_Remove.
  - by apply paired_fire.
  - by apply paired_expire.
  - by apply paired_timerCallback.
  - by apply paired_constructRMState.
  - apply paired_resetState.
  - by apply paired_deconstructRMState.
Qed.

(** C7. After any sequence of operations ([Add], [Remove], a timer that
    expires, its callback, the restore with its reset, the reset alone,
    shutdown), however each of them ends, the two slices have the same length
    and pair up index by index: the timer at an index is the one made for the
    reminder at that index. *)
Theorem C7_slices_stay_paired (ops : list op) :
  let w := run ops emptyWorld in
  length (reminders (rmState w)) = length (timers (rmState w)) /\
  paired w /\
  forall k r, reminders (rmState w) !! k = Some r ->
    exists tp t, timers (rmState w) !! k = Some tp /\
                 heap w !! tp = Some t /\ tm_reminder t = r.
Proof.
  cbn zeta.
  assert (paired (run ops emptyWorld)) as Hp.
  { unfold run. generalize paired_empty. generalize emptyWorld.
    induction ops as [|o ops IH]; intros w Hw; cbn [foldl]; [done|].
    apply IH. by apply paired_step. }
  split; [by apply paired_length|]. split; [done|].
  intros k r Hk.
  destruct (Forall2_lookup_l _ _ _ _ _ Hp Hk) as (tp & Htp & t & Ht & E).
  eauto.
Qed.

(** ** The order of the store *)

Lemma compare_refl s : String.compare s s = Eq.
Proof.
  induction s as [|a s IH]; cbn; [done|].
  unfold Ascii.compare. by rewrite N.compare_refl.
Qed.

Lemma leb_trans a b c :
  String.leb a b = true -> String.leb b c = true -> String.leb a c = true.
Proof.
  intros H1 H2. apply Is_true_true.
  apply (transitivity (R := String.le) (y := b)); by apply Is_true_true.
Qed.

Lemma str_gt_cmp a b : str_gt a b = true <-> String.compare a b = Gt.
Proof.
  unfold str_gt, String.ltb. rewrite (String.compare_antisym a b).
  destruct (String.compare b a); cbn; split; congruence.
Qed.

Lemma str_ge_cmp a b : str_ge a b = true <-> String.compare a b <> Lt.
Proof.
  unfold str_ge, String.leb. rewrite (String.compare_antisym a b).
  destruct (String.compare b a); cbn; split; congruence.
Qed.

Lemma leb_cmp a b : String.leb a b = true <-> String.compare a b <> Gt.
Proof. unfold String.leb. destruct (String.compare a b); split; congruence. Qed.

Lemma cmp_not_Lt_up x y u :
  String.leb x y = true -> String.compare x u <> Lt -> String.compare y u <> Lt.
Proof.
  intros Hxy Hx. apply str_ge_cmp. apply str_ge_cmp in Hx.
  unfold str_ge in *. by eapply leb_trans.
Qed.

Lemma cmp_Gt_up x y u :
  String.leb x y = true -> String.compare x u = Gt -> String.compare y u = Gt.
Proof.
  intros Hxy Hx.
  assert (String.compare y u <> Lt) as Hy.
  { eapply cmp_not_Lt_up; [exact Hxy|congruence]. }
  destruct (String.compare y u) eqn:E; [|done|done].
  apply String.compare_eq_iff in E. subst y.
  apply leb_cmp in Hxy. done.
Qed.

Lemma filter_none {A} (P : A -> Prop) `{!forall x, Decision (P x)} (l : list A) :
  Forall (fun x => ~ P x) l -> filter P l = [].
Proof.
  induction 1 as [|x l Hx _ IH]; [done|].
  by rewrite filter_cons_False.
Qed.

Lemma filter_all {A} (P : A -> Prop) `{!forall x, Decision (P x)} (l : list A) :
  Forall P l -> filter P l = l.
Proof.
  induction 1 as [|x l Hx _ IH]; [done|].
  rewrite filter_cons_True by done. by rewrite IH.
Qed.

Lemma Forall_of_filter {A} (P : A -> Prop) `{!forall x, Decision (P x)} (l : list A) :
  Forall P (filter P l).
Proof.
  induction l as [|x l IH]; [constructor|].
  rewrite filter_cons. case_decide; [constructor|]; done.
Qed.

(** A store sorted by user is its reminders below [u], then those of [u],
    then those above [u]. *)
Lemma sorted_three_way u l :
  sortedByUser l ->
  l = filter (fun r => String.compare (userID r) u = Lt) l
      ++ filter (fun r => String.compare (userID r) u = Eq) l
      ++ filter (fun r => String.compare (userID r) u = Gt) l.
Proof.
  induction 1 as [|x l Hs IH Hx]; [done|].
  destruct (String.compare (userID x) u) eqn:E.
  - rewrite (filter_cons_False _ x) by congruence.
    rewrite (filter_cons_True _ x) by done.
    rewrite (filter_cons_False _ x) by congruence.
    rewrite (filter_none (fun r => String.compare (userID r) u = Lt) l) in IH |- *.
    + cbn [app] in *. by rewrite <- IH.
    + eapply Forall_impl; [exact Hx|]. intros y Hy.
      eapply cmp_not_Lt_up; [exact Hy|congruence].
    + eapply Forall_impl; [exact Hx|]. intros y Hy.
      eapply cmp_not_Lt_up; [exact Hy|congruence].
  - rewrite (filter_cons_True _ x) by done.
    rewrite !(filter_cons_False _ x) by congruence.
    cbn [app]. by rewrite <- IH.
  - assert (Forall (fun r => String.compare (userID r) u = Gt) l) as Hg.
    { eapply Forall_impl; [exact Hx|]. intros y Hy. by eapply cmp_Gt_up. }
    rewrite !(filter_cons_False _ x) by congruence.
    rewrite (filter_cons_True _ x) by done.
    rewrite (filter_none (fun r => String.compare (userID r) u = Lt) l).
    2:{ eapply Forall_impl; [exact Hg|]. cbn. congruence. }
    rewrite (filter_none (fun r => String.compare (userID r) u = Eq) l).
    2:{ eapply Forall_impl; [exact Hg|]. cbn. congruence. }
    by rewrite (filter_all (fun r => String.compare (userID r) u = Gt) l).
Qed.

(** [sort.Search] over a slice on which the predicate is false on a prefix
    and true on the rest returns the length of the prefix. *)
Lemma search_on_app (f : reminder -> bool) l1 l2 :
  Forall (fun r => f r = false) l1 ->
  Forall (fun r => f r = true) l2 ->
  sort_Search (length (l1 ++ l2)) (fun i => f (reminderAt (l1 ++ l2) i))
  = length l1.
Proof.
  intros H1 H2. apply sort_Search_partition.
  - rewrite length_app. lia.
  - intros x Hx. unfold reminderAt. rewrite nth_lookup, lookup_app_l by done.
    destruct (lookup_lt_is_Some_2 l1 x Hx) as [r Hr]. rewrite Hr. cbn.
    by eapply (Forall_lookup_1 _ _ _ _ H1).
  - intros x [Hx Hx']. rewrite length_app in Hx'.
    unfold reminderAt. rewrite nth_lookup, lookup_app_r by done.
    destruct (lookup_lt_is_Some_2 l2 (x - length l1) ltac:(lia)) as [r Hr].
    rewrite Hr. cbn. by eapply (Forall_lookup_1 _ _ _ _ H2).
Qed.

Lemma userRange_sorted u l :
  sortedByUser l ->
  userRange u l =
    (length (filter (fun r => String.compare (userID r) u = Lt) l),
     length (filter (fun r => String.compare (userID r) u = Lt) l)
     + length (filter (fun r => String.compare (userID r) u = Eq) l)).
Proof.
  intros Hs. pose proof (sorted_three_way u l Hs) as E.
  set (a := filter (fun r => String.compare (userID r) u = Lt) l) in *.
  set (b := filter (fun r => String.compare (userID r) u = Eq) l) in *.
  set (c := filter (fun r => String.compare (userID r) u = Gt) l) in *.
  assert (Forall (fun r => String.compare (userID r) u = Lt) a) as Ha
    by apply Forall_of_filter.
  assert (Forall (fun r => String.compare (userID r) u = Eq) b) as Hb
    by apply Forall_of_filter.
  assert (Forall (fun r => String.compare (userID r) u = Gt) c) as Hc
    by apply Forall_of_filter.
  clearbody a b c. unfold userRange. f_equal.
  - rewrite E.
    apply (search_on_app (fun r => str_ge (userID r) u) a (b ++ c)).
    + eapply Forall_impl; [exact Ha|]. cbn. intros r Hr.
      apply not_true_is_false. rewrite str_ge_cmp. congruence.
    + apply Forall_app. split.
      * eapply Forall_impl; [exact Hb|]. cbn. intros r Hr.
        apply str_ge_cmp. congruence.
      * eapply Forall_impl; [exact Hc|]. cbn. intros r Hr.
        apply str_ge_cmp. congruence.
  - rewrite E, (app_assoc a b c), <- length_app.
    apply (search_on_app (fun r => str_gt (userID r) u) (a ++ b) c).
    + apply Forall_app. split.
      * eapply Forall_impl; [exact Ha|]. cbn. intros r Hr.
        apply not_true_is_false. rewrite str_gt_cmp. congruence.
      * eapply Forall_impl; [exact Hb|]. cbn. intros r Hr.
        apply not_true_is_false. rewrite str_gt_cmp. congruence.
    + eapply Forall_impl; [exact Hc|]. cbn. intros r Hr. by apply str_gt_cmp.
Qed.

Lemma filter_user_cmp u (l : list reminder) :
  filter (fun r => userID r = u) l
  = filter (fun r => String.compare (userID r) u = Eq) l.
Proof.
  apply list_filter_iff. intros r. split.
  - intros ->. apply compare_refl.
  - apply String.compare_eq_iff.
Qed.

(** On a store sorted by user, the range listed for a user holds exactly the
    reminders of that user, in store order. *)
Lemma ListFor_sorted u rs :
  sortedByUser (reminders rs) ->
  ListFor u rs = Some (filter (fun r => userID r = u) (reminders rs)).
Proof.
  intros Hs. unfold ListFor. rewrite (userRange_sorted u _ Hs).
  rewrite filter_user_cmp.
  pose proof (sorted_three_way u _ Hs) as E.
  set (a := filter (fun r => String.compare (userID r) u = Lt) _) in *.
  set (b := filter (fun r => String.compare (userID r) u = Eq) _) in *.
  set (c := filter (fun r => String.compare (userID r) u = Gt) _) in *.
  clearbody a b c.
  destruct (Nat.eqb_spec (length a + length b) (length a)) as [H0|H0].
  - destruct b; [done|]. cbn in H0. lia.
  - destruct (Nat.ltb_spec (length a + length b) (length a)); [lia|].
    f_equal. unfold slice. rewrite E, drop_app_length.
    replace (length a + length b - length a) with (length b) by lia.
    apply take_app_length.
Qed.

(** Where [Add] puts a reminder that is not yet due: after the reminders of
    users up to its own, before those of later users. *)
Lemma Add_reminders_sorted now r w :
  sortedByUser (reminders (rmState w)) -> due now r = false ->
  reminders (rmState (fst (Add now r w)))
  = (filter (fun x => String.compare (userID x) (userID r) = Lt) (reminders (rmState w))
     ++ filter (fun x => String.compare (userID x) (userID r) = Eq) (reminders (rmState w)))
    ++ r :: filter (fun x => String.compare (userID x) (userID r) = Gt) (reminders (rmState w)).
Proof.
  intros Hs Hd. rewrite Add_not_due by done. cbn [fst rmState reminders].
  rewrite (userRange_sorted _ _ Hs). cbn [snd].
  pose proof (sorted_three_way (userID r) _ Hs) as E.
  set (a := filter (fun x => String.compare (userID x) (userID r) = Lt) _) in *.
  set (b := filter (fun x => String.compare (userID x) (userID r) = Eq) _) in *.
  set (c := filter (fun x => String.compare (userID x) (userID r) = Gt) _) in *.
  rewrite <- length_app.
  rewrite E at 1. rewrite (app_assoc a b c).
  apply slice_insert_app.
Qed.

Lemma Add_keeps_sorted now r w :
  sortedByUser (reminders (rmState w)) ->
  sortedByUser (reminders (rmState (fst (Add now r w)))) /\
  forall v,
    filter (fun x => userID x = v) (reminders (rmState (fst (Add now r w))))
    = filter (fun x => userID x = v) (reminders (rmState w))
      ++ filter (fun x => userID x = v) (if due now r then [] else [r]).
Proof.
  intros Hs. destruct (due now r) eqn:Hd.
  { rewrite Add_due by done. cbn [fst]. split; [done|].
    intros v. by rewrite filter_nil, app_nil_r. }
  rewrite (Add_reminders_sorted _ _ _ Hs Hd).
  pose proof (sorted_three_way (userID r) _ Hs) as E.
  set (a := filter (fun x => String.compare (userID x) (userID r) = Lt) _) in *.
  set (b := filter (fun x => String.compare (userID x) (userID r) = Eq) _) in *.
  set (c := filter (fun x => String.compare (userID x) (userID r) = Gt) _) in *.
  assert (Forall (fun x => String.compare (userID x) (userID r) = Lt) a) as Ha
    by apply Forall_of_filter.
  assert (Forall (fun x => String.compare (userID x) (userID r) = Eq) b) as Hb
    by apply Forall_of_filter.
  assert (Forall (fun x => String.compare (userID x) (userID r) = Gt) c) as Hc
    by apply Forall_of_filter.
  clearbody a b c. rewrite E in Hs |- *. rewrite (app_assoc a b c) in Hs |- *.
  assert (Forall (fun x => user_le x r) (a ++ b)) as Hab.
  { apply Forall_app. split; (eapply Forall_impl; [eassumption|]);
      cbn; intros x Hx; apply leb_cmp; congruence. }
  assert (Forall (user_le r) c) as Hrc.
  { eapply Forall_impl; [exact Hc|]. cbn. intros x Hx.
    apply leb_cmp. rewrite String.compare_antisym, Hx. done. }
  split.
  - unfold sortedByUser in *. apply StronglySorted_app_2.
    + intros x1 x2 H1 H2. apply elem_of_cons in H2 as [->|H2].
      * by eapply (proj1 (Forall_forall _ _) Hab).
      * by eapply StronglySorted_app_1_elem_of.
    + by eapply StronglySorted_app_1_l.
    + apply StronglySorted_cons. split; [done|].
      by eapply StronglySorted_app_1_r.
  - intros v. rewrite !filter_app, filter_cons, filter_singleton; [|done].
    case_decide as Hv; [|by rewrite app_nil_r].
    assert (filter (fun x => userID x = v) c = []) as ->.
    { apply filter_none. eapply Forall_impl; [exact Hc|]. cbn.
      intros x Hx Hxv. rewrite Hxv, <- Hv, compare_refl in Hx. done. }
    by rewrite !app_nil_r.
Qed.

Lemma accepted_cons a adds :
  accepted (a :: adds)
  = (if due (fst a) (snd a) then [] else [snd a]) ++ accepted adds.
Proof.
  unfold accepted. rewrite filter_cons.
  destruct (due (fst a) (snd a)); case_decide; done.
Qed.

Lemma run_adds_sorted adds w :
  sortedByUser (reminders (rmState w)) ->
  sortedByUser (reminders (rmState (run_adds adds w))) /\
  forall v,
    filter (fun x => userID x = v) (reminders (rmState (run_adds adds w)))
    = filter (fun x => userID x = v) (reminders (rmState w))
      ++ filter (fun x => userID x = v) (accepted adds).
Proof.
  revert w. induction adds as [|[now r] adds IH]; intros w Hs.
  - split; [done|]. intros v. cbn. by rewrite app_nil_r.
  - destruct (Add_keeps_sorted now r w Hs) as [Hs1 Hf1].
    destruct (IH _ Hs1) as [Hs2 Hf2].
    split; [exact Hs2|].
    intros v. cbn [run_adds foldl fst snd] in *.
    unfold run_adds in Hf2. rewrite Hf2, Hf1, accepted_cons. cbn [fst snd].
    by rewrite filter_app, app_assoc.
Qed.

(** C3, as the code has it. After every sequence of [Add] calls the store is
    sorted by userID, and the range listed for a user holds exactly the
    reminders of that user that were kept, contiguous, in the order in which
    they were added (not in the order of their expirations). *)
Theorem C3_store_sorted_by_user_in_insertion_order
    (adds : list (Time * reminder)) :
  let rs := rmState (run_adds adds emptyWorld) in
  sortedByUser (reminders rs) /\
  forall uid,
    ListFor uid rs = Some (filter (fun r => userID r = uid) (accepted adds)) /\
    exists i j, userRange uid (reminders rs) = (i, j) /\ i <= j <= length (reminders rs) /\
      slice (reminders rs) i j = filter (fun r => userID r = uid) (accepted adds).
Proof.
  cbn zeta.
  destruct (run_adds_sorted adds emptyWorld) as [Hs Hf]; [constructor|].
  split; [exact Hs|].
  intros uid. specialize (Hf uid). cbn [emptyWorld rmState emptyState reminders] in Hf.
  rewrite filter_nil in Hf. cbn [app] in Hf.
  pose proof (ListFor_sorted uid _ Hs) as HL. rewrite Hf in HL.
  split; [exact HL|].
  pose proof (userRange_le uid (reminders (rmState (run_adds adds emptyWorld)))) as Hle.
  unfold ListFor in HL.
  destruct (userRange uid _) as [i j]. cbn [fst snd] in Hle.
  exists i, j. split; [done|]. split; [done|].
  destruct (Nat.eqb_spec j i) as [Eji|].
  - injection HL as <-. unfold slice. by rewrite Eji, Nat.sub_diag, take_0.
  - destruct (Nat.ltb_spec j i); [lia|]. by injection HL.
Qed.

(** C3, on the code. [alice] adds reminders due in two hours, in one hour
    and in three hours: the store, and the range listed for her, hold them in
    that order, which is sorted by expiration neither upwards nor downwards.
    [Add] searches on the userID alone, while [Remove] searches the range of
    a user on the expiration, as if [Add] had kept it in order (C2). *)
Lemma C3_store_not_sorted_by_expiration :
  reminders (rmState wMomMilkPlants) = [callMom; buyMilk; waterPlants] /\
  ListFor alice (rmState wMomMilkPlants) = Some [callMom; buyMilk; waterPlants] /\
  ~ sortedByUserThenExpiration (reminders (rmState wMomMilkPlants)) /\
  ~ ascendingByExpiration [callMom; buyMilk; waterPlants] /\
  ~ descendingByExpiration [callMom; buyMilk; waterPlants].
Proof.
  assert (reminders (rmState wMomMilkPlants) = [callMom; buyMilk; waterPlants])
    as E by (vm_compute; reflexivity).
  split; [exact E|].
  split; [vm_compute; reflexivity|].
  rewrite E. repeat split.
  - intros H. apply StronglySorted_cons in H as [H _].
    apply Forall_cons in H as [[H|[_ H]] _].
    + vm_compute in H. discriminate.
    + vm_compute in H. by apply H.
  - intros H. apply StronglySorted_cons in H as [H _].
    apply Forall_cons in H as [H _]. vm_compute in H. by apply H.
  - intros H. apply StronglySorted_cons in H as [_ H].
    apply StronglySorted_cons in H as [H _].
    apply Forall_cons in H as [H _]. vm_compute in H. by apply H.
Qed.

(** ** Cancelling when the user has several reminders *)

(** C2, on the code. [alice] has two live reminders, due in one hour and in
    two hours.  Cancelling the first, well before it is due, returns false and
    changes nothing: the search on the expiration, made for a range in
    descending order, ends on the other record.  The timer stays armed, and
    when it fires the sink is invoked for the reminder.  The same happens to
    a reminder cancelled right after it was scheduled, when the user has
    reminders due in three hours and in one hour already. *)
Theorem C2_cancel_misses_a_live_reminder :
  reminders (rmState wMilkMom) = [buyMilk; callMom] /\
  heap wMilkMom !! 0 = Some (mkTimer (expiration buyMilk) buyMilk Armed) /\
  Remove alice (expiration buyMilk) wMilkMom
    = Returns false wMilkMom [Log msgNotFound] /\
  (exists w', fire 0 wMilkMom
              = Some (Returns false w' [Send buyMilk; Log msgNotFound])) /\
  reminders (rmState wPlantsMilkMom) = [waterPlants; buyMilk; callMom] /\
  Remove alice (expiration callMom) wPlantsMilkMom
    = Returns false wPlantsMilkMom [Log msgNotFound].
Proof.
  split; [vm_compute; reflexivity|].
  split; [vm_compute; reflexivity|].
  split; [vm_compute; reflexivity|].
  split; [eexists; vm_compute; reflexivity|].
  split; vm_compute; reflexivity.
Qed.

(** Where cancelling does work: the user's only reminder. *)
Example cancel_only_reminder :
  exists w', Remove alice (expiration buyMilk) (run_adds [(t0, buyMilk)] emptyWorld)
             = Returns true w' [Log msgRemoved] /\
             reminders (rmState w') = [] /\ timers (rmState w') = [] /\
             fire 0 w' = None.
Proof. eexists. repeat split; vm_compute; reflexivity. Qed.

(** ** The timer callback *)


(** The callback of a timer goes through the [Stop] check of [Remove] as
    well: for the timer that has just fired, [Stop] reports false, and the
    record stays in the store. *)
Example fired_timer_leaves_its_record :
  exists w', fire 0 (run_adds [(t0, buyMilk)] emptyWorld)
             = Some (Returns false w' [Send buyMilk; Log msgTriggering]) /\
             reminders (rmState w') = [buyMilk] /\ timers (rmState w') = [0].
Proof. eexists. repeat split; vm_compute; reflexivity. Qed.

(** In a store sorted by user, what the lookup finds belongs to the user. *)
Lemma findExact_FoundAt_user uid exp l k :
  sortedByUser l -> findExact uid exp l = FoundAt k ->
  exists x, l !! k = Some x /\ userID x = uid /\ expiration x = exp.
Proof.
  intros Hs Hf. apply findExact_FoundAt in Hf as (Hr & Hk & He).
  rewrite (userRange_sorted uid l Hs) in Hr. cbn [fst snd] in Hr.
  destruct (lookup_lt_is_Some_2 l k Hk) as [x Hx].
  exists x. split; [done|].
  unfold reminderAt in He. rewrite nth_lookup, Hx in He. cbn in He.
  split; [|done].
  pose proof (sorted_three_way uid l Hs) as E.
  set (a := filter (fun r => String.compare (userID r) uid = Lt) l) in *.
  set (b := filter (fun r => String.compare (userID r) uid = Eq) l) in *.
  set (c := filter (fun r => String.compare (userID r) uid = Gt) l) in *.
  assert (Forall (fun r => String.compare (userID r) uid = Eq) b) as Hb
    by apply Forall_of_filter.
  clearbody a b c. rewrite E in Hx.
  rewrite lookup_app_r in Hx by lia.
  rewrite lookup_app_l in Hx by lia.
  apply String.compare_eq_iff.
  by eapply (Forall_lookup_1 _ _ _ _ Hb).
Qed.



(** ** Restoring a snapshot *)

Lemma stopTimer_not_armed h tp tp' t :
  stopTimer h tp !! tp' = Some t ->
  (tp' = tp -> tm_status t <> Armed) /\
  (forall t0, h !! tp' = Some t0 -> tm_status t0 <> Armed -> tm_status t <> Armed).
Proof.
  unfold stopTimer. destruct (h !! tp) as [s|] eqn:Hs.
  - destruct (decide (tp' = tp)) as [->|Hne].
    + rewrite list_lookup_insert_eq by (by eapply lookup_lt_Some).
      intros [= <-]. unfold Stop.
      split; intros; destruct (tm_status s) eqn:E; cbn; congruence.
    + rewrite list_lookup_insert_ne by done. intros Ht.
      split; [done|]. intros t1 Ht1. congruence.
  - intros Ht. split; [congruence|]. intros t1 Ht1. congruence.
Qed.

(** After the sweep no timer of the store is armed. *)
Lemma stopAll_not_armed tps h tp t :
  stopAll h tps !! tp = Some t ->
  (tp ∈ tps \/ exists t0, h !! tp = Some t0 /\ tm_status t0 <> Armed) ->
  tm_status t <> Armed.
Proof.
  unfold stopAll. revert h. induction tps as [|a tps IH]; intros h Ht Hin; cbn in Ht.
  - destruct Hin as [Hin|(t1 & Ht1 & Hs)]; [by apply elem_of_nil in Hin|congruence].
  - apply (IH _ Ht).
    destruct (stopTimer h a !! tp) as [s|] eqn:Hs.
    + destruct (stopTimer_not_armed _ _ _ _ Hs) as [H1 H2].
      destruct Hin as [Hin|(t1 & Ht1 & Hst)].
      * apply elem_of_cons in Hin as [->|Hin]; [|by left].
        right. exists s. split; [done|]. by apply H1.
      * right. exists s. split; [done|]. by eapply H2.
    + exfalso.
      assert (length (stopTimer h a) = length h) as Hl.
      { unfold stopTimer. destruct (h !! a); [apply length_insert|done]. }
      assert (length (foldl stopTimer (stopTimer h a) tps) = length h) as Hl'.
      { rewrite <- Hl. generalize (stopTimer h a). clear.
        induction tps as [|b tps IH]; intros g; cbn; [done|].
        rewrite IH. unfold stopTimer. destruct (g !! b); [apply length_insert|done]. }
      apply lookup_lt_Some in Ht. apply lookup_ge_None in Hs. lia.
Qed.

(** When [ReadFrom] returns an error, [constructRMState] returns with both
    slices empty and with every timer the store held no longer armed. *)
Lemma constructRMState_resets_on_error clock file w e w' tr :
  ReadFrom clock file w = Returns (Some e) w' tr ->
  constructRMState clock file w
    = Returns tt (resetState w') (tr ++ [Log msgImport]) /\
  reminders (rmState (resetState w')) = [] /\
  timers (rmState (resetState w')) = [] /\
  forall tp t, tp ∈ timers (rmState w') ->
    heap (resetState w') !! tp = Some t -> tm_status t <> Armed.
Proof.
  intros H. unfold constructRMState. rewrite H.
  split; [done|]. split; [done|]. split; [done|].
  intros tp t Hin Ht. cbn in Ht.
  eapply stopAll_not_armed; [exact Ht|by left].
Qed.

(** A line whose timestamp does not parse, after a good line: the record
    restored from the first line is dropped and its timer stopped. *)
Example restore_with_bad_timestamp :
  constructRMState (fun _ => t0) badSecondLine emptyWorld
  = Returns tt
      (mkWorld emptyState [mkTimer (t0 + 1 * Hour)%Z buyMilk Stopped])
      [Log msgImport].
Proof. vm_compute. reflexivity. Qed.

(** C5, on the code. The snapshot is one line that was cut short after its
    second field. The csv reader returns it as a record of two fields (the
    first record sets the number of fields), both of which [ReadFrom] reads
    well; indexing the third panics. No error is returned and
    [constructRMState] never reaches its reset: the panic ends the
    process. *)
Theorem C5_short_first_record_panics :
  Csv.Read (Csv.NewReader truncatedSnapshot)
    = Csv.Record_ ["1001"; "2030-01-01T00:00:00Z"] (Csv.mkReader [] 2) /\
  ReadFrom (fun _ => t0) truncatedSnapshot emptyWorld
    = Panics "index out of range [2]" emptyWorld [] /\
  constructRMState (fun _ => t0) truncatedSnapshot emptyWorld
    = Panics "index out of range [2]" emptyWorld [].
Proof. repeat split; vm_compute; reflexivity. Qed.

(** ** Snapshots *)

(** A message with a comma comes back as it was. *)
Example comma_round_trip :
  ReadFrom (fun _ => t0) (WriteTo (rmState (run_adds [(t0, shopping)] emptyWorld))) emptyWorld
  = Returns None (run_adds [(t0, shopping)] emptyWorld) [].
Proof. vm_compute. reflexivity. Qed.

(** C1, on the code. A live reminder whose message holds a quote is written
    with the quote escaped by a backslash, as [%q] does; the csv reader, for
    which a quote inside a quoted field has to be doubled, rejects the line,
    and the restore ends with an empty store. A message with a backslash or
    with a newline is read back without an error and comes back changed: the
    backslash doubled, the newline as a backslash followed by the letter n. *)
Theorem C1_quoted_message_is_not_restored :
  WriteTo (rmState (run_adds [(t0, sayHi)] emptyWorld))
    = list_ascii_of_string "1001,2030-01-01T00:00:00Z,2030-01-01T01:00:00Z,"
      ++ [dquote] ++ list_ascii_of_string "say " ++ [backslash; dquote]
      ++ list_ascii_of_string "hi" ++ [backslash; dquote; dquote; NL] /\
  ReadFrom (fun _ => t0) (WriteTo (rmState (run_adds [(t0, sayHi)] emptyWorld))) emptyWorld
    = Returns (Some (CsvError Csv.ErrQuote)) emptyWorld [] /\
  reminders (rmState (world_of
      (constructRMState (fun _ => t0) (WriteTo (rmState (run_adds [(t0, sayHi)] emptyWorld))) emptyWorld)))
    = [] /\
  reminders (rmState (world_of
      (ReadFrom (fun _ => t0) (WriteTo (rmState (run_adds [(t0, backupPath)] emptyWorld))) emptyWorld)))
    = [mkReminder alice t0 (t0 + 1 * Hour)%Z "copy C:\\tmp"] /\
  map message (reminders (rmState (world_of
      (ReadFrom (fun _ => t0) (WriteTo (rmState (run_adds [(t0, withContext)] emptyWorld))) emptyWorld))))
    = ["call mom \nContext: https://discordapp.com/channels/1/2/3"].
Proof. repeat split; vm_compute; reflexivity. Qed.

(** ** The budgets of the reader are never used up *)

Lemma indexByte_lt c s i : indexByte c s = Some i -> i < length s.
Proof.
  unfold indexByte. destruct (list_find _ s) as [[j x]|] eqn:H; [|done].
  intros [= <-]. apply list_find_Some in H as (H & _).
  by eapply lookup_lt_Some.
Qed.

Lemma readSlice_length s :
  length (Csv.readSlice s).1 + length (Csv.readSlice s).2 = length s.
Proof.
  induction s as [|c s IH]; [done|]. cbn [Csv.readSlice].
  destruct (Ascii.eqb c NL); [done|].
  destruct (Csv.readSlice s) as [l r]. cbn in *. lia.
Qed.

Lemma readSlice_nil s : (Csv.readSlice s).1 = [] -> s = [].
Proof.
  destruct s as [|c s]; [done|]. cbn [Csv.readSlice].
  destruct (Ascii.eqb c NL); [done|]. by destruct (Csv.readSlice s).
Qed.

Lemma dropTrailingCR_length line :
  length (Csv.dropTrailingCR line) <= length line.
Proof.
  unfold Csv.dropTrailingCR. case_match; [rewrite length_take|]; lia.
Qed.

Lemma normalizeCRLF_length line :
  length (Csv.normalizeCRLF line) <= length line.
Proof.
  unfold Csv.normalizeCRLF. cbn zeta.
  destruct (Nat.leb_spec 2 (length line)); cbn [andb]; [|lia].
  destruct (_ && _); [|lia]. rewrite length_app, length_take. cbn. lia.
Qed.

Lemma readLine_length s line rest eof :
  Csv.readLine s = (line, rest, eof) ->
  length line + length rest <= length s /\
  (eof = false -> length rest < length s) /\
  (eof = true -> s = []).
Proof.
  unfold Csv.readLine. pose proof (readSlice_length s) as H.
  pose proof (readSlice_nil s) as Hn.
  destruct (Csv.readSlice s) as [l r]. cbn [fst snd] in H, Hn.
  destruct l as [|c l].
  - intros [= <- <- <-]. cbn in *. split; [lia|]. split; [done|]. auto.
  - intros [= <- <- <-].
    pose proof (normalizeCRLF_length (Csv.dropTrailingCR (c :: l))).
    pose proof (dropTrailingCR_length (c :: l)).
    assert (0 < length (c :: l)) by (cbn; lia).
    split; [lia|]. split; [lia|done].
Qed.

Lemma parseRecord_budget b field line rest fs :
  length line + length rest < b ->
  match Csv.parseRecord b field line rest fs with
  | Csv.Failed e => e <> Csv.OutOfBudget
  | Csv.Fields _ rest' => length rest' <= length rest
  end.
Proof.
  revert field line rest fs. induction b as [|b IH]; intros field line rest fs Hb; [lia|].
  cbn [Csv.parseRecord]. destruct field as [buf|].
  - destruct (indexByte dquote line) as [i|] eqn:Hi.
    + apply indexByte_lt in Hi.
      destruct (drop (i + 1) line) as [|c line'] eqn:Hd; [lia|].
      apply (f_equal length) in Hd. rewrite length_drop in Hd. cbn [length] in Hd.
      destruct (Ascii.eqb c dquote); [apply IH; lia|].
      destruct (Ascii.eqb c comma); [apply IH; lia|].
      destruct (_ =? _); [lia|done].
    + destruct line as [|c line']; [done|].
      destruct (Csv.readLine rest) as [[line2 rest2] eof] eqn:Hr.
      apply readLine_length in Hr as (Hr & _).
      specialize (IH (Some (buf ++ c :: line')) line2 rest2 fs).
      cbn [length] in Hb.
      destruct (Csv.parseRecord _ _ _ _ _); [|apply IH; lia].
      specialize (IH ltac:(lia)). lia.
  - destruct line as [|c line']; [lia|].
    destruct (Ascii.eqb c dquote); [apply IH; cbn [length] in Hb; lia|].
    destruct (indexByte comma (c :: line')) as [i|] eqn:Hi.
    + apply indexByte_lt in Hi.
      destruct (bool_decide _); [|done].
      apply IH. rewrite length_drop. lia.
    + destruct (bool_decide _); [lia|done].
Qed.

Lemma nextLine_budget b s :
  length s <= b ->
  match Csv.nextLine b s with
  | (line, rest, eof) =>
      (eof = true \/ length line <> Csv.lengthNL line) /\
      (eof = false -> length line + length rest <= length s /\ length rest < length s)
  end.
Proof.
  revert s. induction b as [|b IH]; intros s Hb.
  - destruct s; [|cbn in Hb; lia]. cbn. split; [by left|done].
  - cbn [Csv.nextLine].
    destruct (Csv.readLine s) as [[line rest] eof] eqn:Hr.
    pose proof (readLine_length _ _ _ _ Hr) as (H1 & H2 & H3).
    destruct eof; cbn [negb andb].
    + auto.
    + specialize (H2 eq_refl).
      destruct (Nat.eqb_spec (length line) (Csv.lengthNL line)) as [E|E].
      * specialize (IH rest ltac:(lia)).
        destruct (Csv.nextLine b rest) as [[l r] e].
        destruct IH as [IH1 IH2]. split; [done|].
        intros He. specialize (IH2 He). lia.
      * split; [by right|]. intros _. lia.
Qed.

(** A [Read] that returns a record has consumed input, and no [Read] fails
    for lack of budget. *)
Lemma Read_progress rr :
  match Csv.Read rr with
  | Csv.Record_ _ rr' => length (Csv.input rr') < length (Csv.input rr)
  | Csv.EOF => True
  | Csv.Error e => e <> Csv.OutOfBudget
  end.
Proof.
  unfold Csv.Read.
  pose proof (nextLine_budget (length (Csv.input rr)) (Csv.input rr) ltac:(lia)) as H.
  destruct (Csv.nextLine _ _) as [[line rest] eof].
  destruct eof; [done|]. destruct H as [_ H]. specialize (H eq_refl).
  pose proof (parseRecord_budget (2 + length line + length rest) None line rest []
                ltac:(lia)) as Hp.
  destruct (Csv.parseRecord _ _ _ _ _) as [fs rest'|e]; [|done].
  destruct (_ && _); [done|]. cbn. lia.
Qed.

Lemma ReadFrom_loop_budget b clock k rr w tr w' tr' :
  length (Csv.input rr) < b ->
  ReadFrom_loop b clock k rr w tr <> Returns (Some (CsvError Csv.OutOfBudget)) w' tr'.
Proof.
  revert k rr w tr. induction b as [|b IH]; intros k rr w tr Hb; [lia|].
  cbn [ReadFrom_loop]. pose proof (Read_progress rr) as Hr.
  destruct (Csv.Read rr) as [record rr'| |e]; [|done|congruence].
  destruct record as [|f0 [|f1 rest1]]; [done|done|].
  destruct (parseTime f1); [|done].
  destruct rest1 as [|f2 rest2]; [done|].
  destruct (parseTime f2); [|done].
  destruct rest2 as [|f3 rest3]; [done|].
  destruct (Add _ _ _) as [w1 tr1]. apply IH. lia.
Qed.

(** [ReadFrom] always ends as the source does: at the end of the input, on
    an error of the csv reader or of the timestamp parser, or in a panic. *)
Lemma ReadFrom_budget clock file w w' tr' :
  ReadFrom clock file w <> Returns (Some (CsvError Csv.OutOfBudget)) w' tr'.
Proof. unfold ReadFrom. apply ReadFrom_loop_budget. cbn. lia. Qed.

(** ** The order by user is kept by every operation *)

Lemma sorted_delete k l : sortedByUser l -> sortedByUser (delete k l).
Proof.
  unfold sortedByUser. intros H. revert k.
  induction H as [|x l Hs IH Hx]; intros [|k]; cbn.
  - constructor.
  - constructor.
  - done.
  - constructor; [apply IH|]. by apply Forall_delete.
Qed.

Lemma sorted_Remove uid exp w :
  paired w -> sortedByUser (reminders (rmState w)) ->
  sortedByUser (reminders (rmState (world_of (Remove uid exp w)))).
Proof.
  intros Hp Hs. unfold Remove.
  destruct (findExact _ _ _) as [| |k] eqn:Hf; [done|done|].
  apply findExact_FoundAt in Hf as (_ & Hk & _).
  destruct (timers _ !! k) as [tp|]; [|done].
  destruct (heap w !! tp) as [t|]; [|done].
  destruct (Stop t) as [[] t']; cbn [negb]; [|done].
  cbn [world_of rmState reminders].
  rewrite slice_remove_spec by done. by apply sorted_delete.
Qed.

Lemma sorted_ReadFrom_loop b clock k rr w tr :
  sortedByUser (reminders (rmState w)) ->
  sortedByUser (reminders (rmState (world_of (ReadFrom_loop b clock k rr w tr)))).
Proof.
  revert k rr w tr. induction b as [|b IH]; intros k rr w tr Hs; cbn [ReadFrom_loop].
  - done.
  - destruct (Csv.Read rr) as [record rr'| |e]; [|done|done].
    destruct record as [|f0 [|f1 rest1]]; [done|done|].
    destruct (parseTime f1); [|done].
    destruct rest1 as [|f2 rest2]; [done|].
    destruct (parseTime f2) as [ex|]; [|done].
    destruct rest2 as [|f3 rest3]; [done|].
    pose proof (Add_keeps_sorted (clock k) (mkReminder f0 t ex f3) w Hs) as [Hs' _].
    destruct (Add _ _ _) as [w' tr']. by apply IH.
Qed.

Lemma sorted_step w o :
  paired w -> sortedByUser (reminders (rmState w)) ->
  sortedByUser (reminders (rmState (step w o))).
Proof.
  intros Hp Hs. destruct o; cbn [step].
  - by apply Add_keeps_sorted.
  - by apply sorted_Remove.
  - unfold fire. pose proof (paired_expire tp w Hp) as Hp'.
    unfold expire in *. destruct (heap w !! tp) as [t|]; [|done].
    destruct (tm_status t); [|done|done].
    cbn [from_option snd] in *. unfold timerCallback.
    pose proof (sorted_Remove (userID (tm_reminder t)) (expiration (tm_reminder t))
                  _ Hp' Hs) as H.
    by destruct (Remove _ _ _).
  - unfold expire. destruct (heap w !! tp) as [t|]; [|done].
    by destruct (tm_status t).
  - unfold timerCallback.
    pose proof (sorted_Remove (userID r) (expiration r) _ Hp Hs) as H.
    by destruct (Remove _ _ _).
  - unfold constructRMState, ReadFrom.
    pose proof (sorted_ReadFrom_loop (S (length file)) clock 0
                  (Csv.NewReader file) w [] Hs) as H.
    destruct (ReadFrom_loop _ _ _ _ _ _) as [[e|] w' tr|]; cbn in *; try done.
    rewrite take_0. constructor.
  - unfold resetState. cbn. rewrite take_0. constructor.
  - done.
Qed.

(** Every world reachable from the empty store is paired and sorted by
    user. *)
Lemma reachable_paired_sorted ops :
  paired (run ops emptyWorld) /\
  sortedByUser (reminders (rmState (run ops emptyWorld))).
Proof.
  unfold run.
  assert (paired emptyWorld /\ sortedByUser (reminders (rmState emptyWorld))) as H.
  { split; constructor. }
  revert H. generalize emptyWorld.
  induction ops as [|o ops IH]; intros w [Hp Hs]; cbn [foldl]; [done|].
  apply IH. split; [by apply paired_step|by apply sorted_step].
Qed.

(** * Further properties of the program *)

(** ** The store after any operations *)

(** X1. Whatever operations have run ([Add], [Remove], timers firing, a
    restore, a reset, shutdown), the store is sorted by userID. *)
Theorem store_sorted_after_any_operations (ops : list op) :
  sortedByUser (reminders (rmState (run ops emptyWorld))).
Proof.
  destruct (reachable_paired_sorted ops) as [_ Hs]. exact Hs.
Qed.

(** X2. Whatever operations have run, the [list] branch of the handler
    never panics on its slice expression, and what it lists for a user is
    exactly the reminders of that user that are in the store, in store
    order. *)
Theorem ListFor_after_any_operations (ops : list op) (uid : string) :
  ListFor uid (rmState (run ops emptyWorld))
  = Some (filter (fun r => userID r = uid)
                 (reminders (rmState (run ops emptyWorld)))).
Proof.
  destruct (reachable_paired_sorted ops) as [_ Hs].
  by apply ListFor_sorted.
Qed.

(** X3. Whatever operations have run, [Remove] returns: none of its index
    and slice expressions ([reminders[i:j]], [authorReminders[k]],
    [timers[k]]) panics, for any user and any expiration asked for. *)
Theorem Remove_never_panics (ops : list op) (uid : string) (exp : Time) :
  exists b w' tr, Remove uid exp (run ops emptyWorld) = Returns b w' tr.
Proof.
  destruct (reachable_paired_sorted ops) as [Hp _].
  by apply Remove_returns.
Qed.

(** ** What a successful [Remove] does *)

(** X4. When [Remove] returns true, it has deleted one record, at one
    index of both slices: a record of the user asked for, with the
    expiration asked for, whose timer was armed and is now stopped. Nothing
    else changes. *)
Theorem Remove_removes_the_record_found uid exp w w' tr :
  paired w -> sortedByUser (reminders (rmState w)) ->
  Remove uid exp w = Returns true w' tr ->
  exists k r tp t,
    reminders (rmState w) !! k = Some r /\
    userID r = uid /\ expiration r = exp /\
    timers (rmState w) !! k = Some tp /\
    heap w !! tp = Some t /\ tm_reminder t = r /\ tm_status t = Armed /\
    reminders (rmState w') = delete k (reminders (rmState w)) /\
    timers (rmState w') = delete k (timers (rmState w)) /\
    heap w' = <[tp := mkTimer (tm_when t) r Stopped]> (heap w) /\
    tr = [Log msgRemoved].
Proof.
  intros Hp Hs. unfold Remove.
  destruct (findExact _ _ _) as [| |k] eqn:Hf; [done|done|].
  destruct (findExact_FoundAt_user _ _ _ _ Hs Hf) as (r & Hr & Hu & He).
  apply findExact_FoundAt in Hf as (_ & Hk & _).
  destruct (timers _ !! k) as [tp|] eqn:Htp; [|done].
  destruct (heap w !! tp) as [t|] eqn:Ht; [|done].
  destruct (Forall2_lookup_lr _ _ _ _ _ _ Hp Hr Htp) as (t1 & Ht1 & Hown).
  assert (t1 = t) as -> by congruence.
  unfold Stop. destruct (tm_status t) eqn:Hst; cbn [negb]; [|done|done].
  intros [= <- <-].
  exists k, r, tp, t. cbn [rmState reminders timers heap].
  rewrite !slice_remove_spec
    by (rewrite <- ?(paired_length _ Hp); done).
  rewrite Hown. repeat split; done.
Qed.

(** The store of [alice] with the later of her two reminders cancelled. *)
Lemma Remove_removes_the_record_found_witness :
  paired wMilkMom /\ sortedByUser (reminders (rmState wMilkMom)) /\
  Remove alice (expiration callMom) wMilkMom
    = Returns true
        (mkWorld (mkState [buyMilk] [0])
           [mkTimer (expiration buyMilk) buyMilk Armed;
            mkTimer (expiration callMom) callMom Stopped])
        [Log msgRemoved] /\
  exists k r tp t,
    reminders (rmState wMilkMom) !! k = Some r /\
    userID r = alice /\ expiration r = expiration callMom /\
    timers (rmState wMilkMom) !! k = Some tp /\
    heap wMilkMom !! tp = Some t /\ tm_reminder t = r /\ tm_status t = Armed /\
    reminders (rmState (mkWorld (mkState [buyMilk] [0])
           [mkTimer (expiration buyMilk) buyMilk Armed;
            mkTimer (expiration callMom) callMom Stopped]))
      = delete k (reminders (rmState wMilkMom)) /\
    timers (rmState (mkWorld (mkState [buyMilk] [0])
           [mkTimer (expiration buyMilk) buyMilk Armed;
            mkTimer (expiration callMom) callMom Stopped]))
      = delete k (timers (rmState wMilkMom)) /\
    heap (mkWorld (mkState [buyMilk] [0])
           [mkTimer (expiration buyMilk) buyMilk Armed;
            mkTimer (expiration callMom) callMom Stopped])
      = <[tp := mkTimer (tm_when t) r Stopped]> (heap wMilkMom) /\
    [Log msgRemoved] = [Log msgRemoved].
Proof.
  assert (paired wMilkMom) as Hp.
  { repeat constructor; eexists; split; vm_compute; reflexivity. }
  assert (sortedByUser (reminders (rmState wMilkMom))) as Hs.
  { repeat constructor. }
  assert (Remove alice (expiration callMom) wMilkMom
    = Returns true
        (mkWorld (mkState [buyMilk] [0])
           [mkTimer (expiration buyMilk) buyMilk Armed;
            mkTimer (expiration callMom) callMom Stopped])
        [Log msgRemoved]) as Hr by (vm_compute; reflexivity).
  split; [exact Hp|]. split; [exact Hs|]. split; [exact Hr|].
  exact (Remove_removes_the_record_found alice (expiration callMom) wMilkMom _ _
           Hp Hs Hr).
Defined.

(** ** Timers are never armed again *)

Lemma stays_unarmed_refl h : stays_unarmed h h.
Proof. intros tp t H Hs. eauto. Qed.

Lemma stays_unarmed_trans h1 h2 h3 :
  stays_unarmed h1 h2 -> stays_unarmed h2 h3 -> stays_unarmed h1 h3.
Proof.
  intros H12 H23 tp t H Hs.
  destruct (H12 _ _ H Hs) as (t2 & H2 & Hs2). eauto.
Qed.

Lemma stays_unarmed_app h l : stays_unarmed h (h ++ l).
Proof.
  intros tp t H Hs. exists t. split; [|done]. by apply lookup_app_l_Some.
Qed.

Lemma stays_unarmed_insert h tp t' :
  tm_status t' <> Armed -> stays_unarmed h (<[tp := t']> h).
Proof.
  intros Hs' tp0 t0 H0 Hs0.
  destruct (decide (tp0 = tp)) as [->|Hne].
  - exists t'. rewrite list_lookup_insert_eq by (by eapply lookup_lt_Some). done.
  - exists t0. by rewrite list_lookup_insert_ne.
Qed.

Lemma stays_unarmed_stopAll h tps : stays_unarmed h (stopAll h tps).
Proof.
  unfold stopAll. revert h. induction tps as [|tp tps IH]; intros h; cbn.
  - apply stays_unarmed_refl.
  - eapply stays_unarmed_trans; [|apply IH].
    unfold stopTimer. destruct (h !! tp) as [t|] eqn:Ht; [|apply stays_unarmed_refl].
    unfold Stop. destruct (tm_status t) eqn:Ha; cbn [snd].
    + by apply stays_unarmed_insert.
    + rewrite list_insert_id by done. apply stays_unarmed_refl.
    + rewrite list_insert_id by done. apply stays_unarmed_refl.
Qed.

Lemma stays_unarmed_Add now r w : stays_unarmed (heap w) (heap (fst (Add now r w))).
Proof.
  destruct (due now r) eqn:Hd.
  - rewrite Add_due by done. apply stays_unarmed_refl.
  - rewrite Add_not_due by done. apply stays_unarmed_app.
Qed.

Lemma stays_unarmed_Remove uid exp w :
  stays_unarmed (heap w) (heap (world_of (Remove uid exp w))).
Proof.
  unfold Remove.
  destruct (findExact _ _ _); try apply stays_unarmed_refl.
  destruct (timers _ !! _); [|apply stays_unarmed_refl].
  destruct (heap w !! _) as [t|]; [|apply stays_unarmed_refl].
  unfold Stop. destruct (tm_status t); cbn [negb world_of heap];
    try apply stays_unarmed_refl.
  by apply stays_unarmed_insert.
Qed.

Lemma stays_unarmed_expire tp w :
  stays_unarmed (heap w) (heap (from_option snd w (expire tp w))).
Proof.
  unfold expire. destruct (heap w !! tp) as [t|]; [|apply stays_unarmed_refl].
  destruct (tm_status t); try apply stays_unarmed_refl.
  cbn [from_option snd heap]. by apply stays_unarmed_insert.
Qed.

Lemma stays_unarmed_timerCallback r w :
  stays_unarmed (heap w) (heap (world_of (timerCallback r w))).
Proof.
  unfold timerCallback.
  pose proof (stays_unarmed_Remove (userID r) (expiration r) w) as H.
  by destruct (Remove _ _ _).
Qed.

Lemma stays_unarmed_ReadFrom_loop b clock k rr w tr :
  stays_unarmed (heap w) (heap (world_of (ReadFrom_loop b clock k rr w tr))).
Proof.
  revert k rr w tr. induction b as [|b IH]; intros k rr w tr; cbn [ReadFrom_loop].
  - apply stays_unarmed_refl.
  - destruct (Csv.Read rr) as [record rr'| |e]; try apply stays_unarmed_refl.
    destruct record as [|f0 [|f1 rest1]]; try apply stays_unarmed_refl.
    destruct (parseTime f1); [|apply stays_unarmed_refl].
    destruct rest1 as [|f2 rest2]; [apply stays_unarmed_refl|].
    destruct (parseTime f2) as [ex|]; [|apply stays_unarmed_refl].
    destruct rest2 as [|f3 rest3]; [apply stays_unarmed_refl|].
    pose proof (stays_unarmed_Add (clock k) (mkReminder f0 t ex f3) w) as Ha.
    destruct (Add _ _ _) as [w' tr']. cbn [fst] in Ha.
    eapply stays_unarmed_trans; [exact Ha|apply IH].
Qed.

Lemma stays_unarmed_step w o : stays_unarmed (heap w) (heap (step w o)).
Proof.
  destruct o; cbn [step].
  - apply stays_unarmed_Add.
  - apply stays_unarmed_Remove.
  - unfold fire. pose proof (stays_unarmed_expire tp w) as He.
    destruct (expire tp w) as [[r w1]|]; [|apply stays_unarmed_refl].
    cbn [from_option snd] in *.
    eapply stays_unarmed_trans; [exact He|apply stays_unarmed_timerCallback].
  - apply stays_unarmed_expire.
  - apply stays_unarmed_timerCallback.
  - unfold constructRMState, ReadFrom.
    pose proof (stays_unarmed_ReadFrom_loop (S (length file)) clock 0
                  (Csv.NewReader file) w []) as H.
    destruct (ReadFrom_loop _ _ _ _ _ _) as [[e|] w' tr|]; cbn in *; try done.
    eapply stays_unarmed_trans; [exact H|apply stays_unarmed_stopAll].
  - apply stays_unarmed_stopAll.
  - apply stays_unarmed_stopAll.
Qed.

Lemma stays_unarmed_run ops w : stays_unarmed (heap w) (heap (run ops w)).
Proof.
  unfold run. revert w. induction ops as [|o ops IH]; intros w; cbn [foldl].
  - apply stays_unarmed_refl.
  - eapply stays_unarmed_trans; [apply stays_unarmed_step|apply IH].
Qed.

Lemma expire_unarmed tp w t :
  heap w !! tp = Some t -> tm_status t <> Armed -> expire tp w = None.
Proof. unfold expire. intros -> Hs. by destruct (tm_status t). Qed.

Lemma fire_unarmed tp w t :
  heap w !! tp = Some t -> tm_status t <> Armed -> fire tp w = None.
Proof. intros Ht Hs. unfold fire. by rewrite (expire_unarmed _ _ _ Ht Hs). Qed.

(** X5. A cancellation that succeeds is final: the timer of the record that
    [Remove] took out never fires, whatever operations run afterwards, so its
    callback, and with it the delivery, never runs. *)
Theorem cancelled_timer_never_fires uid exp w w' tr :
  paired w ->
  Remove uid exp w = Returns true w' tr ->
  exists k tp r,
    reminders (rmState w) !! k = Some r /\
    timers (rmState w) !! k = Some tp /\
    (exists t, heap w !! tp = Some t /\ tm_reminder t = r /\ tm_status t = Armed) /\
    forall ops, expire tp (run ops w') = None /\ fire tp (run ops w') = None.
Proof.
  intros Hp. unfold Remove.
  destruct (findExact _ _ _) as [| |k] eqn:Hf; [done|done|].
  apply findExact_FoundAt in Hf as (_ & Hk & _).
  destruct (lookup_lt_is_Some_2 _ _ Hk) as [r Hr].
  destruct (timers _ !! k) as [tp|] eqn:Htp; [|done].
  destruct (heap w !! tp) as [t|] eqn:Ht; [|done].
  destruct (Forall2_lookup_lr _ _ _ _ _ _ Hp Hr Htp) as (t1 & Ht1 & Hown).
  assert (t1 = t) as -> by congruence.
  unfold Stop. destruct (tm_status t) eqn:Hst; cbn [negb]; [|done|done].
  intros [= <- <-].
  exists k, tp, r. split; [done|]. split; [done|]. split; [eauto|].
  intros ops.
  set (w1 := mkWorld _ _).
  assert (heap w1 !! tp = Some (mkTimer (tm_when t) (tm_reminder t) Stopped)) as H1.
  { subst w1. cbn [heap].
    by rewrite list_lookup_insert_eq by (by eapply lookup_lt_Some). }
  destruct (stays_unarmed_run ops w1 tp _ H1) as (t' & Ht' & Hs'); [done|].
  split; [by eapply expire_unarmed|by eapply fire_unarmed].
Qed.

(** The timer of the cancelled [callMom] is timer 1. *)
Lemma cancelled_timer_never_fires_witness :
  paired wMilkMom /\
  Remove alice (expiration callMom) wMilkMom
    = Returns true
        (mkWorld (mkState [buyMilk] [0])
           [mkTimer (expiration buyMilk) buyMilk Armed;
            mkTimer (expiration callMom) callMom Stopped])
        [Log msgRemoved] /\
  exists k tp r,
    reminders (rmState wMilkMom) !! k = Some r /\
    timers (rmState wMilkMom) !! k = Some tp /\
    (exists t, heap wMilkMom !! tp = Some t /\ tm_reminder t = r /\ tm_status t = Armed) /\
    forall ops,
      expire tp (run ops (mkWorld (mkState [buyMilk] [0])
           [mkTimer (expiration buyMilk) buyMilk Armed;
            mkTimer (expiration callMom) callMom Stopped])) = None /\
      fire tp (run ops (mkWorld (mkState [buyMilk] [0])
           [mkTimer (expiration buyMilk) buyMilk Armed;
            mkTimer (expiration callMom) callMom Stopped])) = None.
Proof.
  assert (paired wMilkMom) as Hp.
  { repeat constructor; eexists; split; vm_compute; reflexivity. }
  assert (Remove alice (expiration callMom) wMilkMom
    = Returns true
        (mkWorld (mkState [buyMilk] [0])
           [mkTimer (expiration buyMilk) buyMilk Armed;
            mkTimer (expiration callMom) callMom Stopped])
        [Log msgRemoved]) as Hr by (vm_compute; reflexivity).
  split; [exact Hp|]. split; [exact Hr|].
  exact (cancelled_timer_never_fires alice (expiration callMom) wMilkMom _ _ Hp Hr).
Defined.

(** X6. A timer fires at most once: once it has expired, it never expires
    again, whatever operations run afterwards. *)
Theorem timer_fires_at_most_once tp w r w1 :
  expire tp w = Some (r, w1) ->
  forall ops, expire tp (run ops w1) = None /\ fire tp (run ops w1) = None.
Proof.
  unfold expire. destruct (heap w !! tp) as [t|] eqn:Ht; [|done].
  destruct (tm_status t); [|done|done].
  intros [= <- <-] ops.
  set (w1 := mkWorld _ _).
  assert (heap w1 !! tp = Some (mkTimer (tm_when t) (tm_reminder t) Fired)) as H1.
  { subst w1. cbn [heap].
    by rewrite list_lookup_insert_eq by (by eapply lookup_lt_Some). }
  destruct (stays_unarmed_run ops w1 tp _ H1) as (t' & Ht' & Hs'); [done|].
  split; [by eapply expire_unarmed|by eapply fire_unarmed].
Qed.

(** The timer of [buyMilk] expires in the store of two. *)
Lemma timer_fires_at_most_once_witness :
  expire 0 wMilkMom
    = Some (buyMilk,
            mkWorld (mkState [buyMilk; callMom] [0; 1])
              [mkTimer (expiration buyMilk) buyMilk Fired;
               mkTimer (expiration callMom) callMom Armed]) /\
  forall ops,
    expire 0 (run ops (mkWorld (mkState [buyMilk; callMom] [0; 1])
              [mkTimer (expiration buyMilk) buyMilk Fired;
               mkTimer (expiration callMom) callMom Armed])) = None /\
    fire 0 (run ops (mkWorld (mkState [buyMilk; callMom] [0; 1])
              [mkTimer (expiration buyMilk) buyMilk Fired;
               mkTimer (expiration callMom) callMom Armed])) = None.
Proof.
  assert (expire 0 wMilkMom
    = Some (buyMilk,
            mkWorld (mkState [buyMilk; callMom] [0; 1])
              [mkTimer (expiration buyMilk) buyMilk Fired;
               mkTimer (expiration callMom) callMom Armed])) as He
    by (vm_compute; reflexivity).
  split; [exact He|].
  exact (timer_fires_at_most_once 0 wMilkMom _ _ He).
Defined.

(** ** The callback of a timer that finds its own record *)

(** X7. When a timer expires and the lookup of its callback's [Remove] ends
    on the record the timer was made for, the [Stop] check of [Remove] sees a
    timer that has already fired: the callback delivers the reminder, logs
    that the reminder is already triggering, and removes nothing. The record
    stays in the store: it is still listed, and still written to the next
    snapshot. *)
Theorem fired_callback_keeps_its_record tp w r w1 k :
  expire tp w = Some (r, w1) ->
  findExact (userID r) (expiration r) (reminders (rmState w)) = FoundAt k ->
  timers (rmState w) !! k = Some tp ->
  fire tp w = Some (Returns false w1 [Send r; Log msgTriggering]) /\
  rmState w1 = rmState w /\
  WriteTo (rmState w1) = WriteTo (rmState w).
Proof.
  intros He Hf Htp. unfold fire. rewrite He.
  unfold expire in He. destruct (heap w !! tp) as [t|] eqn:Ht; [|done].
  destruct (tm_status t) eqn:Hst; [|done|done].
  injection He as <- <-. cbn [rmState].
  split; [|done]. f_equal. unfold timerCallback, Remove. cbn [rmState heap].
  rewrite Hf, Htp.
  rewrite list_lookup_insert_eq by (by eapply lookup_lt_Some).
  reflexivity.
Qed.

(** The only reminder of [alice] fires. *)
Lemma fired_callback_keeps_its_record_witness :
  expire 0 (run_adds [(t0, buyMilk)] emptyWorld)
    = Some (buyMilk, wFiring) /\
  findExact (userID buyMilk) (expiration buyMilk)
    (reminders (rmState (run_adds [(t0, buyMilk)] emptyWorld))) = FoundAt 0 /\
  timers (rmState (run_adds [(t0, buyMilk)] emptyWorld)) !! 0 = Some 0 /\
  (fire 0 (run_adds [(t0, buyMilk)] emptyWorld)
     = Some (Returns false wFiring [Send buyMilk; Log msgTriggering]) /\
   rmState wFiring = rmState (run_adds [(t0, buyMilk)] emptyWorld) /\
   WriteTo (rmState wFiring) = WriteTo (rmState (run_adds [(t0, buyMilk)] emptyWorld))).
Proof.
  assert (expire 0 (run_adds [(t0, buyMilk)] emptyWorld) = Some (buyMilk, wFiring))
    as He by (vm_compute; reflexivity).
  assert (findExact (userID buyMilk) (expiration buyMilk)
    (reminders (rmState (run_adds [(t0, buyMilk)] emptyWorld))) = FoundAt 0)
    as Hf by (vm_compute; reflexivity).
  assert (timers (rmState (run_adds [(t0, buyMilk)] emptyWorld)) !! 0 = Some 0)
    as Ht by (vm_compute; reflexivity).
  split; [exact He|]. split; [exact Hf|]. split; [exact Ht|].
  exact (fired_callback_keeps_its_record 0 _ buyMilk wFiring 0 He Hf Ht).
Defined.

(** ** Scheduling *)

(** X8. After an [Add] of a reminder that is not yet due, nothing has been
    delivered, the list of the reminder's user is the list from before with
    the new reminder at its end, and the list of every other user is as it
    was. *)
Theorem Add_then_ListFor now r w :
  sortedByUser (reminders (rmState w)) ->
  due now r = false ->
  snd (Add now r w) = [] /\
  ListFor (userID r) (rmState (fst (Add now r w)))
    = Some (filter (fun x => userID x = userID r) (reminders (rmState w)) ++ [r]) /\
  forall v, v <> userID r ->
    ListFor v (rmState (fst (Add now r w))) = ListFor v (rmState w).
Proof.
  intros Hs Hd.
  destruct (Add_keeps_sorted now r w Hs) as [Hs' Hf]. rewrite Hd in Hf.
  split; [by rewrite Add_not_due|].
  split.
  - rewrite (ListFor_sorted _ _ Hs'), Hf. by rewrite filter_cons_True, filter_nil.
  - intros v Hv. rewrite (ListFor_sorted _ _ Hs'), (ListFor_sorted _ _ Hs), Hf.
    rewrite filter_cons_False by congruence. by rewrite filter_nil, app_nil_r.
Qed.

(** [alice], who has two reminders, schedules a third. *)
Lemma Add_then_ListFor_witness :
  sortedByUser (reminders (rmState wMilkMom)) /\
  due t0 waterPlants = false /\
  (snd (Add t0 waterPlants wMilkMom) = [] /\
   ListFor (userID waterPlants) (rmState (fst (Add t0 waterPlants wMilkMom)))
     = Some (filter (fun x => userID x = userID waterPlants)
               (reminders (rmState wMilkMom)) ++ [waterPlants]) /\
   forall v, v <> userID waterPlants ->
     ListFor v (rmState (fst (Add t0 waterPlants wMilkMom)))
     = ListFor v (rmState wMilkMom)).
Proof.
  assert (sortedByUser (reminders (rmState wMilkMom))) as Hs by (repeat constructor).
  assert (due t0 waterPlants = false) as Hd by (vm_compute; reflexivity).
  split; [exact Hs|]. split; [exact Hd|].
  exact (Add_then_ListFor t0 waterPlants wMilkMom Hs Hd).
Defined.

(** X9. An [Add] of a reminder that is not yet due stores the reminder and
    a new timer at one and the same index of the two slices; the timer is a
    new one of the runtime, armed, and made for that reminder. Both slices
    grow by one, and the timers that were there are as they were. *)
Theorem Add_stores_the_reminder_with_an_armed_timer now r w :
  paired w -> due now r = false ->
  exists k t,
    reminders (rmState (fst (Add now r w))) !! k = Some r /\
    timers (rmState (fst (Add now r w))) !! k = Some (length (heap w)) /\
    heap (fst (Add now r w)) !! length (heap w) = Some t /\
    tm_reminder t = r /\ tm_status t = Armed /\
    (forall tp t0, heap w !! tp = Some t0 -> heap (fst (Add now r w)) !! tp = Some t0) /\
    length (reminders (rmState (fst (Add now r w))))
      = S (length (reminders (rmState w))) /\
    length (timers (rmState (fst (Add now r w))))
      = S (length (timers (rmState w))).
Proof.
  intros Hp Hd. rewrite Add_not_due by done.
  cbn [fst rmState reminders timers heap].
  pose proof (userRange_le (userID r) (reminders (rmState w))) as Hi.
  pose proof (paired_length _ Hp) as Hl.
  set (i := snd (userRange _ _)) in *.
  rewrite !slice_insert_spec by lia.
  exists i, (mkTimer (now + Until now (expiration r))%Z r Armed).
  split; [apply list_lookup_middle; rewrite length_take; lia|].
  split; [apply list_lookup_middle; rewrite length_take; lia|].
  split; [by apply list_lookup_middle|].
  split; [done|]. split; [done|].
  split.
  { intros tp t0 H0. rewrite lookup_app_l; [done|by eapply lookup_lt_Some]. }
  split; rewrite length_app, length_take; cbn [length]; rewrite length_drop; lia.
Qed.

(** [bob] schedules his first reminder; it sorts after the two of [alice]. *)
Lemma Add_stores_the_reminder_with_an_armed_timer_witness :
  paired wMilkMom /\
  due t0 (mkReminder bob t0 (t0 + 1 * Hour)%Z "stand up") = false /\
  exists k t,
    reminders (rmState (fst (Add t0 (mkReminder bob t0 (t0 + 1 * Hour)%Z "stand up") wMilkMom))) !! k
      = Some (mkReminder bob t0 (t0 + 1 * Hour)%Z "stand up") /\
    timers (rmState (fst (Add t0 (mkReminder bob t0 (t0 + 1 * Hour)%Z "stand up") wMilkMom))) !! k
      = Some (length (heap wMilkMom)) /\
    heap (fst (Add t0 (mkReminder bob t0 (t0 + 1 * Hour)%Z "stand up") wMilkMom))
      !! length (heap wMilkMom) = Some t /\
    tm_reminder t = mkReminder bob t0 (t0 + 1 * Hour)%Z "stand up" /\
    tm_status t = Armed /\
    (forall tp t0',
       heap wMilkMom !! tp = Some t0' ->
       heap (fst (Add t0 (mkReminder bob t0 (t0 + 1 * Hour)%Z "stand up") wMilkMom)) !! tp
         = Some t0') /\
    length (reminders (rmState (fst (Add t0 (mkReminder bob t0 (t0 + 1 * Hour)%Z "stand up") wMilkMom))))
      = S (length (reminders (rmState wMilkMom))) /\
    length (timers (rmState (fst (Add t0 (mkReminder bob t0 (t0 + 1 * Hour)%Z "stand up") wMilkMom))))
      = S (length (timers (rmState wMilkMom))).
Proof.
  assert (paired wMilkMom) as Hp.
  { repeat constructor; eexists; split; vm_compute; reflexivity. }
  assert (due t0 (mkReminder bob t0 (t0 + 1 * Hour)%Z "stand up") = false) as Hd
    by (vm_compute; reflexivity).
  split; [exact Hp|]. split; [exact Hd|].
  exact (Add_stores_the_reminder_with_an_armed_timer t0 _ wMilkMom Hp Hd).
Defined.

(** ** Armed timers and the store *)

Lemma elem_of_delete_ne (ts : list nat) k tp tp' :
  ts !! k = Some tp -> tp' <> tp -> tp' ∈ ts -> tp' ∈ delete k ts.
Proof.
  intros Hk Hne [i Hi]%list_elem_of_lookup_1.
  destruct (decide (i < k)) as [Hlt|Hge].
  - apply list_elem_of_lookup_2 with i. by rewrite list_lookup_delete_lt.
  - destruct i as [|i].
    + assert (k = 0) as -> by lia. congruence.
    + destruct (decide (S i = k)) as [<-|Hik]; [congruence|].
      apply list_elem_of_lookup_2 with i. rewrite list_lookup_delete_ge by lia. done.
Qed.

Lemma stopAll_length h tps : length (stopAll h tps) = length h.
Proof.
  unfold stopAll. revert h. induction tps as [|tp tps IH]; intros h; cbn; [done|].
  rewrite IH. unfold stopTimer. destruct (h !! tp); [apply length_insert|done].
Qed.

Lemma stopAll_unarms w tp t :
  armed_are_stored w ->
  stopAll (heap w) (timers (rmState w)) !! tp = Some t -> tm_status t <> Armed.
Proof.
  intros Hinv Ht. eapply stopAll_not_armed; [exact Ht|].
  destruct (heap w !! tp) as [t0|] eqn:H0.
  - destruct (tm_status t0) eqn:Hs.
    + left. by eapply Hinv.
    + right. exists t0. by rewrite Hs.
    + right. exists t0. by rewrite Hs.
  - apply lookup_lt_Some in Ht. rewrite stopAll_length in Ht.
    apply lookup_ge_None in H0. lia.
Qed.

Lemma armed_are_stored_empty : armed_are_stored emptyWorld.
Proof. intros tp t Ht. done. Qed.

Lemma armed_are_stored_Add now r w :
  paired w -> armed_are_stored w -> armed_are_stored (fst (Add now r w)).
Proof.
  intros Hp Hinv. destruct (due now r) eqn:Hd.
  { by rewrite Add_due. }
  rewrite Add_not_due by done. cbn [fst].
  pose proof (userRange_le (userID r) (reminders (rmState w))) as Hi.
  pose proof (paired_length _ Hp) as Hl.
  intros tp t. cbn [heap rmState timers].
  rewrite slice_insert_spec by lia.
  intros Ht Hs. apply elem_of_app.
  destruct (decide (tp < length (heap w))) as [Hlt|Hge].
  - rewrite lookup_app_l in Ht by done.
    pose proof (Hinv _ _ Ht Hs) as Hin.
    rewrite <- (take_drop (snd (userRange (userID r) (reminders (rmState w))))
                  (timers (rmState w))) in Hin.
    apply elem_of_app in Hin as [Hin|Hin]; [by left|right; by right].
  - right. apply lookup_lt_Some in Ht.
    rewrite length_app in Ht. cbn in Ht.
    assert (tp = length (heap w)) as -> by lia. by left.
Qed.

Lemma armed_are_stored_Remove uid exp w :
  armed_are_stored w -> armed_are_stored (world_of (Remove uid exp w)).
Proof.
  intros Hinv. unfold Remove.
  destruct (findExact _ _ _) as [| |k]; [done|done|].
  destruct (timers _ !! k) as [tp|] eqn:Htp; [|done].
  destruct (heap w !! tp) as [t|] eqn:Ht; [|done].
  unfold Stop. destruct (tm_status t) eqn:Hst; cbn [negb world_of]; [|done|done].
  intros tp' t'. cbn [heap rmState timers].
  rewrite slice_remove_spec by (by eapply lookup_lt_Some).
  destruct (decide (tp' = tp)) as [->|Hne].
  - rewrite list_lookup_insert_eq by (by eapply lookup_lt_Some).
    by intros [= <-].
  - rewrite list_lookup_insert_ne by done. intros Ht' Hs'.
    eapply elem_of_delete_ne; [exact Htp|done|by eapply Hinv].
Qed.

Lemma armed_are_stored_expire tp w :
  armed_are_stored w -> armed_are_stored (from_option snd w (expire tp w)).
Proof.
  intros Hinv. unfold expire. destruct (heap w !! tp) as [t|] eqn:Ht; [|done].
  destruct (tm_status t) eqn:Hst; [|done|done].
  cbn [from_option snd]. intros tp' t'. cbn [heap rmState].
  destruct (decide (tp' = tp)) as [->|Hne].
  - rewrite list_lookup_insert_eq by (by eapply lookup_lt_Some).
    by intros [= <-].
  - rewrite list_lookup_insert_ne by done. apply Hinv.
Qed.

Lemma armed_are_stored_timerCallback r w :
  armed_are_stored w -> armed_are_stored (world_of (timerCallback r w)).
Proof.
  intros Hinv. unfold timerCallback.
  pose proof (armed_are_stored_Remove (userID r) (expiration r) w Hinv) as H.
  by destruct (Remove _ _ _).
Qed.

Lemma armed_are_stored_stopped w rs :
  armed_are_stored w ->
  armed_are_stored (mkWorld rs (stopAll (heap w) (timers (rmState w)))).
Proof.
  intros Hinv tp t Ht Hs. cbn [heap] in Ht.
  by destruct (stopAll_unarms w tp t Hinv Ht).
Qed.

Lemma armed_are_stored_ReadFrom_loop b clock k rr w tr :
  paired w -> armed_are_stored w ->
  armed_are_stored (world_of (ReadFrom_loop b clock k rr w tr)).
Proof.
  revert k rr w tr. induction b as [|b IH]; intros k rr w tr Hp Hinv;
    cbn [ReadFrom_loop]; [done|].
  destruct (Csv.Read rr) as [record rr'| |e]; [|done|done].
  destruct record as [|f0 [|f1 rest1]]; [done|done|].
  destruct (parseTime f1); [|done].
  destruct rest1 as [|f2 rest2]; [done|].
  destruct (parseTime f2) as [ex|]; [|done].
  destruct rest2 as [|f3 rest3]; [done|].
  pose proof (paired_Add (clock k) (mkReminder f0 t ex f3) w Hp) as Hp'.
  pose proof (armed_are_stored_Add (clock k) (mkReminder f0 t ex f3) w Hp Hinv) as Hi'.
  destruct (Add _ _ _) as [w' tr']. by apply IH.
Qed.

Lemma armed_are_stored_step w o :
  paired w -> armed_are_stored w -> armed_are_stored (step w o).
Proof.
  intros Hp Hinv. destruct o; cbn [step].
  - by apply armed_are_stored_Add.
  - by apply armed_are_stored_Remove.
  - unfold fire. pose proof (armed_are_stored_expire tp w Hinv) as He.
    destruct (expire tp w) as [[r w1]|]; [|done].
    cbn [from_option snd] in *. by apply armed_are_stored_timerCallback.
  - by apply armed_are_stored_expire.
  - by apply armed_are_stored_timerCallback.
  - unfold constructRMState, ReadFrom.
    pose proof (armed_are_stored_ReadFrom_loop (S (length file)) clock 0
                  (Csv.NewReader file) w [] Hp Hinv) as H.
    destruct (ReadFrom_loop _ _ _ _ _ _) as [[e|] w' tr|]; cbn [world_of] in *;
      try done.
    by apply armed_are_stored_stopped.
  - by apply armed_are_stored_stopped.
  - by apply armed_are_stored_stopped.
Qed.

Lemma reachable_invariants ops :
  paired (run ops emptyWorld) /\ armed_are_stored (run ops emptyWorld).
Proof.
  unfold run. generalize paired_empty armed_are_stored_empty. generalize emptyWorld.
  induction ops as [|o ops IH]; intros w Hp Hi; cbn [foldl]; [done|].
  apply IH; [by apply paired_step|by apply armed_are_stored_step].
Qed.

Lemma nothing_armed_nothing_fires w :
  (forall tp t, heap w !! tp = Some t -> tm_status t <> Armed) ->
  forall tp, expire tp w = None /\ fire tp w = None.
Proof.
  intros H tp. unfold fire, expire.
  destruct (heap w !! tp) as [t|] eqn:Ht; [|done].
  specialize (H _ _ Ht). by destruct (tm_status t).
Qed.



(** ** Restore and shutdown *)

(** X11. When [ReadFrom] returns an error in a state the program reaches,
    [constructRMState] logs the failure and returns with an empty store, and
    no timer of the runtime can expire any more: the reminders restored before
    the bad record, and those the store held before, are all dropped with
    their timers stopped. *)
Theorem failed_import_leaves_nothing_scheduled ops clock file e w' tr :
  ReadFrom clock file (run ops emptyWorld) = Returns (Some e) w' tr ->
  constructRMState clock file (run ops emptyWorld)
    = Returns tt (resetState w') (tr ++ [Log msgImport]) /\
  reminders (rmState (resetState w')) = [] /\
  timers (rmState (resetState w')) = [] /\
  forall tp, expire tp (resetState w') = None /\ fire tp (resetState w') = None.
Proof.
  intros H. destruct (reachable_invariants ops) as [Hp Hinv].
  unfold constructRMState. rewrite H.
  split; [done|]. split; [done|]. split; [done|].
  apply nothing_armed_nothing_fires. intros tp t Ht.
  pose proof (armed_are_stored_ReadFrom_loop (S (length file)) clock 0
                (Csv.NewReader file) _ [] Hp Hinv) as Hinv'.
  unfold ReadFrom in H. rewrite H in Hinv'. cbn [world_of] in Hinv'.
  by eapply stopAll_unarms.
Qed.

(** The store holds a reminder of [bob]; the snapshot's second line has a
    timestamp that does not parse. *)
Lemma failed_import_leaves_nothing_scheduled_witness :
  ReadFrom (fun _ => t0) badSecondLine
    (run [OpAdd t0 (mkReminder bob t0 (t0 + 1 * Hour)%Z "stand up")] emptyWorld)
  = Returns
      (Some (InvalidRecord ["1001"; "2030-01-01T00:00:00Z"; "tomorrow"; "x"]))
      (run [OpAdd t0 (mkReminder bob t0 (t0 + 1 * Hour)%Z "stand up");
            OpAdd t0 buyMilk] emptyWorld) [] /\
  (constructRMState (fun _ => t0) badSecondLine
     (run [OpAdd t0 (mkReminder bob t0 (t0 + 1 * Hour)%Z "stand up")] emptyWorld)
   = Returns tt
       (resetState (run [OpAdd t0 (mkReminder bob t0 (t0 + 1 * Hour)%Z "stand up");
                         OpAdd t0 buyMilk] emptyWorld))
       ([] ++ [Log msgImport]) /\
   reminders (rmState (resetState
     (run [OpAdd t0 (mkReminder bob t0 (t0 + 1 * Hour)%Z "stand up");
           OpAdd t0 buyMilk] emptyWorld))) = [] /\
   timers (rmState (resetState
     (run [OpAdd t0 (mkReminder bob t0 (t0 + 1 * Hour)%Z "stand up");
           OpAdd t0 buyMilk] emptyWorld))) = [] /\
   forall tp,
     expire tp (resetState
       (run [OpAdd t0 (mkReminder bob t0 (t0 + 1 * Hour)%Z "stand up");
             OpAdd t0 buyMilk] emptyWorld)) = None /\
     fire tp (resetState
       (run [OpAdd t0 (mkReminder bob t0 (t0 + 1 * Hour)%Z "stand up");
             OpAdd t0 buyMilk] emptyWorld)) = None).
Proof.
  assert (ReadFrom (fun _ => t0) badSecondLine
            (run [OpAdd t0 (mkReminder bob t0 (t0 + 1 * Hour)%Z "stand up")] emptyWorld)
          = Returns
              (Some (InvalidRecord ["1001"; "2030-01-01T00:00:00Z"; "tomorrow"; "x"]))
              (run [OpAdd t0 (mkReminder bob t0 (t0 + 1 * Hour)%Z "stand up");
                    OpAdd t0 buyMilk] emptyWorld) []) as H
    by (vm_compute; reflexivity).
  split; [exact H|].
  exact (failed_import_leaves_nothing_scheduled
           [OpAdd t0 (mkReminder bob t0 (t0 + 1 * Hour)%Z "stand up")]
           (fun _ => t0) badSecondLine _ _ [] H).
Defined.


(** ** Where [ReadFrom] can panic *)

Lemma Read_fields rr record rr' :
  Csv.Read rr = Csv.Record_ record rr' ->
  Csv.FieldsPerRecord rr' = length record /\
  (0 < Csv.FieldsPerRecord rr -> length record = Csv.FieldsPerRecord rr).
Proof.
  unfold Csv.Read.
  destruct (Csv.nextLine _ _) as [[line rest] eof].
  destruct eof; [done|].
  destruct (Csv.parseRecord _ _ _ _ _) as [fs rest'|e]; [|done].
  destruct (0 <? Csv.FieldsPerRecord rr) eqn:Hpos;
    destruct (length fs =? Csv.FieldsPerRecord rr) eqn:Hlen;
    cbn [andb negb]; try done.
  - intros [= <- <-]. cbn [Csv.FieldsPerRecord]. rewrite length_map.
    apply Nat.eqb_eq in Hlen. done.
  - intros [= <- <-]. cbn [Csv.FieldsPerRecord]. rewrite length_map.
    apply Nat.ltb_ge in Hpos. split; [done|lia].
  - intros [= <- <-]. cbn [Csv.FieldsPerRecord]. rewrite length_map.
    apply Nat.ltb_ge in Hpos. split; [done|lia].
Qed.

Lemma ReadFrom_loop_returns b clock k rr w tr :
  4 <= Csv.FieldsPerRecord rr ->
  exists e w' tr', ReadFrom_loop b clock k rr w tr = Returns e w' tr'.
Proof.
  revert k rr w tr. induction b as [|b IH]; intros k rr w tr Hn;
    cbn [ReadFrom_loop]; [by eauto|].
  destruct (Csv.Read rr) as [record rr'| |e] eqn:Hr; [|by eauto|by eauto].
  destruct (Read_fields _ _ _ Hr) as [Hn' Hlen].
  rewrite Hlen in Hn' by lia.
  destruct record as [|f0 [|f1 [|f2 [|f3 rest]]]]; cbn [length] in Hlen; try lia.
  destruct (parseTime f1); [|by eauto].
  destruct (parseTime f2); [|by eauto].
  destruct (Add _ _ _) as [w' tr']. apply IH. lia.
Qed.

(** X13. [ReadFrom] panics in one situation only: the first record of the
    file has fewer than four fields. The panic is then on that first record,
    before anything was added to the store: the world is as it was and
    nothing was delivered or logged. A file whose first record has four
    fields or more never makes [ReadFrom] panic, whatever follows (the csv
    reader refuses a later record with another number of fields). *)
Theorem ReadFrom_panics_on_the_first_record_only clock file w m w' tr :
  ReadFrom clock file w = Panics m w' tr ->
  exists record rr',
    Csv.Read (Csv.NewReader file) = Csv.Record_ record rr' /\
    length record < 4 /\ w' = w /\ tr = [].
Proof.
  unfold ReadFrom. cbn [ReadFrom_loop].
  destruct (Csv.Read (Csv.NewReader file)) as [record rr'| |e] eqn:Hr; [|done|done].
  destruct (Read_fields _ _ _ Hr) as [Hn' _].
  intros H. exists record, rr'. split; [done|].
  destruct record as [|f0 [|f1 rest1]].
  - injection H as _ <- <-. cbn. split; [lia|done].
  - injection H as _ <- <-. cbn. split; [lia|done].
  - destruct (parseTime f1); [|done].
    destruct rest1 as [|f2 rest2].
    + injection H as _ <- <-. cbn. split; [lia|done].
    + destruct (parseTime f2); [|done].
      destruct rest2 as [|f3 rest3].
      * injection H as _ <- <-. cbn. split; [lia|done].
      * destruct (Add _ _ _) as [w1 tr1].
        destruct (ReadFrom_loop_returns (length file) clock 1 rr' w1 ([] ++ tr1))
          as (e & w2 & tr2 & Hret).
        { rewrite Hn'. cbn. lia. }
        congruence.
Qed.

(** The snapshot that was cut short after its second field. *)
Lemma ReadFrom_panics_on_the_first_record_only_witness :
  ReadFrom (fun _ => t0) truncatedSnapshot wMilkMom
    = Panics "index out of range [2]" wMilkMom [] /\
  exists record rr',
    Csv.Read (Csv.NewReader truncatedSnapshot) = Csv.Record_ record rr' /\
    length record < 4 /\ wMilkMom = wMilkMom /\ @nil event = [].
Proof.
  assert (ReadFrom (fun _ => t0) truncatedSnapshot wMilkMom
          = Panics "index out of range [2]" wMilkMom []) as H
    by (vm_compute; reflexivity).
  split; [exact H|].
  exact (ReadFrom_panics_on_the_first_record_only _ _ _ _ _ _ H).
Defined.

(** ** Where the lookup of [Remove] works *)

Lemma descending_split b target :
  descendingByExpiration b -> target ∈ map expiration b ->
  exists p y,
    b !! p = Some y /\ expiration y = target /\
    (forall x z, x <= p -> b !! x = Some z -> (target <= expiration z)%Z) /\
    (forall x z, p < x -> b !! x = Some z -> (expiration z < target)%Z).
Proof.
  induction 1 as [|a b Hs IH Ha]; intros Hin; [by apply elem_of_nil in Hin|].
  destruct (decide (target ∈ map expiration b)) as [Hb|Hb].
  - destruct (IH Hb) as (p & y & Hp & Hy & Hle & Hgt).
    exists (S p), y. split; [done|]. split; [done|]. split.
    + intros [|x] z Hx Hz; cbn in Hz.
      * injection Hz as <-. rewrite <- Hy.
        by eapply (Forall_lookup_1 _ _ _ _ Ha).
      * eapply Hle; [|exact Hz]. lia.
    + intros [|x] z Hx Hz; [lia|]. cbn in Hz. eapply Hgt; [|exact Hz]. lia.
  - cbn [map] in Hin. apply elem_of_cons in Hin as [Hin|Hin]; [|done].
    exists 0, a. split; [done|]. split; [done|]. split.
    + intros x z Hx Hz. assert (x = 0) as -> by lia. cbn in Hz.
      injection Hz as <-. lia.
    + intros [|x] z Hx Hz; [lia|]. cbn in Hz.
      pose proof (Forall_lookup_1 _ _ _ _ Ha Hz) as Hza. cbn in Hza.
      assert (expiration z <> target) as Hne.
      { intros <-. apply Hb. apply list_elem_of_fmap. exists z.
        split; [done|]. by eapply list_elem_of_lookup_2. }
      lia.
Qed.

Lemma findExact_descending l r :
  sortedByUser l ->
  descendingByExpiration (filter (fun x => userID x = userID r) l) ->
  r ∈ l ->
  exists k, findExact (userID r) (expiration r) l = FoundAt k.
Proof.
  intros Hs Hd Hin. unfold findExact.
  rewrite (userRange_sorted (userID r) l Hs).
  rewrite filter_user_cmp in Hd.
  assert (r ∈ filter (fun x => String.compare (userID x) (userID r) = Eq) l) as Hrb.
  { apply list_elem_of_filter. split; [apply compare_refl|done]. }
  pose proof (sorted_three_way (userID r) l Hs) as E.
  set (a := filter (fun x => String.compare (userID x) (userID r) = Lt) l) in *.
  set (b := filter (fun x => String.compare (userID x) (userID r) = Eq) l) in *.
  set (c := filter (fun x => String.compare (userID x) (userID r) = Gt) l) in *.
  clearbody a b c.
  assert (slice l (length a) (length a + length b) = b) as Hsl.
  { unfold slice. rewrite E, drop_app_length.
    replace (length a + length b - length a) with (length b) by lia.
    by rewrite take_app_length. }
  rewrite Hsl.
  destruct (descending_split b (expiration r) Hd) as (p & y & Hp & Hy & Hle & Hgt).
  { apply list_elem_of_fmap. by exists r. }
  pose proof (lookup_lt_Some _ _ _ Hp) as Hpl.
  destruct (Nat.eqb_spec (length a + length b) (length a)); [lia|].
  destruct (Nat.ltb_spec (length a + length b) (length a)); [lia|].
  rewrite (sort_Search_partition (length b) _ (S p)).
  - unfold reminderAt at 1. rewrite nth_lookup, Hp. cbn [default from_option id].
    unfold Equal. rewrite Hy, Z.eqb_refl. cbn [negb]. by eauto.
  - lia.
  - intros x Hx. destruct (lookup_lt_is_Some_2 b x ltac:(lia)) as [z Hz].
    unfold reminderAt. rewrite nth_lookup, Hz. cbn [default from_option].
    unfold Before. apply Z.ltb_ge. eapply Hle; [|exact Hz]. lia.
  - intros x Hx. destruct (lookup_lt_is_Some_2 b x ltac:(lia)) as [z Hz].
    unfold reminderAt. rewrite nth_lookup, Hz. cbn [default from_option].
    unfold Before. apply Z.ltb_lt. eapply Hgt; [|exact Hz]. lia.
Qed.

(** X14. The lookup of [Remove] finds a reminder of the store whenever the
    reminders of its user stand in the store in descending order of
    expiration (as they do when the user has one reminder only): [Remove]
    then returns, does not report that the reminder was not found, and what
    it found is a record of that user with that expiration. *)
Theorem Remove_finds_in_descending_range w r :
  paired w ->
  sortedByUser (reminders (rmState w)) ->
  descendingByExpiration
    (filter (fun x => userID x = userID r) (reminders (rmState w))) ->
  r ∈ reminders (rmState w) ->
  (exists k x,
     findExact (userID r) (expiration r) (reminders (rmState w)) = FoundAt k /\
     reminders (rmState w) !! k = Some x /\
     userID x = userID r /\ expiration x = expiration r) /\
  exists b w' tr,
    Remove (userID r) (expiration r) w = Returns b w' tr /\
    (tr = [Log msgRemoved] \/ tr = [Log msgTriggering]).
Proof.
  intros Hp Hs Hd Hin.
  destruct (findExact_descending _ r Hs Hd Hin) as [k Hk].
  destruct (findExact_FoundAt_user _ _ _ _ Hs Hk) as (x & Hx & Hu & He).
  split; [by eauto 10|].
  unfold Remove. rewrite Hk.
  destruct (Forall2_lookup_l _ _ _ _ _ Hp Hx) as (tp & Htp & t & Ht & _).
  rewrite Htp, Ht. unfold Stop.
  destruct (tm_status t); cbn [negb]; by eauto 10.
Qed.

(** [alice] scheduled the later reminder first; she cancels the earlier
    one. *)
Lemma Remove_finds_in_descending_range_witness :
  paired (run_adds [(t0, callMom); (t0, buyMilk)] emptyWorld) /\
  sortedByUser
    (reminders (rmState (run_adds [(t0, callMom); (t0, buyMilk)] emptyWorld))) /\
  descendingByExpiration
    (filter (fun x => userID x = userID buyMilk)
       (reminders (rmState (run_adds [(t0, callMom); (t0, buyMilk)] emptyWorld)))) /\
  buyMilk ∈ reminders (rmState (run_adds [(t0, callMom); (t0, buyMilk)] emptyWorld)) /\
  ((exists k x,
      findExact (userID buyMilk) (expiration buyMilk)
        (reminders (rmState (run_adds [(t0, callMom); (t0, buyMilk)] emptyWorld)))
        = FoundAt k /\
      reminders (rmState (run_adds [(t0, callMom); (t0, buyMilk)] emptyWorld)) !! k
        = Some x /\
      userID x = userID buyMilk /\ expiration x = expiration buyMilk) /\
   exists b w' tr,
     Remove (userID buyMilk) (expiration buyMilk)
       (run_adds [(t0, callMom); (t0, buyMilk)] emptyWorld) = Returns b w' tr /\
     (tr = [Log msgRemoved] \/ tr = [Log msgTriggering])).
Proof.
  assert (paired (run_adds [(t0, callMom); (t0, buyMilk)] emptyWorld)) as Hp.
  { repeat constructor; eexists; split; vm_compute; reflexivity. }
  assert (sortedByUser
    (reminders (rmState (run_adds [(t0, callMom); (t0, buyMilk)] emptyWorld)))) as Hs.
  { repeat constructor. }
  assert (descendingByExpiration
    (filter (fun x => userID x = userID buyMilk)
       (reminders (rmState (run_adds [(t0, callMom); (t0, buyMilk)] emptyWorld)))))
    as Hd.
  { repeat constructor. vm_compute. discriminate. }
  assert (buyMilk ∈ reminders
    (rmState (run_adds [(t0, callMom); (t0, buyMilk)] emptyWorld))) as Hin.
  { right. left. }
  split; [exact Hp|]. split; [exact Hs|]. split; [exact Hd|]. split; [exact Hin|].
  exact (Remove_finds_in_descending_range _ buyMilk Hp Hs Hd Hin).
Defined.

(** ** Timestamps read back *)

Lemma all_from_spec p base f :
  all_from p base f = true -> forall x, (base <= x < base + Z.pos p)%Z -> f x = true.
Proof.
  revert base. induction p as [p IH|p IH|]; intros base; cbn [all_from].
  - rewrite !andb_true_iff. intros [[H0 H1] H2] x Hx.
    destruct (decide (x = base)) as [->|]; [done|].
    destruct (decide (x < base + 1 + Z.pos p)%Z).
    + apply (IH _ H1). lia.
    + apply (IH _ H2). lia.
  - rewrite !andb_true_iff. intros [H1 H2] x Hx.
    destruct (decide (x < base + Z.pos p)%Z).
    + apply (IH _ H1). lia.
    + apply (IH _ H2). lia.
  - intros H x Hx. by replace x with base by lia.
Qed.

Lemma civil_ok_all doe : (0 <= doe < 146097)%Z -> civil_ok doe = true.
Proof.
  intros H. apply (all_from_spec 146097 0); [|lia].
  vm_compute. reflexivity.
Qed.

Section TimeRoundTrip.
Import RFC3339Nano.
Local Open Scope Z_scope.

Lemma civil_from_days_shift z e :
  civil_from_days (z + 146097 * e) =
  let '(y, m, d) := civil_from_days z in (y + 400 * e, m, d).
Proof.
  unfold civil_from_days. cbv zeta.
  replace ((z + 146097 * e + 719468) / 146097) with ((z + 719468) / 146097 + e).
  2:{ rewrite <- Z.div_add by lia. f_equal. lia. }
  set (era := (z + 719468) / 146097).
  replace (z + 146097 * e + 719468 - (era + e) * 146097)
    with (z + 719468 - era * 146097) by lia.
  set (doe := z + 719468 - era * 146097).
  set (yoe := (doe - doe / 1460 + doe / 36524 - doe / 146096) / 365).
  set (doy := doe - (365 * yoe + yoe / 4 - yoe / 100)).
  set (mp := (5 * doy + 2) / 153).
  destruct (mp <? 10); destruct (_ <=? 2); f_equal; f_equal; lia.
Qed.

Lemma days_from_civil_shift y m d e :
  days_from_civil (y + 400 * e) m d = days_from_civil y m d + 146097 * e.
Proof.
  unfold days_from_civil. cbv zeta.
  assert (forall a, (a + 400 * e) / 400 = a / 400 + e) as Hdiv.
  { intros a. rewrite <- Z.div_add by lia. f_equal. lia. }
  destruct (m <=? 2).
  - replace (y + 400 * e - 1) with (y - 1 + 400 * e) by lia. rewrite Hdiv.
    set (era := (y - 1) / 400).
    replace (y - 1 + 400 * e - (era + e) * 400) with (y - 1 - era * 400) by lia.
    lia.
  - rewrite Hdiv. set (era := y / 400).
    replace (y + 400 * e - (era + e) * 400) with (y - era * 400) by lia.
    lia.
Qed.

Lemma daysIn_shift m y e : daysIn m (y + 400 * e) = daysIn m y.
Proof.
  unfold daysIn, isLeap.
  replace ((y + 400 * e) mod 4) with (y mod 4).
  2:{ replace (y + 400 * e) with (y + 100 * e * 4) by lia. by rewrite Z.mod_add. }
  replace ((y + 400 * e) mod 100) with (y mod 100).
  2:{ replace (y + 400 * e) with (y + 4 * e * 100) by lia. by rewrite Z.mod_add. }
  replace ((y + 400 * e) mod 400) with (y mod 400).
  2:{ replace (y + 400 * e) with (y + e * 400) by lia. by rewrite Z.mod_add. }
  done.
Qed.

Lemma civil_round_trip z :
  let '(y, m, d) := civil_from_days z in
  days_from_civil y m d = z /\ 1 <= m <= 12 /\ 1 <= d <= daysIn m y /\
  (-719528 <= z < 2932897 -> 0 <= y <= 9999).
Proof.
  pose proof (Z.div_mod (z + 719468) 146097 ltac:(lia)) as Hz.
  pose proof (Z.mod_pos_bound (z + 719468) 146097 ltac:(lia)) as Hdoe.
  set (e := (z + 719468) / 146097) in *.
  set (doe := (z + 719468) mod 146097) in *.
  replace z with (doe - 719468 + 146097 * e) by lia.
  rewrite civil_from_days_shift.
  pose proof (civil_ok_all doe Hdoe) as Hok. unfold civil_ok in Hok.
  destruct (civil_from_days (doe - 719468)) as [[y m] d].
  rewrite !andb_true_iff in Hok.
  destruct Hok as [[[[[[[H1 H2] H3] H4] H5] H6] H7] _].
  rewrite days_from_civil_shift, daysIn_shift.
  apply Z.eqb_eq in H1. apply Z.leb_le in H2, H3, H4, H5, H6.
  split; [lia|]. split; [lia|]. split; [lia|].
  intros Hr. destruct (Z.ltb_spec doe 146037).
  - apply Z.leb_le in H7. lia.
  - apply Z.eqb_eq in H7. lia.
Qed.

(** Decimal digits are read back as the number they were written for. *)

Lemma digitVal_digit d : 0 <= d <= 9 -> digitVal (digit d) = Some d.
Proof.
  intros H. destruct d as [|p|p]; [reflexivity| |lia].
  do 4 (destruct p as [p|p|]; try lia; try reflexivity).
Qed.

Lemma number_S w acc s :
  number (S w) acc s =
  match number w acc s with
  | Some (a, c :: s') =>
      match digitVal c with Some d => Some (10 * a + d, s') | None => None end
  | _ => None
  end.
Proof.
  revert acc s. induction w as [|w IH]; intros acc s.
  - cbn. destruct s as [|c s]; [done|]. by destruct (digitVal c).
  - cbn [number]. destruct s as [|c s]; [done|].
    destruct (digitVal c) as [d|]; [|done].
    rewrite <- IH. reflexivity.
Qed.

Lemma number_digits w acc n rest :
  0 <= n < 10 ^ Z.of_nat w ->
  number w acc (digits w n ++ rest) = Some (acc * 10 ^ Z.of_nat w + n, rest).
Proof.
  revert n rest. induction w as [|w IH]; intros n rest Hn.
  - cbn. f_equal. f_equal. change (10 ^ Z.of_nat 0) with 1 in Hn. lia.
  - rewrite number_S. cbn [digits]. rewrite <- app_assoc. cbn [app].
    rewrite Nat2Z.inj_succ, Z.pow_succ_r in * by lia.
    rewrite IH by (split; [apply Z.div_pos; lia|apply Z.div_lt_upper_bound; lia]).
    rewrite digitVal_digit by (pose proof (Z.mod_pos_bound n 10); lia).
    f_equal. f_equal.
    pose proof (Z.div_mod n 10 ltac:(lia)). lia.
Qed.


Lemma digits_decimal w n :
  0 <= n < 10 ^ Z.of_nat w ->
  exists ds, digits w n = map digit ds /\ Forall decimal ds /\ length ds = w /\
    forall acc, foldl (fun a d => 10 * a + d) acc ds = acc * 10 ^ Z.of_nat w + n.
Proof.
  revert n. induction w as [|w IH]; intros n Hn.
  - exists []. change (10 ^ Z.of_nat 0) with 1 in *. repeat split; [constructor|].
    intros acc. cbn. lia.
  - rewrite Nat2Z.inj_succ, Z.pow_succ_r in * by lia.
    destruct (IH (n / 10)) as (ds & Hds & Hdec & Hlen & Hval).
    { split; [apply Z.div_pos; lia|apply Z.div_lt_upper_bound; lia]. }
    pose proof (Z.mod_pos_bound n 10 ltac:(lia)) as Hm.
    exists (ds ++ [n mod 10]). cbn [digits]. rewrite Hds, map_app. cbn [map].
    split; [done|]. split.
    { apply Forall_app. split; [done|]. constructor; [unfold decimal; lia|constructor]. }
    split; [rewrite length_app; cbn; lia|].
    intros acc. rewrite foldl_app. cbn [foldl]. rewrite Hval.
    pose proof (Z.div_mod n 10 ltac:(lia)). lia.
Qed.

Lemma digit_zero d : decimal d -> Ascii.eqb (digit d) "0"%char = bool_decide (d = 0).
Proof.
  unfold decimal. intros H. destruct d as [|p|p]; [reflexivity| |lia].
  do 4 (destruct p as [p|p|]; try lia; try reflexivity).
Qed.

Lemma dropZeros_decimal s :
  Forall decimal s ->
  exists k s', s = replicate k 0 ++ s' /\ dropZeros (map digit s) = map digit s'.
Proof.
  induction 1 as [|d s Hd Hs IH].
  - by exists 0%nat, [].
  - cbn [map dropZeros]. rewrite digit_zero by done. case_bool_decide as H0.
    + destruct IH as (k & s' & -> & Hdz). subst d. by exists (S k), s'.
    + by exists 0%nat, (d :: s).
Qed.

Lemma rev_replicate {A} k (x : A) : rev (replicate k x) = replicate k x.
Proof.
  induction k as [|k IH]; [done|]. cbn [replicate rev]. rewrite IH.
  symmetry. apply replicate_cons_app.
Qed.

Lemma foldl_zeros k acc :
  foldl (fun a d => 10 * a + d) acc (replicate k 0) = acc * 10 ^ Z.of_nat k.
Proof.
  revert acc. induction k as [|k IH]; intros acc.
  - cbn. lia.
  - cbn [replicate foldl]. rewrite IH, Nat2Z.inj_succ, Z.pow_succ_r by lia. lia.
Qed.

Lemma spanDigits_decimal l c r :
  Forall decimal l -> digitVal c = None ->
  spanDigits (map digit l ++ c :: r) = (l, c :: r).
Proof.
  intros Hl Hc. induction Hl as [|d l Hd Hl IH]; cbn [map app spanDigits].
  - by rewrite Hc.
  - rewrite digitVal_digit by done. by rewrite IH.
Qed.

Lemma parseFraction_fraction nsec r :
  0 <= nsec < 1000000000 ->
  parseFraction (fraction nsec ++ "Z"%char :: r) = (nsec, "Z"%char :: r).
Proof.
  intros Hn. unfold fraction. destruct (Z.eqb_spec nsec 0) as [->|Hne]; [done|].
  destruct (digits_decimal 9 nsec) as (ds & Hds & Hdec & Hlen & Hval); [done|].
  specialize (Hval 0). rewrite Hds, <- map_rev.
  destruct (dropZeros_decimal (rev ds)) as (k & s' & Hs & Hdz).
  { by apply Forall_rev. }
  rewrite Hdz, <- map_rev.
  assert (ds = rev s' ++ replicate k 0) as Hds'.
  { rewrite <- (rev_involutive ds), Hs, rev_app_distr. by rewrite rev_replicate. }
  assert (Forall decimal (rev s')) as Hdec'.
  { rewrite Hds' in Hdec. by apply Forall_app in Hdec as [? _]. }
  cbn [app parseFraction]. change (Ascii.eqb "." ".") with true. cbn match.
  rewrite spanDigits_decimal by done.
  destruct (rev s') as [|d l] eqn:Hrs.
  { exfalso. subst ds. cbn [app] in Hval. rewrite foldl_zeros in Hval. lia. }
  rewrite <- Hrs in *. clear Hrs d l.
  f_equal. unfold nanos.
  assert (length (rev s') + k = 9)%nat as Hk.
  { rewrite <- Hlen, Hds', length_app, length_replicate. done. }
  replace (replicate 9 0) with (replicate k 0 ++ replicate (9 - k) 0).
  2:{ rewrite <- replicate_add. f_equal. lia. }
  rewrite app_assoc, <- Hds', take_app_length' by done. done.
Qed.

Lemma expect_hit c s : expect c ([c] ++ s) = Some s.
Proof. cbn. by rewrite Ascii.eqb_refl. Qed.

Lemma Parse_Format t : formattable t -> Parse (Format t) = Some t.
Proof.
  unfold formattable. intros Ht. unfold Format.
  pose proof (Z.div_mod t 1000000000 ltac:(lia)) as Et.
  pose proof (Z.mod_pos_bound t 1000000000 ltac:(lia)) as Hnsec.
  set (sec := t / 1000000000) in *. set (nsec := t mod 1000000000) in *.
  pose proof (Z.div_mod sec 86400 ltac:(lia)) as Es.
  pose proof (Z.mod_pos_bound sec 86400 ltac:(lia)) as Hs.
  pose proof (civil_round_trip (sec / 86400)) as Hc.
  set (days := sec / 86400) in *. set (s := sec mod 86400) in *.
  destruct (civil_from_days days) as [[y m] d].
  destruct Hc as (Hdays & Hm & Hd & Hy).
  assert (0 <= y <= 9999) as Hy' by (apply Hy; lia). clear Hy.
  assert (daysIn m y <= 31) as Hdi by (unfold daysIn; repeat case_match; lia).
  pose proof (Z.div_mod s 3600 ltac:(lia)) as E1.
  pose proof (Z.mod_pos_bound s 3600 ltac:(lia)) as H1.
  pose proof (Z.div_mod (s mod 3600) 60 ltac:(lia)) as E2.
  pose proof (Z.mod_pos_bound (s mod 3600) 60 ltac:(lia)) as H2.
  assert (s mod 60 = s mod 3600 mod 60) as E3.
  { replace 3600 with (60 * 60) by lia. rewrite Z.rem_mul_r by lia.
    rewrite Z.add_mod, Z.mul_comm, Z.mod_mul, Z.add_0_r, !Z.mod_mod by lia. done. }
  assert (0 <= s / 3600 < 24) as Hhh.
  { split; [apply Z.div_pos; lia|apply Z.div_lt_upper_bound; lia]. }
  assert (0 <= s mod 3600 / 60 < 60) as Hmi.
  { split; [apply Z.div_pos; lia|apply Z.div_lt_upper_bound; lia]. }
  pose proof (Z.mod_pos_bound s 60 ltac:(lia)) as Hss.
  set (hh := s / 3600) in *. set (mi := s mod 3600 / 60) in *.
  set (ss := s mod 60) in *.
  unfold Parse.
  rewrite number_digits by (cbn; lia). cbn [mbind option_bind].
  rewrite expect_hit. cbn [mbind option_bind].
  rewrite number_digits by (cbn; lia). cbn [mbind option_bind].
  rewrite expect_hit. cbn [mbind option_bind].
  rewrite number_digits by (cbn; lia). cbn [mbind option_bind].
  rewrite expect_hit. cbn [mbind option_bind].
  rewrite number_digits by (cbn; lia). cbn [mbind option_bind].
  rewrite expect_hit. cbn [mbind option_bind].
  rewrite number_digits by (cbn; lia). cbn [mbind option_bind].
  rewrite expect_hit. cbn [mbind option_bind].
  rewrite number_digits by (cbn; lia). cbn [mbind option_bind].
  cbn [app]. rewrite parseFraction_fraction by done.
  cbn [parseZone]. change (Ascii.eqb "Z" "Z") with true. cbn [mbind option_bind].
  replace (0 * 10 ^ Z.of_nat 2 + m) with m by lia.
  replace (0 * 10 ^ Z.of_nat 2 + d) with d by lia.
  replace (0 * 10 ^ Z.of_nat 4 + y) with y by lia.
  replace (0 * 10 ^ Z.of_nat 2 + hh) with hh by lia.
  replace (0 * 10 ^ Z.of_nat 2 + mi) with mi by lia.
  replace (0 * 10 ^ Z.of_nat 2 + ss) with ss by lia.
  replace ((1 <=? m) && (m <=? 12) && (1 <=? d) && (d <=? daysIn m y)
           && (hh <? 24) && (mi <? 60) && (ss <? 60)) with true.
  2:{ symmetry. rewrite !andb_true_iff, !Z.leb_le, !Z.ltb_lt. lia. }
  f_equal. rewrite Hdays. lia.
Qed.

End TimeRoundTrip.

(** ** Snapshot lines read back *)

Lemma indexByte_hit c f more :
  c ∉ f -> indexByte c (f ++ c :: more) = Some (length f).
Proof.
  intros Hc. unfold indexByte. induction f as [|x f IH]; cbn.
  - by rewrite decide_True.
  - apply not_elem_of_cons in Hc as [Hx Hf].
    rewrite decide_False by congruence.
    specialize (IH Hf). destruct (list_find _ (f ++ c :: more)) as [[i y]|]; [|done].
    cbn in *. congruence.
Qed.

Lemma indexByte_miss c f : c ∉ f -> indexByte c f = None.
Proof.
  intros Hc. unfold indexByte. induction f as [|x f IH]; cbn; [done|].
  apply not_elem_of_cons in Hc as [Hx Hf].
  rewrite decide_False by congruence.
  specialize (IH Hf). by destruct (list_find _ f) as [[i y]|].
Qed.

Lemma fieldByte_not_elem f :
  Forall fieldByte f -> (comma ∉ f) /\ (dquote ∉ f) /\ (NL ∉ f).
Proof.
  intros H. repeat split; intros Hin;
    apply (Forall_forall fieldByte f) with (x := _) in Hin; try exact H;
    destruct Hin as (? & ? & ?); done.
Qed.

Lemma readSlice_line body rest :
  NL ∉ body -> Csv.readSlice (body ++ NL :: rest) = (body ++ [NL], rest).
Proof.
  intros Hb. induction body as [|c body IH]; cbn [app Csv.readSlice].
  - by rewrite Ascii.eqb_refl.
  - apply not_elem_of_cons in Hb as [Hc Hb].
    destruct (Ascii.eqb_spec c NL) as [->|_]; [done|].
    by rewrite IH.
Qed.

Lemma lengthNL_line body : Csv.lengthNL (body ++ [NL]) = 1.
Proof. unfold Csv.lengthNL. rewrite last_snoc. reflexivity. Qed.

Lemma readLine_line body x rest :
  NL ∉ body -> x <> NL -> x <> CR ->
  Csv.readLine ((body ++ [x]) ++ NL :: rest) = ((body ++ [x]) ++ [NL], rest, false).
Proof.
  intros Hb Hx Hcr. unfold Csv.readLine.
  rewrite readSlice_line.
  2:{ rewrite not_elem_of_app. split; [done|].
      apply not_elem_of_cons. split; [congruence|apply not_elem_of_nil]. }
  destruct ((body ++ [x]) ++ [NL]) as [|c l] eqn:E.
  { by destruct body. }
  rewrite <- E. clear E. f_equal. f_equal.
  unfold Csv.dropTrailingCR. rewrite lengthNL_line. cbn [Nat.eqb andb].
  unfold Csv.normalizeCRLF.
  rewrite bool_decide_eq_false_2.
  2:{ rewrite !length_app. cbn [length].
      replace (length body + 1 + 1 - 2) with (length body) by lia.
      unfold bytes. rewrite lookup_app_l by (rewrite length_app; cbn; lia).
      rewrite list_lookup_middle by done. congruence. }
  by rewrite andb_false_r.
Qed.

Lemma nextLine_line b body x rest :
  NL ∉ body -> x <> NL -> x <> CR ->
  Csv.nextLine b ((body ++ [x]) ++ NL :: rest) = ((body ++ [x]) ++ [NL], rest, false).
Proof.
  intros Hb Hx Hcr. destruct b as [|b]; cbn [Csv.nextLine];
    rewrite readLine_line by done; [done|].
  rewrite lengthNL_line. cbn [negb andb].
  rewrite !length_app. cbn [length].
  destruct (Nat.eqb_spec (length body + 1 + 1) 1); [lia|done].
Qed.

Lemma parse_unquoted b f more rest fs :
  Forall fieldByte f ->
  Csv.parseRecord (S b) None (f ++ comma :: more) rest fs
  = Csv.parseRecord b None more rest (fs ++ [f]).
Proof.
  intros Hf. destruct (fieldByte_not_elem f Hf) as (Hc & Hq & _).
  cbn [Csv.parseRecord].
  destruct (f ++ comma :: more) as [|c line'] eqn:E; [by destruct f|].
  assert (Ascii.eqb c dquote = false) as ->.
  { apply Ascii.eqb_neq. destruct f as [|y f]; cbn in E; injection E as <- _.
    - done.
    - apply Forall_cons in Hf as [(_ & ? & _) _]. done. }
  rewrite <- E. clear E. rewrite indexByte_hit by done.
  rewrite take_app_length.
  rewrite bool_decide_eq_true_2 by (by apply indexByte_miss).
  replace (f ++ comma :: more) with ((f ++ [comma]) ++ more)
    by (by rewrite <- app_assoc).
  rewrite drop_app_length' by (rewrite length_app; cbn; lia). done.
Qed.

Lemma parse_quoted_last b q rest fs :
  dquote ∉ q ->
  Csv.parseRecord (S (S b)) None (dquote :: q ++ [dquote; NL]) rest fs
  = Csv.Fields (fs ++ [q]) rest.
Proof.
  intros Hq. cbn [Csv.parseRecord]. change (Ascii.eqb dquote dquote) with true.
  cbn match. rewrite indexByte_hit by done.
  replace (q ++ [dquote; NL]) with ((q ++ [dquote]) ++ [NL])
    by (by rewrite <- app_assoc).
  rewrite drop_app_length' by (rewrite length_app; cbn; lia).
  rewrite <- (app_assoc q), take_app_length. done.
Qed.

Lemma Read_written_line f0 f1 f2 q rest n :
  Forall fieldByte f0 -> Forall fieldByte f1 -> Forall fieldByte f2 ->
  dquote ∉ q -> NL ∉ q -> n = 0 \/ n = 4 ->
  Csv.Read (Csv.mkReader
    ((f0 ++ [comma] ++ f1 ++ [comma] ++ f2 ++ [comma] ++ ([dquote] ++ q ++ [dquote]))
       ++ [NL] ++ rest) n)
  = Csv.Record_
      [string_of_list_ascii f0; string_of_list_ascii f1;
       string_of_list_ascii f2; string_of_list_ascii q]
      (Csv.mkReader rest 4).
Proof.
  intros H0 H1 H2 Hq Hnl Hn.
  destruct (fieldByte_not_elem f0 H0) as (_ & _ & N0).
  destruct (fieldByte_not_elem f1 H1) as (_ & _ & N1).
  destruct (fieldByte_not_elem f2 H2) as (_ & _ & N2).
  unfold Csv.Read. cbn [Csv.input Csv.FieldsPerRecord].
  set (body := f0 ++ [comma] ++ f1 ++ [comma] ++ f2 ++ [comma] ++ [dquote] ++ q).
  replace (f0 ++ [comma] ++ f1 ++ [comma] ++ f2 ++ [comma] ++ ([dquote] ++ q ++ [dquote]))
    with (body ++ [dquote]).
  2:{ subst body. by rewrite <- !app_assoc. }
  cbn [app]. rewrite nextLine_line; [|subst body|done|done].
  2:{ rewrite !not_elem_of_app, !not_elem_of_cons. repeat split; try done;
        apply not_elem_of_nil. }
  replace ((body ++ [dquote]) ++ [NL])
    with (f0 ++ comma :: f1 ++ comma :: f2 ++ comma :: dquote :: q ++ [dquote; NL]).
  2:{ subst body. rewrite <- !app_assoc. done. }
  set (line := f0 ++ _).
  assert (exists b, 2 + length line + length rest = S (S (S (S (S b))))) as [b ->].
  { exists (length line - 3 + length rest). subst line.
    rewrite !length_app; cbn [length]; rewrite !length_app; cbn [length];
    rewrite !length_app; cbn [length]. rewrite length_app. cbn [length]. lia. }
  subst line.
  rewrite !parse_unquoted by done.
  rewrite parse_quoted_last by done.
  cbn [app length]. destruct Hn as [-> | ->]; done.
Qed.

Lemma digit_fieldByte d : (0 <= d <= 9)%Z -> fieldByte (RFC3339Nano.digit d).
Proof.
  intros H. destruct d as [|p|p]; [by compute| |lia].
  do 4 (destruct p as [p|p|]; try lia; try by compute).
Qed.

Lemma digits_fieldBytes w n : Forall fieldByte (RFC3339Nano.digits w n).
Proof.
  revert n. induction w as [|w IH]; intros n; cbn [RFC3339Nano.digits]; [constructor|].
  apply Forall_app. split; [apply IH|].
  constructor; [|constructor]. apply digit_fieldByte.
  pose proof (Z.mod_pos_bound n 10 ltac:(lia)). lia.
Qed.

Lemma dropZeros_Forall (P : ascii -> Prop) s :
  Forall P s -> Forall P (RFC3339Nano.dropZeros s).
Proof.
  induction 1 as [|c s Hc Hs IH]; cbn [RFC3339Nano.dropZeros]; [constructor|].
  destruct (Ascii.eqb c "0"); [done|by constructor].
Qed.

Lemma Format_fieldBytes t : Forall fieldByte (RFC3339Nano.Format t).
Proof.
  unfold RFC3339Nano.Format.
  destruct (RFC3339Nano.civil_from_days _) as [[y m] d].
  assert (forall c, c = "-"%char \/ c = "T"%char \/ c = ":"%char \/ c = "Z"%char
                    \/ c = "."%char -> fieldByte c) as Hsep.
  { intros c [-> | [-> | [-> | [-> | ->]]]]; by compute. }
  rewrite !Forall_app. repeat split; try apply digits_fieldBytes;
    try (constructor; [apply Hsep; tauto|constructor]).
  unfold RFC3339Nano.fraction. case_match; [constructor|].
  constructor; [apply Hsep; tauto|].
  apply Forall_rev, dropZeros_Forall, Forall_rev, digits_fieldBytes.
Qed.

Lemma appendEscapedRune_bytes c :
  c <> dquote ->
  Forall (fun x => x <> dquote /\ x <> NL) (Strconv.appendEscapedRune c).
Proof.
  destruct c as [[] [] [] [] [] [] [] []]; intros Hc;
    try (exfalso; by apply Hc);
    vm_compute; repeat constructor; discriminate.
Qed.

Lemma escaped_bytes s :
  dquote ∉ list_ascii_of_string s -> (dquote ∉ escaped s) /\ (NL ∉ escaped s).
Proof.
  unfold escaped. induction (list_ascii_of_string s) as [|c l IH]; intros Hq.
  - split; apply not_elem_of_nil.
  - apply not_elem_of_cons in Hq as [Hc Hl]. destruct (IH Hl) as [IH1 IH2].
    cbn [map concat]. rewrite !not_elem_of_app.
    pose proof (appendEscapedRune_bytes c ltac:(congruence)) as Hb.
    rewrite Forall_forall in Hb.
    repeat split; try done; intros Hin; apply Hb in Hin as [? ?]; done.
Qed.

Lemma literal_escape c : literal c = true -> Strconv.appendEscapedRune c = [c].
Proof.
  destruct c as [[] [] [] [] [] [] [] []]; vm_compute; intros H;
    first [reflexivity | discriminate].
Qed.

Lemma escaped_literal s :
  forallb literal (list_ascii_of_string s) = true ->
  string_of_list_ascii (escaped s) = s.
Proof.
  intros H. rewrite <- (string_of_list_ascii_of_string s) at 2. f_equal.
  unfold escaped. induction (list_ascii_of_string s) as [|c l IH]; [done|].
  cbn [forallb] in H. apply andb_true_iff in H as [Hc Hl].
  cbn [map concat]. rewrite (literal_escape c Hc), IH by done. done.
Qed.

Lemma parseTime_Format t :
  formattable t -> parseTime (string_of_list_ascii (RFC3339Nano.Format t)) = Some t.
Proof.
  intros H. unfold parseTime. rewrite list_ascii_of_string_of_list_ascii.
  by apply Parse_Format.
Qed.

Lemma Read_reminder_line r rest n :
  writable r -> n = 0 \/ n = 4 ->
  Csv.Read (Csv.mkReader ((reminder_String r ++ [NL]) ++ rest) n)
  = Csv.Record_
      [userID r; string_of_list_ascii (RFC3339Nano.Format (creation r));
       string_of_list_ascii (RFC3339Nano.Format (expiration r));
       string_of_list_ascii (escaped (message r))]
      (Csv.mkReader rest 4).
Proof.
  intros (Hu & _ & _ & Hm) Hn. destruct (escaped_bytes _ Hm) as [Hq Hnl].
  unfold reminder_String, Strconv.Quote.
  change (concat (map Strconv.appendEscapedRune (list_ascii_of_string (message r))))
    with (escaped (message r)).
  rewrite <- (app_assoc _ [NL] rest).
  rewrite Read_written_line; try done; try apply Format_fieldBytes.
  by rewrite string_of_list_ascii_of_string.
Qed.

Lemma ReadFrom_loop_written l b clock k n w tr :
  Forall writable l -> n = 0 \/ n = 4 -> length l < b ->
  ReadFrom_loop b clock k
    (Csv.mkReader (concat (map (fun r => reminder_String r ++ [NL]) l)) n) w tr
  = (let '(w', tr') := add_all clock k (map restored l) w tr in Returns None w' tr').
Proof.
  revert b k n w tr. induction l as [|r l IH]; intros b k n w tr Hl Hn Hb.
  - destruct b as [|b]; [cbn in Hb; lia|]. reflexivity.
  - destruct b as [|b]; [cbn in Hb; lia|].
    apply Forall_cons in Hl as [Hr Hl].
    cbn [ReadFrom_loop map concat]. rewrite Read_reminder_line by done.
    destruct Hr as (_ & Hc & He & _).
    rewrite !parseTime_Format by done.
    change (mkReminder (userID r) (creation r) (expiration r)
              (string_of_list_ascii (escaped (message r)))) with (restored r).
    cbn [add_all]. destruct (Add (clock k) (restored r) w) as [w' tr'].
    apply IH; [done|by right|cbn in Hb; lia].
Qed.

Lemma WriteTo_length rs : length (reminders rs) <= length (WriteTo rs).
Proof.
  unfold WriteTo. induction (reminders rs) as [|r l IH]; [done|].
  cbn [map concat length]. rewrite !length_app. cbn [length]. lia.
Qed.


(** Adding, in order, a list that continues the store's order by userID. *)
Lemma add_all_sorted clock k l w tr :
  sortedByUser (reminders (rmState w) ++ l) ->
  (forall i r, l !! i = Some r -> due (clock (k + i)) r = false) ->
  reminders (rmState (add_all clock k l w tr).1) = reminders (rmState w) ++ l /\
  (add_all clock k l w tr).2 = tr.
Proof.
  revert k w tr. induction l as [|r l IH]; intros k w tr Hs Hd.
  - cbn. by rewrite app_nil_r.
  - cbn [add_all].
    assert (due (clock k) r = false) as Hdr.
    { specialize (Hd 0 r eq_refl). by rewrite Nat.add_0_r in Hd. }
    assert (sortedByUser (reminders (rmState w))) as Hsw.
    { unfold sortedByUser in *. by apply StronglySorted_app_1_l in Hs. }
    assert (Forall (fun x => ~ String.compare (userID x) (userID r) = Gt)
              (reminders (rmState w))) as Hle.
    { apply Forall_forall. intros x Hx. apply leb_cmp.
      eapply (StronglySorted_app_1_elem_of _ _ _ x r Hs); [done|by left]. }
    pose proof (Add_reminders_sorted (clock k) r w Hsw Hdr) as Hadd.
    pose proof (sorted_three_way (userID r) _ Hsw) as E.
    rewrite (filter_none (fun x => String.compare (userID x) (userID r) = Gt))
      in Hadd, E by done.
    rewrite app_nil_r in E. rewrite <- E in Hadd.
    rewrite Add_not_due in Hadd |- * by done. cbn [fst] in Hadd.
    set (w1 := mkWorld _ _) in *. clearbody w1.
    rewrite app_nil_r.
    destruct (IH (S k) w1 tr) as [IH1 IH2].
    + rewrite Hadd. by rewrite <- app_assoc.
    + intros i x Hx. replace (S k + i) with (k + S i) by lia. by apply Hd.
    + split; [rewrite IH1, Hadd; by rewrite <- app_assoc|done].
Qed.

(** X17. The round trip of a snapshot: for a store that is sorted by userID,
    whose reminders are all writable, whose messages are of printable ASCII
    characters other than the quote and the backslash (which [%q] copies as
    they are), and of which none is due when it is added back,
    [ReadFrom] on the bytes of [WriteTo], into the empty store, returns nil,
    delivers nothing, and leaves a store with the same reminders in the same
    order; its snapshot is the same bytes again. *)
Theorem snapshot_round_trip clock rs :
  sortedByUser (reminders rs) ->
  Forall writable (reminders rs) ->
  Forall (fun r => forallb literal (list_ascii_of_string (message r)) = true)
    (reminders rs) ->
  (forall i r, reminders rs !! i = Some r -> due (clock i) r = false) ->
  exists w',
    ReadFrom clock (WriteTo rs) emptyWorld = Returns None w' [] /\
    reminders (rmState w') = reminders rs /\
    WriteTo (rmState w') = WriteTo rs.
Proof.
  intros Hs Hw Hl Hd. unfold ReadFrom, Csv.NewReader.
  pose proof (WriteTo_length rs) as Hlen. unfold WriteTo in Hlen |- * at 1 2.
  rewrite ReadFrom_loop_written; [|done|by left|lia].
  assert (map restored (reminders rs) = reminders rs) as Hmap.
  { clear Hs Hw Hd Hlen. induction Hl as [|r l Hr Hl IH]; [done|].
    cbn [map]. rewrite IH. f_equal. unfold restored.
    rewrite escaped_literal by done. by destruct r. }
  rewrite Hmap.
  destruct (add_all_sorted clock 0 (reminders rs) emptyWorld []) as [H1 H2];
    [done|done|].
  destruct (add_all _ _ _ _ _) as [w' tr]. cbn [fst snd] in *. subst tr.
  exists w'. split; [done|]. split; [done|].
  unfold WriteTo. by rewrite H1.
Qed.

(** X15. A time of the years 0000 to 9999, written in the RFC3339Nano layout
    as [reminder.String] and the [list] branch write it, is one csv field (no
    comma, quote or newline in it) and parses back, as [ReadFrom] and the
    [cancel] branch parse it, to the same instant, to the nanosecond. *)
Theorem timestamp_round_trip t :
  formattable t ->
  RFC3339Nano.Parse (RFC3339Nano.Format t) = Some t /\
  parseTime (string_of_list_ascii (RFC3339Nano.Format t)) = Some t /\
  Forall fieldByte (RFC3339Nano.Format t).
Proof.
  intros Ht. split; [by apply Parse_Format|].
  split; [by apply parseTime_Format|apply Format_fieldBytes].
Qed.

(** One and a half seconds past the hour. *)
Lemma timestamp_round_trip_witness :
  formattable (t0 + 1500000000)%Z /\
  (RFC3339Nano.Parse (RFC3339Nano.Format (t0 + 1500000000)%Z)
     = Some (t0 + 1500000000)%Z /\
   parseTime (string_of_list_ascii (RFC3339Nano.Format (t0 + 1500000000)%Z))
     = Some (t0 + 1500000000)%Z /\
   Forall fieldByte (RFC3339Nano.Format (t0 + 1500000000)%Z)).
Proof.
  assert (formattable (t0 + 1500000000)%Z) as Ht by (unfold formattable, t0; lia).
  split; [exact Ht|].
  exact (timestamp_round_trip (t0 + 1500000000)%Z Ht).
Defined.


(** The two reminders of [alice], restored one hour before the first is
    due. *)
Lemma snapshot_round_trip_witness :
  sortedByUser (reminders (mkState [buyMilk; callMom] [0; 1])) /\
  Forall writable (reminders (mkState [buyMilk; callMom] [0; 1])) /\
  Forall (fun r => forallb literal (list_ascii_of_string (message r)) = true)
    (reminders (mkState [buyMilk; callMom] [0; 1])) /\
  (forall i r, reminders (mkState [buyMilk; callMom] [0; 1]) !! i = Some r ->
     due ((fun _ => t0) i) r = false) /\
  exists w',
    ReadFrom (fun _ => t0) (WriteTo (mkState [buyMilk; callMom] [0; 1])) emptyWorld
      = Returns None w' [] /\
    reminders (rmState w') = reminders (mkState [buyMilk; callMom] [0; 1]) /\
    WriteTo (rmState w') = WriteTo (mkState [buyMilk; callMom] [0; 1]).
Proof.
  assert (sortedByUser (reminders (mkState [buyMilk; callMom] [0; 1]))) as Hs.
  { repeat constructor. }
  assert (Forall writable (reminders (mkState [buyMilk; callMom] [0; 1]))) as Hw.
  { repeat apply Forall_cons_2; [| |constructor]; repeat split;
      try (vm_compute; repeat constructor; discriminate);
      try (unfold t0, Hour, Second; cbn; lia);
      vm_compute; intros H;
      repeat (apply elem_of_cons in H as [H|H]; [discriminate|]);
      by apply elem_of_nil in H. }
  assert (Forall (fun r => forallb literal (list_ascii_of_string (message r)) = true)
            (reminders (mkState [buyMilk; callMom] [0; 1]))) as Hl.
  { repeat constructor. }
  assert (forall i r, reminders (mkState [buyMilk; callMom] [0; 1]) !! i = Some r ->
            due ((fun _ => t0) i) r = false) as Hd.
  { intros [|[|i]] r [= <-]; vm_compute; reflexivity. }
  split; [exact Hs|]. split; [exact Hw|]. split; [exact Hl|]. split; [exact Hd|].
  exact (snapshot_round_trip (fun _ => t0) (mkState [buyMilk; callMom] [0; 1])
           Hs Hw Hl Hd).
Defined.

(** ** Cancelling what was listed *)

(** X18. The [list] branch prints the expiration of a reminder in the
    RFC3339Nano layout and the [cancel] branch parses its argument in the
    same layout: given the expiration as it was listed, in any state the
    program reaches, the [cancel] branch does not send the usage text; it
    reacts with the result of [Remove] for the author and that very
    instant. *)
Theorem cancel_with_listed_expiration ops uid exp :
  formattable exp ->
  exists b w' tr,
    Remove uid exp (run ops emptyWorld) = Returns b w' tr /\
    cancelBranch uid (RFC3339Nano.Format exp) (run ops emptyWorld)
      = Returns (Reaction b) w' tr.
Proof.
  intros He. destruct (reachable_paired_sorted ops) as [Hp _].
  destruct (Remove_returns uid exp _ Hp) as (b & w' & tr & Hr).
  exists b, w', tr. split; [done|].
  unfold cancelBranch. rewrite Parse_Format by done. by rewrite Hr.
Qed.

(** [alice] cancels her only reminder. *)
Lemma cancel_with_listed_expiration_witness :
  formattable (expiration buyMilk) /\
  exists b w' tr,
    Remove alice (expiration buyMilk) (run [OpAdd t0 buyMilk] emptyWorld)
      = Returns b w' tr /\
    cancelBranch alice (RFC3339Nano.Format (expiration buyMilk))
      (run [OpAdd t0 buyMilk] emptyWorld)
      = Returns (Reaction b) w' tr.
Proof.
  assert (formattable (expiration buyMilk)) as He.
  { unfold formattable, buyMilk, t0, Hour, Second. cbn [expiration]. lia. }
  split; [exact He|].
  exact (cancel_with_listed_expiration [OpAdd t0 buyMilk] alice _ He).
Defined.

(** ** A bad line in the middle of a snapshot *)




(** ** Which snapshot is restored *)

Section SnapshotNames.
Import RFC3339Nano.
Local Open Scope Z_scope.

Lemma date_lt_shift y m d y' m' d' e :
  date_lt (y + 400 * e, m, d) (y' + 400 * e, m', d') = date_lt (y, m, d) (y', m', d').
Proof.
  unfold date_lt.
  replace (y + 400 * e <? y' + 400 * e) with (y <? y').
  2:{ destruct (Z.ltb_spec y y'), (Z.ltb_spec (y + 400 * e) (y' + 400 * e)); lia. }
  replace (y + 400 * e =? y' + 400 * e) with (y =? y').
  2:{ destruct (Z.eqb_spec y y'), (Z.eqb_spec (y + 400 * e) (y' + 400 * e)); lia. }
  done.
Qed.

Lemma civil_succ z : date_lt (civil_from_days z) (civil_from_days (z + 1)) = true.
Proof.
  pose proof (Z.div_mod (z + 719468) 146097 ltac:(lia)) as Hz.
  pose proof (Z.mod_pos_bound (z + 719468) 146097 ltac:(lia)) as Hdoe.
  set (e := (z + 719468) / 146097) in *.
  set (doe := (z + 719468) mod 146097) in *.
  replace (z + 1) with (doe + 1 - 719468 + 146097 * e) by lia.
  replace z with (doe - 719468 + 146097 * e) at 1 by lia.
  rewrite !civil_from_days_shift.
  pose proof (civil_ok_all doe Hdoe) as Hok. unfold civil_ok in Hok.
  destruct (civil_from_days (doe - 719468)) as [[y m] d].
  apply andb_true_iff in Hok as [_ Hok].
  destruct (civil_from_days (doe + 1 - 719468)) as [[y' m'] d'].
  by rewrite date_lt_shift.
Qed.

Lemma date_lt_trans a b c :
  date_lt a b = true -> date_lt b c = true -> date_lt a c = true.
Proof.
  destruct a as [[y m] d], b as [[y' m'] d'], c as [[y'' m''] d''].
  unfold date_lt.
  rewrite !orb_true_iff, !andb_true_iff, !orb_true_iff, !andb_true_iff,
    !Z.ltb_lt, !Z.eqb_eq. lia.
Qed.

Lemma civil_lt z z' :
  z < z' -> date_lt (civil_from_days z) (civil_from_days z') = true.
Proof.
  intros H. replace z' with (z + 1 + Z.of_nat (Z.to_nat (z' - z - 1))) by lia.
  induction (Z.to_nat (z' - z - 1)) as [|n IH].
  - rewrite Z.add_0_r. apply civil_succ.
  - eapply date_lt_trans; [exact IH|].
    replace (z + 1 + Z.of_nat (S n)) with (z + 1 + Z.of_nat n + 1) by lia.
    apply civil_succ.
Qed.

End SnapshotNames.

(** Bytewise comparison of fixed-width fields. *)

Lemma cmpB_refl a : cmpB a a = Eq.
Proof. unfold cmpB. apply compare_refl. Qed.

Lemma cmpB_app a a' r r' :
  length a = length a' ->
  cmpB (a ++ r) (a' ++ r') = match cmpB a a' with Eq => cmpB r r' | c => c end.
Proof.
  unfold cmpB. revert a'. induction a as [|c a IH]; intros [|c' a'] Hl;
    cbn in Hl; try lia; [done|].
  cbn [app string_of_list_ascii String.compare].
  destruct (Ascii.compare c c'); [|done|done].
  apply IH. lia.
Qed.

Lemma digits_length w n : length (RFC3339Nano.digits w n) = w.
Proof.
  revert n. induction w as [|w IH]; intros n; cbn [RFC3339Nano.digits]; [done|].
  rewrite length_app, IH. cbn. lia.
Qed.

Lemma cmpB_digit d d' :
  decimal d -> decimal d' ->
  cmpB [RFC3339Nano.digit d] [RFC3339Nano.digit d'] = (d ?= d')%Z.
Proof.
  unfold decimal. intros Hd Hd'.
  assert (d = 0 \/ d = 1 \/ d = 2 \/ d = 3 \/ d = 4 \/ d = 5 \/ d = 6 \/ d = 7
          \/ d = 8 \/ d = 9)%Z as H by lia.
  assert (d' = 0 \/ d' = 1 \/ d' = 2 \/ d' = 3 \/ d' = 4 \/ d' = 5 \/ d' = 6
          \/ d' = 7 \/ d' = 8 \/ d' = 9)%Z as H' by lia.
  clear Hd Hd'.
  repeat (destruct H as [H|H]; [subst d|]); try subst d;
    repeat (destruct H' as [H'|H']; [subst d'|]); try subst d'; reflexivity.
Qed.

Lemma cmpB_digits w n n' :
  (0 <= n < 10 ^ Z.of_nat w)%Z -> (0 <= n' < 10 ^ Z.of_nat w)%Z ->
  cmpB (RFC3339Nano.digits w n) (RFC3339Nano.digits w n') = (n ?= n')%Z.
Proof.
  revert n n'. induction w as [|w IH]; intros n n' Hn Hn'.
  - change (10 ^ Z.of_nat 0)%Z with 1%Z in *.
    assert (n = 0 /\ n' = 0)%Z as [-> ->] by lia. reflexivity.
  - rewrite Nat2Z.inj_succ, Z.pow_succ_r in * by lia.
    cbn [RFC3339Nano.digits]. rewrite cmpB_app by (by rewrite !digits_length).
    pose proof (Z.div_mod n 10 ltac:(lia)) as En.
    pose proof (Z.div_mod n' 10 ltac:(lia)) as En'.
    pose proof (Z.mod_pos_bound n 10 ltac:(lia)) as Hm.
    pose proof (Z.mod_pos_bound n' 10 ltac:(lia)) as Hm'.
    rewrite IH.
    2,3: split; [apply Z.div_pos; lia|apply Z.div_lt_upper_bound; lia].
    rewrite cmpB_digit by (unfold decimal; lia).
    destruct (Z.compare_spec (n / 10) (n' / 10));
      destruct (Z.compare_spec (n mod 10) (n' mod 10));
      destruct (Z.compare_spec n n'); try done; lia.
Qed.

Lemma cmpB_field w n n' r r' :
  (0 <= n < 10 ^ Z.of_nat w)%Z -> (0 <= n' < 10 ^ Z.of_nat w)%Z ->
  cmpB (RFC3339Nano.digits w n ++ r) (RFC3339Nano.digits w n' ++ r')
  = match (n ?= n')%Z with Eq => cmpB r r' | c => c end.
Proof.
  intros Hn Hn'. rewrite cmpB_app by (by rewrite !digits_length).
  by rewrite cmpB_digits.
Qed.

Lemma cmpB_sep c r r' : cmpB ([c] ++ r) ([c] ++ r') = cmpB r r'.
Proof. rewrite cmpB_app by done. by rewrite cmpB_refl. Qed.

Section NameOrder.
Import RFC3339Nano.
Local Open Scope Z_scope.

Lemma clock_fields s :
  0 <= s < 86400 ->
  0 <= s / 3600 < 24 /\ 0 <= s mod 3600 / 60 < 60 /\ 0 <= s mod 60 < 60 /\
  s = s / 3600 * 3600 + s mod 3600 / 60 * 60 + s mod 60.
Proof.
  intros Hs.
  pose proof (Z.div_mod s 3600 ltac:(lia)) as E1.
  pose proof (Z.mod_pos_bound s 3600 ltac:(lia)) as H1.
  pose proof (Z.div_mod (s mod 3600) 60 ltac:(lia)) as E2.
  pose proof (Z.mod_pos_bound (s mod 3600) 60 ltac:(lia)) as H2.
  assert (s mod 60 = s mod 3600 mod 60) as E3.
  { replace 3600 with (60 * 60) by lia. rewrite Z.rem_mul_r by lia.
    rewrite Z.add_mod, Z.mul_comm, Z.mod_mul, Z.add_0_r, !Z.mod_mod by lia. done. }
  assert (0 <= s / 3600 < 24).
  { split; [apply Z.div_pos; lia|apply Z.div_lt_upper_bound; lia]. }
  assert (0 <= s mod 3600 / 60 < 60).
  { split; [apply Z.div_pos; lia|apply Z.div_lt_upper_bound; lia]. }
  lia.
Qed.

Lemma Format_mono u t :
  formattable u -> formattable t ->
  u / 1000000000 <= t / 1000000000 ->
  cmpB (RFC3339.Format u) (RFC3339.Format t) <> Gt.
Proof.
  unfold formattable. intros Hu Ht Hle. unfold RFC3339.Format.
  pose proof (Z.div_mod u 1000000000 ltac:(lia)) as Eu.
  pose proof (Z.mod_pos_bound u 1000000000 ltac:(lia)) as Hnu.
  pose proof (Z.div_mod t 1000000000 ltac:(lia)) as Et.
  pose proof (Z.mod_pos_bound t 1000000000 ltac:(lia)) as Hnt.
  set (a := u / 1000000000) in *. set (b := t / 1000000000) in *.
  destruct (Z.eq_dec a b) as [->|Hne]; [by rewrite cmpB_refl|].
  pose proof (Z.div_mod a 86400 ltac:(lia)) as Ea.
  pose proof (Z.mod_pos_bound a 86400 ltac:(lia)) as Hsa.
  pose proof (Z.div_mod b 86400 ltac:(lia)) as Eb.
  pose proof (Z.mod_pos_bound b 86400 ltac:(lia)) as Hsb.
  pose proof (civil_round_trip (a / 86400)) as Ca.
  pose proof (civil_round_trip (b / 86400)) as Cb.
  pose proof (clock_fields (a mod 86400) Hsa) as (Ha1 & Ha2 & Ha3 & Ha4).
  pose proof (clock_fields (b mod 86400) Hsb) as (Hb1 & Hb2 & Hb3 & Hb4).
  set (sa := a mod 86400) in *. set (sb := b mod 86400) in *.
  assert (a / 86400 = b / 86400 /\ sa < sb \/ a / 86400 < b / 86400) as Hcase by lia.
  pose proof (civil_lt (a / 86400) (b / 86400)) as Hlt.
  set (da := a / 86400) in *. set (db := b / 86400) in *.
  destruct (civil_from_days da) as [[y m] d] eqn:Eda.
  destruct (civil_from_days db) as [[y' m'] d'] eqn:Edb.
  destruct Ca as (_ & Hm & Hd & Hy). destruct Cb as (_ & Hm' & Hd' & Hy').
  assert (0 <= y <= 9999) as Hyr by (apply Hy; lia).
  assert (0 <= y' <= 9999) as Hyr' by (apply Hy'; lia).
  assert (daysIn m y <= 31) by (unfold daysIn; repeat case_match; lia).
  assert (daysIn m' y' <= 31) by (unfold daysIn; repeat case_match; lia).
  set (hh := sa / 3600) in *. set (mi := sa mod 3600 / 60) in *.
  set (ss := sa mod 60) in *.
  set (hh' := sb / 3600) in *. set (mi' := sb mod 3600 / 60) in *.
  set (ss' := sb mod 60) in *.
  rewrite cmpB_field by (cbn; lia). rewrite cmpB_sep.
  rewrite cmpB_field by (cbn; lia). rewrite cmpB_sep.
  rewrite cmpB_field by (cbn; lia). rewrite cmpB_sep.
  rewrite cmpB_field by (cbn; lia). rewrite cmpB_sep.
  rewrite cmpB_field by (cbn; lia). rewrite cmpB_sep.
  rewrite cmpB_field by (cbn; lia). rewrite cmpB_refl.
  destruct Hcase as [[Hd0 Hs]|Hd0].
  - assert (y = y' /\ m = m' /\ d = d') as (-> & -> & ->).
    { rewrite Hd0 in Eda. rewrite Eda in Edb. by injection Edb as -> -> ->. }
    rewrite !Z.compare_refl.
    destruct (Z.compare_spec hh hh'); destruct (Z.compare_spec mi mi');
      destruct (Z.compare_spec ss ss'); try done; lia.
  - specialize (Hlt Hd0). unfold date_lt in Hlt.
    rewrite !orb_true_iff, !andb_true_iff, !orb_true_iff, !andb_true_iff,
      !Z.ltb_lt, !Z.eqb_eq in Hlt.
    destruct (Z.compare_spec y y'); destruct (Z.compare_spec m m');
      destruct (Z.compare_spec d d'); try done; lia.
Qed.

End NameOrder.

(** The names of snapshots are in the order of their times. *)

Lemma Format3339_length t : length (RFC3339.Format t) = 20%nat.
Proof.
  unfold RFC3339.Format. destruct (RFC3339Nano.civil_from_days _) as [[y m] d].
  rewrite !length_app, !digits_length. reflexivity.
Qed.

Lemma snapshotName_mono u t :
  formattable u -> formattable t ->
  (u / 1000000000 <= t / 1000000000)%Z ->
  String.le (snapshotName u) (snapshotName t).
Proof.
  intros Hu Ht Hle. apply Is_true_true. unfold String.leb, snapshotName.
  change (String.compare (string_of_list_ascii ?a) (string_of_list_ascii ?b))
    with (cmpB a b).
  rewrite cmpB_app by done. rewrite cmpB_refl.
  rewrite cmpB_app by (by rewrite !Format3339_length). rewrite cmpB_refl.
  pose proof (Format_mono u t Hu Ht Hle) as H.
  by destruct (cmpB (RFC3339.Format u) (RFC3339.Format t)).
Qed.

Lemma last_sorted_max (l : list string) x :
  StronglySorted String.le l -> last l = Some x ->
  forall y, y ∈ l -> String.le y x.
Proof.
  induction 1 as [|a l Hs IH Ha]; [done|].
  intros Hlast y Hy. destruct l as [|b l].
  - cbn in Hlast. injection Hlast as <-.
    apply elem_of_cons in Hy as [->|Hy]; [done|by apply elem_of_nil in Hy].
  - change (last (a :: b :: l)) with (last (b :: l)) in Hlast.
    apply elem_of_cons in Hy as [->|Hy]; [|by apply IH].
    eapply (Forall_forall (String.le a) (b :: l)); [exact Ha|].
    by eapply last_Some_elem_of.
Qed.

(** X20. Startup restores the latest snapshot: when the reminders directory
    holds exactly the files that earlier shutdowns created (each named by
    [deconstructRMState] after the UTC time of the shutdown, in the RFC3339
    layout, years 0000 to 9999), in whatever order [Readdirnames] returns
    them, the file [constructRMState] opens after [sort.Strings], the last
    one, is the one of the latest shutdown (to the second). *)
Theorem latest_snapshot_is_chosen times names t :
  Forall formattable times ->
  t ∈ times ->
  (forall u, u ∈ times -> (u / 1000000000 <= t / 1000000000)%Z) ->
  names ≡ₚ map snapshotName times ->
  chooseSnapshot names = Some (snapshotName t).
Proof.
  intros Hf Ht Hmax Hperm. unfold chooseSnapshot.
  assert (sort_Strings names ≡ₚ map snapshotName times) as Hp.
  { unfold sort_Strings. by rewrite merge_sort_Permutation. }
  assert (StronglySorted String.le (sort_Strings names)) as Hs.
  { apply (StronglySorted_merge_sort String.le). }
  assert (snapshotName t ∈ sort_Strings names) as Hin.
  { rewrite Hp. apply list_elem_of_fmap. by exists t. }
  destruct (last (sort_Strings names)) as [f|] eqn:Hl.
  2:{ apply last_None in Hl. rewrite Hl in Hin. by apply elem_of_nil in Hin. }
  f_equal.
  pose proof (last_sorted_max _ _ Hs Hl _ Hin) as H1.
  assert (f ∈ map snapshotName times) as Hfin.
  { rewrite <- Hp. by eapply last_Some_elem_of. }
  apply list_elem_of_fmap in Hfin as (u & -> & Hu).
  apply (anti_symm String.le); [|done].
  rewrite Forall_forall in Hf.
  apply snapshotName_mono; [by apply Hf|by apply Hf|by apply Hmax].
Qed.

(** Three shutdowns, listed out of order. *)
Lemma latest_snapshot_is_chosen_witness :
  Forall formattable [t0; (t0 + 2 * Hour)%Z; (t0 + 1 * Hour)%Z] /\
  (t0 + 2 * Hour)%Z ∈ [t0; (t0 + 2 * Hour)%Z; (t0 + 1 * Hour)%Z] /\
  (forall u, u ∈ [t0; (t0 + 2 * Hour)%Z; (t0 + 1 * Hour)%Z] ->
     (u / 1000000000 <= (t0 + 2 * Hour) / 1000000000)%Z) /\
  map snapshotName [(t0 + 2 * Hour)%Z; t0; (t0 + 1 * Hour)%Z]
    ≡ₚ map snapshotName [t0; (t0 + 2 * Hour)%Z; (t0 + 1 * Hour)%Z] /\
  chooseSnapshot (map snapshotName [(t0 + 2 * Hour)%Z; t0; (t0 + 1 * Hour)%Z])
    = Some (snapshotName (t0 + 2 * Hour)%Z).
Proof.
  assert (Forall formattable [t0; (t0 + 2 * Hour)%Z; (t0 + 1 * Hour)%Z]) as Hf.
  { repeat constructor; unfold t0, Hour, Second; lia. }
  assert ((t0 + 2 * Hour)%Z ∈ [t0; (t0 + 2 * Hour)%Z; (t0 + 1 * Hour)%Z]) as Ht.
  { right. left. }
  assert (forall u, u ∈ [t0; (t0 + 2 * Hour)%Z; (t0 + 1 * Hour)%Z] ->
            (u / 1000000000 <= (t0 + 2 * Hour) / 1000000000)%Z) as Hmax.
  { intros u Hu.
    repeat (apply elem_of_cons in Hu as [->|Hu]; [vm_compute; discriminate|]).
    by apply elem_of_nil in Hu. }
  assert (map snapshotName [(t0 + 2 * Hour)%Z; t0; (t0 + 1 * Hour)%Z]
            ≡ₚ map snapshotName [t0; (t0 + 2 * Hour)%Z; (t0 + 1 * Hour)%Z]) as Hp.
  { apply Permutation_map, perm_swap. }
  split; [exact Hf|]. split; [exact Ht|]. split; [exact Hmax|]. split; [exact Hp|].
  exact (latest_snapshot_is_chosen _ _ _ Hf Ht Hmax Hp).
Defined.

(** ** Due records in a snapshot *)





(** ** What becomes of a record once its timer has expired *)

Lemma lookup_inserted {A} (l : list A) i x k y :
  i <= length l -> l !! k = Some y ->
  (take i l ++ x :: drop i l) !! (if decide (k < i) then k else S k) = Some y.
Proof.
  intros Hi Hk. case_decide as Hlt.
  - rewrite lookup_app_l by (rewrite length_take; lia).
    by rewrite lookup_take_lt.
  - rewrite lookup_app_r by (rewrite length_take; lia).
    rewrite length_take. replace (S k - i `min` length l) with (S (k - i)) by lia.
    change ((x :: drop i l) !! S (k - i)) with (drop i l !! (k - i)).
    rewrite lookup_drop. by replace (i + (k - i)) with k by lia.
Qed.

Lemma lookup_deleted {A} (l : list A) k' k y :
  l !! k = Some y -> k <> k' ->
  delete k' l !! (if decide (k < k') then k else pred k) = Some y.
Proof.
  intros Hk Hne. case_decide as Hlt.
  - by rewrite list_lookup_delete_lt.
  - rewrite list_lookup_delete_ge by lia. by replace (S (pred k)) with k by lia.
Qed.

Lemma holds_spent_Add now r0 w tp r :
  paired w -> holds_spent w tp r -> holds_spent (fst (Add now r0 w)) tp r.
Proof.
  intros Hp (k & t & Hr & Ht & Hh & Hs). destruct (due now r0) eqn:Hd.
  { rewrite Add_due by done. by exists k, t. }
  rewrite Add_not_due by done. cbn [fst].
  pose proof (userRange_le (userID r0) (reminders (rmState w))) as Hi.
  pose proof (paired_length _ Hp) as Hl.
  set (i := snd (userRange _ _)) in *.
  exists (if decide (k < i) then k else S k), t. cbn [rmState reminders timers heap].
  rewrite !slice_insert_spec by lia.
  split; [apply lookup_inserted; [lia|done]|].
  split; [apply lookup_inserted; [lia|done]|].
  split; [|done]. rewrite lookup_app_l; [done|by eapply lookup_lt_Some].
Qed.

Lemma holds_spent_Remove uid exp w tp r :
  holds_spent w tp r -> holds_spent (world_of (Remove uid exp w)) tp r.
Proof.
  intros (k & t & Hr & Ht & Hh & Hs). unfold Remove.
  destruct (findExact _ _ _) as [| |k'] eqn:Hf; try (by exists k, t).
  apply findExact_FoundAt in Hf as (_ & Hk' & _).
  destruct (timers _ !! k') as [tp'|] eqn:Htp'; [|by exists k, t].
  destruct (heap w !! tp') as [t'|] eqn:Ht'; [|by exists k, t].
  unfold Stop. destruct (tm_status t') eqn:Hst; cbn [negb world_of];
    try (by exists k, t).
  assert (tp <> tp') as Hne by (intros ->; congruence).
  assert (k <> k') as Hkne by (intros ->; congruence).
  exists (if decide (k < k') then k else pred k), t.
  cbn [rmState reminders timers heap].
  rewrite !slice_remove_spec by (done || by eapply lookup_lt_Some).
  split; [by apply lookup_deleted|]. split; [by apply lookup_deleted|].
  split; [|done]. by rewrite list_lookup_insert_ne.
Qed.

Lemma holds_spent_expire tp0 w tp r :
  holds_spent w tp r -> holds_spent (from_option snd w (expire tp0 w)) tp r.
Proof.
  intros (k & t & Hr & Ht & Hh & Hs). unfold expire.
  destruct (heap w !! tp0) as [t0|] eqn:H0; [|by exists k, t].
  destruct (tm_status t0) eqn:Hst; cbn [from_option snd]; try (by exists k, t).
  assert (tp <> tp0) as Hne by (intros ->; congruence).
  exists k, t. cbn [rmState heap]. by rewrite list_lookup_insert_ne.
Qed.

Lemma holds_spent_timerCallback r0 w tp r :
  holds_spent w tp r -> holds_spent (world_of (timerCallback r0 w)) tp r.
Proof.
  intros H. unfold timerCallback.
  pose proof (holds_spent_Remove (userID r0) (expiration r0) w tp r H) as H'.
  by destruct (Remove _ _ _).
Qed.

Lemma holds_spent_step w o tp r :
  paired w -> keeps_store o = true ->
  holds_spent w tp r -> holds_spent (step w o) tp r.
Proof.
  intros Hp Ho H. destruct o; cbn [step]; try done.
  - by apply holds_spent_Add.
  - by apply holds_spent_Remove.
  - unfold fire. pose proof (holds_spent_expire tp0 w tp r H) as He.
    destruct (expire tp0 w) as [[r0 w1]|]; [|done].
    cbn [from_option snd] in *. by apply holds_spent_timerCallback.
  - by apply holds_spent_expire.
  - by apply holds_spent_timerCallback.
  - destruct H as (k & t & Hr & Ht & Hh & Hs).
    destruct (stays_unarmed_stopAll (heap w) (timers (rmState w)) tp t Hh Hs)
      as (t' & Ht' & Hs').
    by exists k, t'.
Qed.

Lemma holds_spent_run ops w tp r :
  paired w -> forallb keeps_store ops = true ->
  holds_spent w tp r -> holds_spent (run ops w) tp r.
Proof.
  unfold run. revert w. induction ops as [|o ops IH]; intros w Hp Ho H; [done|].
  cbn [forallb] in Ho. apply andb_true_iff in Ho as [Ho Hops]. cbn [foldl].
  apply IH; [by apply paired_step|done|by apply holds_spent_step].
Qed.

Lemma expired_is_spent ops tp r w1 :
  expire tp (run ops emptyWorld) = Some (r, w1) ->
  paired w1 /\
  exists k t,
    reminders (rmState w1) !! k = Some r /\ timers (rmState w1) !! k = Some tp /\
    heap w1 !! tp = Some t /\ tm_status t = Fired.
Proof.
  intros He. destruct (reachable_invariants ops) as [Hp Hinv].
  pose proof (paired_expire tp _ Hp) as Hp1. rewrite He in Hp1.
  cbn [from_option snd] in Hp1. split; [exact Hp1|].
  set (w := run ops emptyWorld) in *. clearbody w.
  unfold expire in He. destruct (heap w !! tp) as [t|] eqn:Ht; [|done].
  destruct (tm_status t) eqn:Hst; [|done|done].
  injection He as <- <-.
  destruct (list_elem_of_lookup_1 _ _ (Hinv _ _ Ht Hst)) as [k Hk].
  destruct (Forall2_lookup_r _ _ _ _ _ Hp Hk) as (r & Hr & t1 & Ht1 & Hown).
  assert (t1 = t) as -> by congruence. subst r.
  exists k, (mkTimer (tm_when t) (tm_reminder t) Fired). cbn [rmState heap].
  split; [done|]. split; [done|]. split; [|done].
  by rewrite list_lookup_insert_eq by (by eapply lookup_lt_Some).
Qed.

(** C6, on the code. In any state the program reaches, when the timer of a
    record has expired the record is in the store, with that timer. A
    [Remove] whose lookup ends on the record then fails the [Stop] check: it
    logs that the reminder is already triggering, returns false and removes
    nothing, as the claim asks of a cancellation. But the firing callback
    does not remove the record either: it delivers the reminder and calls
    that same [Remove], which fails that same [Stop] check on the timer that
    has just fired (or ends elsewhere in the store); when the callback has
    returned, the record and its timer are still in the two slices. *)
Theorem C6_firing_callback_does_not_remove_the_record ops tp r w1 :
  expire tp (run ops emptyWorld) = Some (r, w1) ->
  exists k,
    reminders (rmState w1) !! k = Some r /\
    timers (rmState w1) !! k = Some tp /\
    (forall uid exp,
       findExact uid exp (reminders (rmState w1)) = FoundAt k ->
       Remove uid exp w1 = Returns false w1 [Log msgTriggering]) /\
    (findExact (userID r) (expiration r) (reminders (rmState w1)) = FoundAt k ->
     timerCallback r w1 = Returns false w1 [Send r; Log msgTriggering]) /\
    exists b w2 tr k',
      timerCallback r w1 = Returns b w2 (Send r :: tr) /\
      reminders (rmState w2) !! k' = Some r /\
      timers (rmState w2) !! k' = Some tp.
Proof.
  intros He.
  destruct (expired_is_spent ops tp r w1 He) as (Hp1 & k & t & Hr & Ht & Hh & Hs).
  assert (forall uid exp,
            findExact uid exp (reminders (rmState w1)) = FoundAt k ->
            Remove uid exp w1 = Returns false w1 [Log msgTriggering]) as HR.
  { intros uid exp Hf. unfold Remove. rewrite Hf, Ht, Hh. unfold Stop.
    by rewrite Hs. }
  exists k. split; [done|]. split; [done|]. split; [exact HR|]. split.
  - intros Hf. unfold timerCallback. by rewrite (HR _ _ Hf).
  - destruct (Remove_returns (userID r) (expiration r) w1 Hp1) as (b & w2 & tr & Hc).
    pose proof (holds_spent_timerCallback r w1 tp r) as Hk'.
    unfold timerCallback in *. rewrite Hc in *. cbn [world_of] in Hk'.
    destruct Hk' as (k' & t' & Hr' & Ht' & _).
    { exists k, t. split; [done|]. split; [done|]. split; [done|]. by rewrite Hs. }
    by exists b, w2, tr, k'.
Qed.

(** The only reminder of [alice] fires: after the callback it is still
    there. *)
Lemma C6_firing_callback_does_not_remove_the_record_witness :
  expire 0 (run [OpAdd t0 buyMilk] emptyWorld) = Some (buyMilk, wFiring) /\
  exists k,
    reminders (rmState wFiring) !! k = Some buyMilk /\
    timers (rmState wFiring) !! k = Some 0 /\
    (forall uid exp,
       findExact uid exp (reminders (rmState wFiring)) = FoundAt k ->
       Remove uid exp wFiring = Returns false wFiring [Log msgTriggering]) /\
    (findExact (userID buyMilk) (expiration buyMilk) (reminders (rmState wFiring))
       = FoundAt k ->
     timerCallback buyMilk wFiring
       = Returns false wFiring [Send buyMilk; Log msgTriggering]) /\
    exists b w2 tr k',
      timerCallback buyMilk wFiring = Returns b w2 (Send buyMilk :: tr) /\
      reminders (rmState w2) !! k' = Some buyMilk /\
      timers (rmState w2) !! k' = Some 0.
Proof.
  assert (expire 0 (run [OpAdd t0 buyMilk] emptyWorld) = Some (buyMilk, wFiring))
    as He by (vm_compute; reflexivity).
  split; [exact He|].
  exact (C6_firing_callback_does_not_remove_the_record
           [OpAdd t0 buyMilk] 0 buyMilk wFiring He).
Defined.

(** X22. A reminder whose timer has expired is never taken out of the store
    by the operations of the running program: in any state the program
    reaches, once the timer of a record has expired, the record and its timer
    stay in the two slices, at one and the same index, through the timer's
    own callback and through every later [Add], [Remove], expiry, callback
    and shutdown; only the reset of a failed import drops it. The record is
    therefore still listed, and still written to the snapshot at shutdown. *)
Theorem fired_record_is_never_removed ops tp r w1 ops' :
  expire tp (run ops emptyWorld) = Some (r, w1) ->
  forallb keeps_store ops' = true ->
  exists k t,
    reminders (rmState (run ops' w1)) !! k = Some r /\
    timers (rmState (run ops' w1)) !! k = Some tp /\
    heap (run ops' w1) !! tp = Some t /\ tm_status t <> Armed.
Proof.
  intros He Ho. destruct (reachable_invariants ops) as [Hp Hinv].
  pose proof (paired_expire tp _ Hp) as Hp1. rewrite He in Hp1.
  cbn [from_option snd] in Hp1.
  apply holds_spent_run; [done|done|].
  set (w := run ops emptyWorld) in *. clearbody w.
  unfold expire in He. destruct (heap w !! tp) as [t|] eqn:Ht; [|done].
  destruct (tm_status t) eqn:Hst; [|done|done].
  injection He as <- <-.
  destruct (list_elem_of_lookup_1 _ _ (Hinv _ _ Ht Hst)) as [k Hk].
  destruct (Forall2_lookup_r _ _ _ _ _ Hp Hk) as (r & Hr & t1 & Ht1 & Hown).
  assert (t1 = t) as -> by congruence. subst r.
  exists k, (mkTimer (tm_when t) (tm_reminder t) Fired). cbn [rmState heap].
  split; [done|]. split; [done|]. split; [|done].
  by rewrite list_lookup_insert_eq by (by eapply lookup_lt_Some).
Qed.

(** The only reminder of [alice] fires; its callback runs, she tries to
    cancel it, schedules another one, and the program shuts down. *)
Lemma fired_record_is_never_removed_witness :
  expire 0 (run [OpAdd t0 buyMilk] emptyWorld) = Some (buyMilk, wFiring) /\
  forallb keeps_store
    [OpCallback buyMilk; OpRemove alice (expiration buyMilk); OpAdd t0 callMom;
     OpShutdown] = true /\
  exists k t,
    reminders (rmState (run [OpCallback buyMilk; OpRemove alice (expiration buyMilk);
                             OpAdd t0 callMom; OpShutdown] wFiring)) !! k
      = Some buyMilk /\
    timers (rmState (run [OpCallback buyMilk; OpRemove alice (expiration buyMilk);
                          OpAdd t0 callMom; OpShutdown] wFiring)) !! k = Some 0 /\
    heap (run [OpCallback buyMilk; OpRemove alice (expiration buyMilk);
               OpAdd t0 callMom; OpShutdown] wFiring) !! 0 = Some t /\
    tm_status t <> Armed.
Proof.
  assert (expire 0 (run [OpAdd t0 buyMilk] emptyWorld) = Some (buyMilk, wFiring))
    as He by (vm_compute; reflexivity).
  assert (forallb keeps_store
            [OpCallback buyMilk; OpRemove alice (expiration buyMilk);
             OpAdd t0 callMom; OpShutdown] = true) as Ho by reflexivity.
  split; [exact He|]. split; [exact Ho|].
  exact (fired_record_is_never_removed [OpAdd t0 buyMilk] 0 buyMilk wFiring
           [OpCallback buyMilk; OpRemove alice (expiration buyMilk);
            OpAdd t0 callMom; OpShutdown] He Ho).
Defined.

(** ** Shutdown and restart *)

Lemma restored_literal l :
  Forall (fun r => forallb literal (list_ascii_of_string (message r)) = true) l ->
  map restored l = l.
Proof.
  induction 1 as [|r l Hr Hl IH]; [done|].
  cbn [map]. rewrite IH. f_equal. unfold restored.
  rewrite escaped_literal by done. by destruct r.
Qed.

Lemma add_all_invariant (P : World -> Prop) clock k l w tr :
  (forall now r w, P w -> P (fst (Add now r w))) ->
  P w -> P (add_all clock k l w tr).1.
Proof.
  intros Hstep. revert k w tr. induction l as [|r l IH]; intros k w tr Hw; [done|].
  cbn [add_all]. pose proof (Hstep (clock k) r w Hw) as Hw'.
  destruct (Add (clock k) r w) as [w' tr']. by apply IH.
Qed.

Lemma armed_Add now r w :
  Forall (fun t => tm_status t = Armed) (heap w) ->
  Forall (fun t => tm_status t = Armed) (heap (fst (Add now r w))).
Proof.
  intros H. destruct (due now r) eqn:Hd.
  - by rewrite Add_due.
  - rewrite Add_not_due by done. cbn [fst heap].
    apply Forall_app. split; [done|]. by repeat constructor.
Qed.

(** X23. Shutdown and restart: in any state the program reaches whose
    reminders are all writable, with messages of printable ASCII characters
    other than the quote and the backslash (which [%q] copies as they are),
    and none of them due when it is added back, [constructRMState]
    on the snapshot that [deconstructRMState] wrote, in a fresh process,
    returns without logging or delivering anything and leaves a store with
    the same reminders in the same order, the two slices paired up, and every
    timer armed. *)
Theorem restart_preserves_the_store ops clock :
  Forall writable (reminders (rmState (run ops emptyWorld))) ->
  Forall (fun r => forallb literal (list_ascii_of_string (message r)) = true)
    (reminders (rmState (run ops emptyWorld))) ->
  (forall i r, reminders (rmState (run ops emptyWorld)) !! i = Some r ->
     due (clock i) r = false) ->
  exists w',
    constructRMState clock (snd (deconstructRMState (run ops emptyWorld))) emptyWorld
      = Returns tt w' [] /\
    reminders (rmState w') = reminders (rmState (run ops emptyWorld)) /\
    paired w' /\
    Forall (fun t => tm_status t = Armed) (heap w').
Proof.
  intros Hw Hl Hd. destruct (reachable_paired_sorted ops) as [_ Hs].
  set (w := run ops emptyWorld) in *. clearbody w.
  cbn [deconstructRMState snd rmState].
  unfold constructRMState, ReadFrom, Csv.NewReader.
  pose proof (WriteTo_length (rmState w)) as Hlen. unfold WriteTo in Hlen |- *.
  rewrite ReadFrom_loop_written; [|done|by left|lia].
  rewrite restored_literal by done.
  destruct (add_all_sorted clock 0 (reminders (rmState w)) emptyWorld [])
    as [H1 H2]; [done|done|].
  pose proof (add_all_invariant paired clock 0 (reminders (rmState w)) emptyWorld []
                paired_Add paired_empty) as Hp.
  pose proof (add_all_invariant (fun w => Forall (fun t => tm_status t = Armed) (heap w))
                clock 0 (reminders (rmState w)) emptyWorld [] armed_Add
                ltac:(constructor)) as Ha.
  destruct (add_all _ _ _ _ _) as [w' tr]. cbn [fst snd] in *. subst tr.
  by exists w'.
Qed.

(** [alice] has two reminders when the program is restarted. *)
Lemma restart_preserves_the_store_witness :
  Forall writable
    (reminders (rmState (run [OpAdd t0 buyMilk; OpAdd t0 callMom] emptyWorld))) /\
  Forall (fun r => forallb literal (list_ascii_of_string (message r)) = true)
    (reminders (rmState (run [OpAdd t0 buyMilk; OpAdd t0 callMom] emptyWorld))) /\
  (forall i r,
     reminders (rmState (run [OpAdd t0 buyMilk; OpAdd t0 callMom] emptyWorld)) !! i
       = Some r ->
     due ((fun _ => t0) i) r = false) /\
  exists w',
    constructRMState (fun _ => t0)
      (snd (deconstructRMState (run [OpAdd t0 buyMilk; OpAdd t0 callMom] emptyWorld)))
      emptyWorld
      = Returns tt w' [] /\
    reminders (rmState w')
      = reminders (rmState (run [OpAdd t0 buyMilk; OpAdd t0 callMom] emptyWorld)) /\
    paired w' /\
    Forall (fun t => tm_status t = Armed) (heap w').
Proof.
  assert (reminders (rmState (run [OpAdd t0 buyMilk; OpAdd t0 callMom] emptyWorld))
          = [buyMilk; callMom]) as E by (vm_compute; reflexivity).
  assert (Forall writable
    (reminders (rmState (run [OpAdd t0 buyMilk; OpAdd t0 callMom] emptyWorld)))) as Hw.
  { rewrite E.
    repeat apply Forall_cons_2; [| |constructor]; repeat split;
      try (vm_compute; repeat constructor; discriminate);
      try (unfold t0, Hour, Second; cbn; lia);
      vm_compute; intros H;
      repeat (apply elem_of_cons in H as [H|H]; [discriminate|]);
      by apply elem_of_nil in H. }
  assert (Forall (fun r => forallb literal (list_ascii_of_string (message r)) = true)
    (reminders (rmState (run [OpAdd t0 buyMilk; OpAdd t0 callMom] emptyWorld)))) as Hl.
  { rewrite E. repeat constructor. }
  assert (forall i r,
     reminders (rmState (run [OpAdd t0 buyMilk; OpAdd t0 callMom] emptyWorld)) !! i
       = Some r ->
     due ((fun _ => t0) i) r = false) as Hd.
  { rewrite E. intros [|[|i]] r [= <-]; vm_compute; reflexivity. }
  split; [exact Hw|]. split; [exact Hl|]. split; [exact Hd|].
  exact (restart_preserves_the_store [OpAdd t0 buyMilk; OpAdd t0 callMom]
           (fun _ => t0) Hw Hl Hd).
Defined.
